(** * EgoBody SMPL regression trainer: a shallow embedding of [train.py]

    The trainer orchestrates tensor operations of a deep-learning framework.
    Tensor entries are modelled as real numbers, the exact-arithmetic reading
    of the float32 code, tensors as nested lists in row-major order, Python
    exceptions as [None] in the option monad.

    Float32 arithmetic departs from the reals by rounding, overflow and
    underflow.  Where a property of the code depends on them, it is stated
    accordingly: the 3D keypoint loss is given a second time with a rounding
    after every operation and a third time on binary32 numbers, and
    properties that fail outside the range of float32 carry a bound on the
    values as a hypothesis. *)

From Stdlib Require Import Reals Lra Lia List ZArith String Ascii
  FunctionalExtensionality SpecFloat.
From stdpp Require Import base option list gmap strings.

Local Open Scope R_scope.

(* ################################################################# *)
(** * Part I: the model *)

(** ** Tensors *)

(** A tensor of shape (n), (n, m), (b, j, d), (b, j, r, c) is the list of its
    slices along the first axis.  The sizes of the inner axes of a tensor
    whose outer axis is empty are not recorded. *)
Abbreviation tensor1 := (list R).
Abbreviation tensor2 := (list (list R)).
Abbreviation tensor3 := (list (list (list R))).
Abbreviation tensor4 := (list (list (list (list R)))).

Definition tsum (xs : tensor1) : R := foldr Rplus 0 xs.

(** [t.mean()] over all entries.  On a tensor without entries torch yields
    nan, the model [0 / 0], which is [0] in the reals of the Standard
    Library: a statement about a mean is to be read for a tensor with at
    least one entry. *)
Definition tmean (xs : tensor1) : R := tsum xs / INR (length xs).

Definition flat2 (t : tensor2) : tensor1 := concat t.
Definition flat3 (t : tensor3) : tensor1 := concat (concat t).
Definition flat4 (t : tensor4) : tensor1 := concat (concat (concat t)).

(** Entrywise application of a unary operation. *)
Definition map1 (f : R -> R) (t : tensor1) : tensor1 := f <$> t.
Definition map2 (f : R -> R) (t : tensor2) : tensor2 := map1 f <$> t.
Definition map3 (f : R -> R) (t : tensor3) : tensor3 := map2 f <$> t.

(** Shapes, as predicates on the nested lists. *)
Definition has_shape2 (n m : nat) (t : tensor2) : Prop :=
  length t = n /\ Forall (fun row => length row = m) t.
Definition has_shape3 (b j d : nat) (t : tensor3) : Prop :=
  length t = b /\ Forall (has_shape2 j d) t.

(** Broadcasting of a binary operation along one axis: sizes must agree
    unless one of them is 1. *)
Definition bcast2 {A B C} (f : A -> B -> option C)
    (xs : list A) (ys : list B) : option (list C) :=
  match xs, ys with
  | [x], _ => mapM (f x) ys
  | _, [y] => mapM (fun x => f x y) xs
  | _, _ => if decide (length xs = length ys)
            then mapM (fun p => f p.1 p.2) (zip xs ys)
            else None
  end.

Definition ew0 (f : R -> R -> R) (a b : R) : option R := Some (f a b).
Definition ew1 (f : R -> R -> R) : tensor1 -> tensor1 -> option tensor1 :=
  bcast2 (ew0 f).
Definition ew2 (f : R -> R -> R) : tensor2 -> tensor2 -> option tensor2 :=
  bcast2 (ew1 f).
Definition ew3 (f : R -> R -> R) : tensor3 -> tensor3 -> option tensor3 :=
  bcast2 (ew2 f).
Definition ew4 (f : R -> R -> R) : tensor4 -> tensor4 -> option tensor4 :=
  bcast2 (ew3 f).

(** Groups of [k] consecutive elements of a row-major buffer. *)
Fixpoint rows_of {A} (n k : nat) (flat : list A) : list (list A) :=
  match n with
  | O => []
  | S n' => take k flat :: rows_of n' k (drop k flat)
  end.

(** [t.view((t.shape[0], -1, 3))]: every example is regrouped in rows of 3.
    The call raises on an empty batch (the size standing for -1 is then
    ambiguous) or when an example does not split in threes. *)
Definition view_b_m1_3 (t : tensor3) : option tensor3 :=
  if decide (t = []) then None
  else mapM (fun ex : list (list R) =>
               let flat := concat ex in
               if decide (length flat `mod` 3 = 0)%nat
               then Some (rows_of (length flat `div` 3) 3 flat)
               else None) t.

(** [t.view((t.shape[0], 1, 2))]: every example must hold exactly 2 entries. *)
Definition view_b_1_2 (t : tensor2) : option tensor3 :=
  mapM (fun row : list R =>
          if decide (length row = 2%nat) then Some [row] else None) t.

(** [t.view((t.shape[0], 1, 1))] on a tensor of shape (b). *)
Definition view_b_1_1 (t : tensor1) : tensor3 := (fun s => [[s]]) <$> t.

(** [t[:, :, :n]] *)
Definition cols_to (n : nat) (t : tensor3) : tensor3 :=
  (fun ex : list (list R) => take n <$> ex) <$> t.

(** ** Weak-perspective projection *)

Definition weakProjection_gpu (skel3D : tensor3) (scale : tensor1)
    (trans2D : tensor2) : option tensor3 :=
  skel3D' ← view_b_m1_3 skel3D;
  trans2D' ← view_b_1_2 trans2D;
  let scale' := view_b_1_1 scale in
  scaled ← ew3 Rmult scale' (cols_to 2 skel3D');
  ew3 Rplus scaled trans2D'.

(** ** Loss values *)

(** A loss is a one-entry tensor: of shape () when it comes from a
    reduction, of shape (1) when it is the constant built by
    [torch.FloatTensor(1).fill_(0.)]. *)
Inductive loss_tensor : Type :=
  | Scalar (v : R)
  | OneElem (v : R).

Definition item (l : loss_tensor) : R :=
  match l with Scalar v | OneElem v => v end.

Definition zero_loss : loss_tensor := OneElem 0.

(** [w * l] for a Python number [w]. *)
Definition lscale (w : R) (l : loss_tensor) : loss_tensor :=
  match l with
  | Scalar v => Scalar (w * v)
  | OneElem v => OneElem (w * v)
  end.

(** [l *= c] *)
Definition limul (l : loss_tensor) (c : R) : loss_tensor :=
  match l with
  | Scalar v => Scalar (v * c)
  | OneElem v => OneElem (v * c)
  end.

(** [l1 + l2]: shape () only when both operands have it. *)
Definition ladd (l1 l2 : loss_tensor) : loss_tensor :=
  match l1, l2 with
  | Scalar a, Scalar b => Scalar (a + b)
  | _, _ => OneElem (item l1 + item l2)
  end.

(** ** Annotation flags *)

(** [has_smpl] and [has_pose_3d] reach the losses as uint8 tensors
    ([.byte()]) or as bool tensors ([.byte().bool()]). *)
Inductive flag_tensor : Type :=
  | ByteTensor (l : list Z)
  | BoolTensor (l : list bool).

Definition byte (l : list Z) : flag_tensor :=
  ByteTensor (fmap (fun z => z `mod` 256)%Z l).

Definition to_bool (f : flag_tensor) : flag_tensor :=
  match f with
  | ByteTensor l => BoolTensor (fmap (fun z => negb (z =? 0)%Z) l)
  | BoolTensor l => BoolTensor l
  end.

(** [f == 1] *)
Definition eq_one (f : flag_tensor) : list bool :=
  match f with
  | ByteTensor l => fmap (fun z => (z =? 1)%Z) l
  | BoolTensor l => l
  end.

Definition flag_values (f : flag_tensor) : list Z :=
  match f with
  | ByteTensor l => l
  | BoolTensor l => fmap (fun b : bool => if b then 1%Z else 0%Z) l
  end.

Fixpoint select {A} (mask : list bool) (xs : list A) : list A :=
  match mask, xs with
  | b :: mask', x :: xs' => if b then x :: select mask' xs' else select mask' xs'
  | _, _ => []
  end.

(** [t[mask]] for a boolean mask over the first axis; the sizes must agree. *)
Definition mask_index {A} (mask : list bool) (xs : list A) : option (list A) :=
  if decide (length mask = length xs) then Some (select mask xs) else None.

(** ** Slices *)

(** [t[:, :, -1].unsqueeze(-1)] *)
Definition last_col (t : tensor3) : option tensor3 :=
  mapM (mapM (fun row : list R => x ← last row; Some [x])) t.

(** [t[:, :, :-1]] *)
Definition but_last_col (t : tensor3) : tensor3 :=
  (fun ex : list (list R) => (fun row : list R => removelast row) <$> ex) <$> t.

(** [t[:, n:, :]] *)
Definition joints_from (n : nat) (t : tensor3) : tensor3 := drop n <$> t.

(** [t[:, :n] *= w] and [t[:, n:] *= w] *)
Definition imul_joints_to (n : nat) (w : R) (t : tensor3) : tensor3 :=
  (fun ex : list (list R) =>
     ((fun row : list R => (fun x => x * w) <$> row) <$> take n ex) ++ drop n ex)
  <$> t.
Definition imul_joints_from (n : nat) (w : R) (t : tensor3) : tensor3 :=
  (fun ex : list (list R) =>
     take n ex ++ ((fun row : list R => (fun x => x * w) <$> row) <$> drop n ex))
  <$> t.

(** [t[:, i, :]] *)
Definition joint (i : nat) (t : tensor3) : option tensor2 :=
  mapM (fun ex : list (list R) => ex !! i) t.

(** [p[:, None, :]] *)
Definition unsqueeze1 (p : tensor2) : tensor3 := (fun row => [row]) <$> p.

(** ** Criteria *)

Definition sq_err (a b : R) : R := (a - b) ^ 2.
Definition abs_err (a b : R) : R := Rabs (a - b).

(** [nn.MSELoss(reduction='none')] *)
Definition criterion_keypoints (input target : tensor3) : option tensor3 :=
  ew3 sq_err input target.

(** [nn.L1Loss()] *)
Definition criterion_shape (input target : tensor3) : option loss_tensor :=
  d ← ew3 abs_err input target;
  Some (Scalar (tmean (flat3 d))).

(** [nn.MSELoss()], at the two ranks it is used with *)
Definition criterion_regr4 (input target : tensor4) : option loss_tensor :=
  d ← ew4 sq_err input target;
  Some (Scalar (tmean (flat4 d))).
Definition criterion_regr2 (input target : tensor2) : option loss_tensor :=
  d ← ew2 sq_err input target;
  Some (Scalar (tmean (flat2 d))).

(** ** The losses of [Trainer] *)

(** Over the reals a confidence of 0 cancels any squared error; in float32
    a squared error that overflows to infinity turns the product into nan. *)
Definition keypoint_loss (pred_keypoints_2d gt_keypoints_2d : tensor3)
    (openpose_weight gt_weight : R) : option loss_tensor :=
  conf ← last_col gt_keypoints_2d;
  let conf := imul_joints_to 25 openpose_weight conf in
  let conf := imul_joints_from 25 gt_weight conf in
  err ← criterion_keypoints pred_keypoints_2d (but_last_col gt_keypoints_2d);
  weighted ← ew3 Rmult conf err;
  Some (Scalar (tmean (flat3 weighted))).

(** [(t[:, 2, :] + t[:, 3, :]) / 2], without rounding; [pelvis_rnd] below
    rounds the sum and the half. *)
Definition pelvis (t : tensor3) : option tensor2 :=
  j2 ← joint 2 t;
  j3 ← joint 3 t;
  s ← ew2 Rplus j2 j3;
  Some (map2 (fun x => x / 2) s).

Definition keypoint_3d_loss (pred_keypoints_3d gt_keypoints_3d : tensor3)
    (has_pose_3d : flag_tensor) : option loss_tensor :=
  let pred_keypoints_3d := joints_from 25 pred_keypoints_3d in
  conf ← last_col gt_keypoints_3d;
  let gt_keypoints_3d := but_last_col gt_keypoints_3d in
  gt_keypoints_3d ← mask_index (eq_one has_pose_3d) gt_keypoints_3d;
  conf ← mask_index (eq_one has_pose_3d) conf;
  pred_keypoints_3d ← mask_index (eq_one has_pose_3d) pred_keypoints_3d;
  if decide (0 < length gt_keypoints_3d)%nat then
    gt_pelvis ← pelvis gt_keypoints_3d;
    gt_keypoints_3d ← ew3 Rminus gt_keypoints_3d (unsqueeze1 gt_pelvis);
    pred_pelvis ← pelvis pred_keypoints_3d;
    pred_keypoints_3d ← ew3 Rminus pred_keypoints_3d (unsqueeze1 pred_pelvis);
    err ← criterion_keypoints pred_keypoints_3d gt_keypoints_3d;
    weighted ← ew3 Rmult conf err;
    Some (Scalar (tmean (flat3 weighted)))
  else Some zero_loss.

Definition shape_loss (pred_vertices gt_vertices : tensor3)
    (has_smpl : flag_tensor) : option loss_tensor :=
  pred_vertices_with_shape ← mask_index (eq_one has_smpl) pred_vertices;
  gt_vertices_with_shape ← mask_index (eq_one has_smpl) gt_vertices;
  if decide (0 < length gt_vertices_with_shape)%nat then
    criterion_shape pred_vertices_with_shape gt_vertices_with_shape
  else Some zero_loss.

(** ** Code of the repository outside [train.py] *)

(** [utils.geometry].  [estimate_translation] is called under [try]: [None]
    stands for any exception it raises. *)
Class Geometry := {
  batch_rodrigues : tensor2 -> tensor3;
  perspective_projection :
    tensor3 -> tensor3 -> tensor2 -> R -> tensor2 -> tensor3;
  estimate_translation : tensor3 -> tensor3 -> R -> Z -> option tensor2
}.

(** [t.view(-1, 3)] *)
Definition view_m1_3 (t : tensor2) : option tensor2 :=
  let flat := concat t in
  if decide (length flat `mod` 3 = 0)%nat
  then Some (rows_of (length flat `div` 3) 3 flat)
  else None.

(** [t.view(-1, 24, 3, 3)] *)
Definition view_m1_24_3_3 (t : tensor3) : option tensor4 :=
  let flat := flat3 t in
  if decide (length flat `mod` 216 = 0)%nat
  then let n := (length flat `div` 216)%nat in
       Some (rows_of n 24 (rows_of (n * 24) 3 (rows_of (n * 72) 3 flat)))
  else None.

Definition smpl_losses `{Geometry} (pred_rotmat : tensor4)
    (pred_betas gt_pose gt_betas : tensor2) (has_smpl : flag_tensor)
    : option (loss_tensor * loss_tensor) :=
  pred_rotmat_valid ← mask_index (eq_one has_smpl) pred_rotmat;
  gt_aa ← view_m1_3 gt_pose;
  gt_rotmat ← view_m1_24_3_3 (batch_rodrigues gt_aa);
  gt_rotmat_valid ← mask_index (eq_one has_smpl) gt_rotmat;
  pred_betas_valid ← mask_index (eq_one has_smpl) pred_betas;
  gt_betas_valid ← mask_index (eq_one has_smpl) gt_betas;
  if decide (0 < length pred_rotmat_valid)%nat then
    loss_regr_pose ← criterion_regr4 pred_rotmat_valid gt_rotmat_valid;
    loss_regr_betas ← criterion_regr2 pred_betas_valid gt_betas_valid;
    Some (loss_regr_pose, loss_regr_betas)
  else Some (zero_loss, zero_loss).

(** [models] and [smplx]: the regression network and the body model.  The
    network is a function of its weights, of its mode ([true] after
    [model.train()], [false] after [model.eval()]) and of the images; module
    buffers are not modelled. *)
Record smpl_output : Type := { joints : tensor3; vertices : tensor3 }.

(** The pose arguments of a body-model call: axis-angle vectors, or
    rotation matrices with [pose2rot=False]. *)
Inductive smpl_pose : Type :=
  | AxisAngle (body_pose global_orient : tensor2)
  | RotMat (body_pose global_orient : tensor4).

Class Models := {
  image : Type;
  weights : Type;
  hmr : bool -> weights -> list image -> tensor4 * tensor2 * tensor2;
  smpl : tensor2 -> smpl_pose -> smpl_output;
  smpl_eval : tensor2 -> smpl_pose -> smpl_output
}.

(** [torch.autograd] and [torch.optim.Adam].  [backward f w g] accumulates
    into [g] the gradient at [w] of the loss, given as a function of the
    weights. *)
Class Autograd `{Models} := {
  grads : Type;
  optim_state : Type;
  zero_grad : grads -> grads;
  backward : (weights -> option R) -> weights -> grads -> grads;
  optimizer_step : optim_state -> weights -> grads -> optim_state * weights
}.

(** [utils.pose_utils] and [torchgeometry] *)
Class PoseUtils := {
  reconstruction_error : tensor3 -> tensor3 -> tensor1;
  rotation_matrix_to_angle_axis : tensor3 -> tensor2
}.

(** ** Options, batches and the trainer *)

Record Options : Type := {
  img_res : Z;
  use_wpp : bool;
  shape_loss_weight : R;
  keypoint_loss_weight : R;
  pose_loss_weight : R;
  beta_loss_weight : R;
  openpose_train_weight : R;
  gt_train_weight : R;
  batch_size : nat
}.

(** One example of the dataset, and a collated batch. *)
Record sample `{Models} : Type := {
  s_img : image;
  s_keypoints : tensor2;
  s_pose : tensor1;
  s_betas : tensor1;
  s_pose_3d : tensor2;
  s_has_smpl : Z;
  s_has_pose_3d : Z;
  s_imgname : string
}.

Record batch `{Models} : Type := {
  img : list image;
  keypoints : tensor3;
  pose : tensor2;
  betas : tensor2;
  pose_3d : tensor3;
  has_smpl : list Z;
  has_pose_3d : list Z;
  imgname : list string
}.

(** A tensor together with its autograd flag; kept for the camera
    translations, which [train_step] detaches explicitly. *)
Record tracked : Type := Tracked { data : tensor2; requires_grad : bool }.

Definition clone (t : tracked) : tracked := Tracked (data t) (requires_grad t).
Definition detach (t : tracked) : tracked := Tracked (data t) false.

Record Trainer `{Autograd} : Type := {
  options : Options;
  focal_length : R;
  model : weights;
  training : bool;
  grad : grads;
  optimizer : optim_state;
  test_ds : list sample;
  submission_path : string;
  eval_result_path : string
}.

(** ** Pieces of [train_step] and [test_step] *)

(** [t[:, i]] *)
Definition col (i : nat) (t : tensor2) : option tensor1 :=
  mapM (fun row : list R => row !! i) t.

(** [t[:, n:]] and [t[:, :n]] *)
Definition cols_from2 (n : nat) (t : tensor2) : tensor2 := drop n <$> t.
Definition cols_to2 (n : nat) (t : tensor2) : tensor2 := take n <$> t.

(** [t[:, 1:]] and [t[:, 0].unsqueeze(1)] on a tensor of rank 4 *)
Definition tail_joints (t : tensor4) : tensor4 := drop 1 <$> t.
Definition head_joint (t : tensor4) : option tensor4 :=
  mapM (fun ex : list (list (list R)) => r ← ex !! 0%nat; Some [r]) t.

(** [t[:, :, :-1] = 0.5 * img_res * (t[:, :, :-1] + 1)] on a clone of [t] *)
Definition denormalize (res : Z) (t : tensor3) : tensor3 :=
  (fun ex : list (list R) =>
     (fun row : list R =>
        ((fun x => 0.5 * IZR res * (x + 1)) <$> removelast row)
        ++ drop (length row - 1) row) <$> ex) <$> t.

(** [torch.stack([a, b, c], dim=-1)] for three tensors of shape (b) *)
Definition stack3 (a b c : tensor1) : option tensor2 :=
  if decide (length a = length b /\ length b = length c)
  then Some (zip_with (fun x yz => x :: yz) a (zip_with (fun y z => [y; z]) b c))
  else None.

Definition eye3 : tensor2 := [[1; 0; 0]; [0; 1; 0]; [0; 0; 1]].

(** [((torch.exp(-pred_camera[:,0]*10)) ** 2).mean()].  Over the reals the
    term is never 0; in float32 [exp(-10 s) ** 2] underflows to 0 for a
    scale [s] above 5.2. *)
Definition depth_penalty (pred_camera : tensor2) : option loss_tensor :=
  s ← col 0 pred_camera;
  Some (Scalar (tmean ((fun x => exp (- x * 10) ^ 2) <$> s))).

(** The projection of the predicted joints and the predicted camera
    translation, in the two camera modes. *)
Definition project `{Geometry} (opts : Options) (focal : R) (n : nat)
    (pred_joints : tensor3) (pred_camera : tensor2)
    : option (tensor3 * tracked) :=
  if use_wpp opts then
    s ← col 0 pred_camera;
    pred_keypoints_2d ← weakProjection_gpu pred_joints s (cols_from2 1 pred_camera);
    Some (pred_keypoints_2d, Tracked (replicate n [0; 0; 0]) false)
  else
    tx ← col 1 pred_camera;
    ty ← col 2 pred_camera;
    s ← col 0 pred_camera;
    pred_cam_t ← stack3 tx ty
                   ((fun x => 2 * focal / (IZR (img_res opts) * x + 1e-9)) <$> s);
    let camera_center := replicate n [0; 0] in
    Some (perspective_projection pred_joints (replicate n eye3) pred_cam_t
            focal camera_center,
          Tracked pred_cam_t true).

(** [model.train()] and [model.eval()] *)
Definition set_training `{Autograd} (mode : bool) (self : Trainer) : Trainer :=
  {| options := options self; focal_length := focal_length self;
     model := model self; training := mode; grad := grad self;
     optimizer := optimizer self; test_ds := test_ds self;
     submission_path := submission_path self;
     eval_result_path := eval_result_path self |}.

(** The state after [zero_grad], [backward] and [optimizer.step] *)
Definition set_update `{Autograd} (self : Trainer) (w : weights) (g : grads)
    (o : optim_state) : Trainer :=
  {| options := options self; focal_length := focal_length self;
     model := w; training := training self; grad := g;
     optimizer := o; test_ds := test_ds self;
     submission_path := submission_path self;
     eval_result_path := eval_result_path self |}.

(** ** [train_step] *)

(** The values computed by [train_step] before backpropagation, as a
    function of the network weights. *)
Record forward : Type := {
  fw_gt_out : smpl_output;
  fw_gt_cam_t : tracked;
  fw_pred_output : smpl_output;
  fw_pred_camera : tensor2;
  fw_pred_cam_t : tracked;
  fw_loss_regr_pose : loss_tensor;
  fw_loss_regr_betas : loss_tensor;
  fw_loss_keypoints : loss_tensor;
  fw_loss_keypoints_3d : loss_tensor;
  fw_loss_shape : loss_tensor;
  fw_loss : loss_tensor
}.

Definition train_forward `{Geometry} `{Autograd} (self : Trainer) (w : weights)
    (input_batch : batch) : option forward :=
  let opts := options self in
  let images := img input_batch in
  let gt_keypoints_2d := keypoints input_batch in
  let gt_pose := pose input_batch in
  let gt_betas := betas input_batch in
  let gt_joints := pose_3d input_batch in
  let has_smpl := byte (has_smpl input_batch) in
  let has_pose_3d := byte (has_pose_3d input_batch) in
  let batch_size := length images in
  let gt_out :=
    smpl gt_betas (AxisAngle (cols_from2 3 gt_pose) (cols_to2 3 gt_pose)) in
  let gt_model_joints := joints gt_out in
  let gt_vertices := vertices gt_out in
  let gt_keypoints_2d_orig := denormalize (img_res opts) gt_keypoints_2d in
  let gt_cam_t :=
    estimate_translation gt_model_joints gt_keypoints_2d_orig
      (focal_length self) (img_res opts) in
  let '(pred_rotmat, pred_betas, pred_camera) := hmr (training self) w images in
  global_orient ← head_joint pred_rotmat;
  let pred_output :=
    smpl pred_betas (RotMat (tail_joints pred_rotmat) global_orient) in
  let pred_vertices := vertices pred_output in
  let pred_joints := joints pred_output in
  '(pred_keypoints_2d, pred_cam_t) ←
    project opts (focal_length self) batch_size pred_joints pred_camera;
  let gt_cam_t :=
    match gt_cam_t with
    | Some t => Tracked t false
    | None => detach (clone pred_cam_t)
    end in
  let pred_keypoints_2d :=
    map3 (fun x => x / (IZR (img_res opts) / 2)) pred_keypoints_2d in
  let valid_fit := to_bool has_smpl in
  '(loss_regr_pose, loss_regr_betas) ←
    smpl_losses pred_rotmat pred_betas gt_pose gt_betas valid_fit;
  loss_keypoints ←
    keypoint_loss pred_keypoints_2d gt_keypoints_2d
      (openpose_train_weight opts) (gt_train_weight opts);
  loss_keypoints_3d ← keypoint_3d_loss pred_joints gt_joints has_pose_3d;
  loss_shape ← shape_loss pred_vertices gt_vertices valid_fit;
  penalty ← depth_penalty pred_camera;
  let loss :=
    ladd (ladd (ladd (ladd (ladd
      (lscale (shape_loss_weight opts) loss_shape)
      (lscale (keypoint_loss_weight opts) loss_keypoints))
      (lscale (keypoint_loss_weight opts) loss_keypoints_3d))
      (lscale (pose_loss_weight opts) loss_regr_pose))
      (lscale (beta_loss_weight opts) loss_regr_betas))
      penalty in
  let loss := limul loss 60 in
  Some {| fw_gt_out := gt_out; fw_gt_cam_t := gt_cam_t;
          fw_pred_output := pred_output; fw_pred_camera := pred_camera;
          fw_pred_cam_t := pred_cam_t;
          fw_loss_regr_pose := loss_regr_pose;
          fw_loss_regr_betas := loss_regr_betas;
          fw_loss_keypoints := loss_keypoints;
          fw_loss_keypoints_3d := loss_keypoints_3d;
          fw_loss_shape := loss_shape; fw_loss := loss |}.

(** The two dictionaries returned by [train_step] *)
Record step_output : Type := {
  pred_vertices : tensor3;
  opt_vertices : tensor3;
  pred_cam_t : tracked;
  opt_cam_t : tracked
}.

Record step_losses : Type := {
  loss : R;
  loss_keypoints : R;
  loss_keypoints_3d : R;
  loss_regr_pose : R;
  loss_regr_betas : R;
  loss_shape : R
}.

Definition train_step `{Geometry} `{Autograd} (self : Trainer)
    (input_batch : batch) : option (Trainer * step_output * step_losses) :=
  let self := set_training true self in
  fw ← train_forward self (model self) input_batch;
  let g := zero_grad (grad self) in
  let g :=
    backward (fun w => (fun r => item (fw_loss r)) <$> train_forward self w input_batch)
      (model self) g in
  let '(o, w) := optimizer_step (optimizer self) (model self) g in
  Some (set_update self w g o,
        {| pred_vertices := vertices (fw_pred_output fw);
           opt_vertices := vertices (fw_gt_out fw);
           pred_cam_t := detach (fw_pred_cam_t fw);
           opt_cam_t := fw_gt_cam_t fw |},
        {| loss := item (fw_loss fw);
           loss_keypoints := item (fw_loss_keypoints fw);
           loss_keypoints_3d := item (fw_loss_keypoints_3d fw);
           loss_regr_pose := item (fw_loss_regr_pose fw);
           loss_regr_betas := item (fw_loss_regr_betas fw);
           loss_shape := item (fw_loss_shape fw) |}).

(** ** [test_step] *)

Record test_values : Type := {
  tv_gt_out : smpl_output;
  tv_pred_output : smpl_output;
  tv_pred_camera : tensor2;
  tv_loss_regr_pose : loss_tensor;
  tv_loss_regr_betas : loss_tensor;
  tv_loss_keypoints : loss_tensor;
  tv_loss_shape : loss_tensor;
  tv_loss : loss_tensor
}.

Definition test_forward `{Geometry} `{Autograd} (self : Trainer)
    (input_batch : batch) : option test_values :=
  let opts := options self in
  let images := img input_batch in
  let gt_keypoints_2d := keypoints input_batch in
  let gt_pose := pose input_batch in
  let gt_betas := betas input_batch in
  let has_smpl := byte (has_smpl input_batch) in
  let batch_size := length images in
  let gt_out :=
    smpl gt_betas (AxisAngle (cols_from2 3 gt_pose) (cols_to2 3 gt_pose)) in
  let gt_vertices := vertices gt_out in
  let '(pred_rotmat, pred_betas, pred_camera) :=
    hmr (training self) (model self) images in
  global_orient ← head_joint pred_rotmat;
  let pred_output :=
    smpl pred_betas (RotMat (tail_joints pred_rotmat) global_orient) in
  let pred_vertices := vertices pred_output in
  let pred_joints := joints pred_output in
  '(pred_keypoints_2d, _) ←
    project opts (focal_length self) batch_size pred_joints pred_camera;
  let pred_keypoints_2d :=
    map3 (fun x => x / (IZR (img_res opts) / 2)) pred_keypoints_2d in
  let valid_fit := has_smpl in
  '(loss_regr_pose, loss_regr_betas) ←
    smpl_losses pred_rotmat pred_betas gt_pose gt_betas valid_fit;
  loss_keypoints ←
    keypoint_loss pred_keypoints_2d gt_keypoints_2d
      (openpose_train_weight opts) (gt_train_weight opts);
  loss_shape ← shape_loss pred_vertices gt_vertices valid_fit;
  penalty ← depth_penalty pred_camera;
  let loss :=
    ladd (ladd (ladd (ladd
      (lscale (shape_loss_weight opts) loss_shape)
      (lscale (keypoint_loss_weight opts) loss_keypoints))
      (lscale (pose_loss_weight opts) loss_regr_pose))
      (lscale (beta_loss_weight opts) loss_regr_betas))
      penalty in
  let loss := limul loss 60 in
  Some {| tv_gt_out := gt_out; tv_pred_output := pred_output;
          tv_pred_camera := pred_camera;
          tv_loss_regr_pose := loss_regr_pose;
          tv_loss_regr_betas := loss_regr_betas;
          tv_loss_keypoints := loss_keypoints;
          tv_loss_shape := loss_shape; tv_loss := loss |}.

Record test_losses : Type := {
  loss_test : R;
  loss_keypoints_test : R;
  loss_regr_pose_test : R;
  loss_regr_betas_test : R;
  loss_shape_test : R
}.

Definition test_step `{Geometry} `{Autograd} (self : Trainer)
    (input_batch : batch) : option (Trainer * test_losses) :=
  let self := set_training false self in
  tv ← test_forward self input_batch;
  Some (self,
        {| loss_test := item (tv_loss tv);
           loss_keypoints_test := item (tv_loss_keypoints tv);
           loss_regr_pose_test := item (tv_loss_regr_pose tv);
           loss_regr_betas_test := item (tv_loss_regr_betas tv);
           loss_shape_test := item (tv_loss_shape tv) |}).

(** ** [eval] *)

(** The values stored in a prediction: a string, or a nested list of
    numbers as produced by [.tolist()]. *)
Inductive json_value : Type :=
  | JString (s : string)
  | JNumbers (l : tensor2).

(** [pred_dict]: recording name, then frame name, then field name. *)
Abbreviation predictions := (gmap string (gmap string (gmap string json_value))).

(** A file is the sequence of the pieces written to it: literal text, the
    [str] of a float, or the [json.dumps] of a dictionary. *)
Inductive piece : Type :=
  | Text (s : string)
  | FloatStr (x : R)
  | JsonDump (d : predictions).

Abbreviation filesystem := (gmap string (list piece)).

Definition nl : string := String (ascii_of_nat 10) EmptyString.

(** [s.split(sep)] for a one-character separator *)
Fixpoint split (sep : ascii) (s : string) : list string :=
  match s with
  | EmptyString => [EmptyString]
  | String c s' =>
      if Ascii.eqb c sep then EmptyString :: split sep s'
      else match split sep s' with
           | h :: t => String c h :: t
           | [] => [String c EmptyString]
           end
  end.

(** [l[-k]] for [k >= 1] *)
Definition neg_index {A} (k : nat) (l : list A) : option A :=
  if decide (k <= length l)%nat then l !! (length l - k)%nat else None.

(** [t[:, :n]] on a tensor of rank 3 *)
Definition joints_to (n : nat) (t : tensor3) : tensor3 := take n <$> t.

(** [torch.sqrt(((pred - gt)**2).sum(dim=-1)).mean(dim=-1)] *)
Definition mean_distance (d : tensor2) : R :=
  tmean ((fun row : list R => sqrt (tsum ((fun x => x ^ 2) <$> row))) <$> d).
Definition mean_distances (d : tensor3) : tensor1 := mean_distance <$> d.
Definition per_example_error (pred gt : tensor3) : option tensor1 :=
  d ← ew3 Rminus pred gt;
  Some (mean_distances d).

(** [arr[lo:hi] = vals] on a numpy array: the slice is clipped to the array,
    and [vals] must have its length or length 1. *)
Definition slice_assign (lo hi : nat) (vals arr : tensor1) : option tensor1 :=
  let lo' := (lo `min` length arr)%nat in
  let hi' := (hi `min` length arr)%nat in
  let m := (hi' - lo')%nat in
  if decide (length vals = m) then
    Some (take lo' arr ++ vals ++ drop (lo' + m) arr)
  else match vals with
       | [v] => Some (take lo' arr ++ replicate m v ++ drop (lo' + m) arr)
       | _ => None
       end.

(** [t.view(-1, 3, 3)] and [t.view(-1, 72)] *)
Definition view_m1_3_3 (t : tensor4) : option tensor3 :=
  let flat := flat4 t in
  if decide (length flat `mod` 9 = 0)%nat
  then let n := (length flat `div` 9)%nat in
       Some (rows_of n 3 (rows_of (n * 3) 3 flat))
  else None.
Definition view_m1_72 (t : tensor2) : option tensor2 :=
  let flat := flat2 t in
  if decide (length flat `mod` 72 = 0)%nat
  then Some (rows_of (length flat `div` 72) 72 flat)
  else None.

(** [torch.cat((a, b), dim=-1)] *)
Definition cat_last (a b : tensor3) : option tensor3 :=
  if decide (length a = length b) then
    mapM (fun p : list (list R) * list (list R) =>
            if decide (length p.1 = length p.2)
            then Some (zip_with app p.1 p.2) else None) (zip a b)
  else None.

Definition rot_pad : tensor2 := [[0]; [0]; [1]].

(** The dictionary stored for one frame *)
Definition frame_entry (pose_i betas_i : tensor1) : gmap string json_value :=
  <["gender" := JString "neutral"]>
    (<["body_pose" := JNumbers [drop 3 pose_i]]>
       (<["global_orient" := JNumbers [take 3 pose_i]]>
          (<["betas" := JNumbers [betas_i]]> ∅))).

(** [path.split('/')[-4]] and [path.split('/')[-1]] *)
Definition path_names (path : string) : option (string * string) :=
  recording_name ← neg_index 4 (split "/" path);
  frame_name ← neg_index 1 (split "/" path);
  Some (recording_name, frame_name).

(** The body of the loop [for i in range(curr_batch_size)] *)
Definition save_prediction (img_path : list string) (pred_pose pred_betas : tensor2)
    (i : nat) (pred_dict : predictions) : option predictions :=
  path ← img_path !! i;
  '(recording_name, frame_name) ← path_names path;
  pose_i ← pred_pose !! i;
  betas_i ← pred_betas !! i;
  let frames := default ∅ (pred_dict !! recording_name) in
  Some (<[recording_name := <[frame_name := frame_entry pose_i betas_i]> frames]>
          pred_dict).

(** Loops with an exception: the state is threaded from left to right. *)
Fixpoint for_range {St} (body : nat -> St -> option St) (range : list nat)
    (s : St) : option St :=
  match range with
  | [] => Some s
  | i :: range' => s' ← body i s; for_range body range' s'
  end.

Fixpoint for_enumerate {St B} (body : nat -> B -> St -> option St)
    (step : nat) (items : list B) (s : St) : option St :=
  match items with
  | [] => Some s
  | b :: items' => s' ← body step b s; for_enumerate body (S step) items' s'
  end.

(** [DataLoader(ds, batch_size, shuffle=False)]: consecutive examples are
    collated, the last batch may be short. *)
Definition collate `{Models} (l : list sample) : batch :=
  {| img := s_img <$> l; keypoints := s_keypoints <$> l; pose := s_pose <$> l;
     betas := s_betas <$> l; pose_3d := s_pose_3d <$> l;
     has_smpl := s_has_smpl <$> l; has_pose_3d := s_has_pose_3d <$> l;
     imgname := s_imgname <$> l |}.

Definition DataLoader `{Models} (ds : list sample) (batch_size : nat)
    : option (list batch) :=
  if decide (batch_size = 0%nat) then None
  else Some (collate <$>
               rows_of ((length ds + batch_size - 1) `div` batch_size) batch_size ds).

Record eval_state : Type := {
  mpjpe : tensor1;
  pa_mpjpe : tensor1;
  v2v : tensor1;
  pa_v2v : tensor1;
  pred_dict : predictions
}.

(** The loop over the batches, in three parts: the ground truth and the
    predictions of a batch; the four arrays of errors assigned to the
    slices; the predicted poses as axis-angle vectors. *)
Record eval_values : Type := {
  ev_gt_joints : tensor3;
  ev_gt_vertices : tensor3;
  ev_pred_rotmat : tensor4;
  ev_pred_betas : tensor2;
  ev_pred_joints : tensor3;
  ev_pred_vertices : tensor3
}.

Definition eval_forward `{Autograd} (self : Trainer) (b : batch)
    : option eval_values :=
  let gt_pose := pose b in
  let gt_betas := betas b in
  let gt_output :=
    smpl_eval gt_betas (AxisAngle (cols_from2 3 gt_pose) (cols_to2 3 gt_pose)) in
  let gt_joints := joints_to 24 (joints gt_output) in
  let gt_vertices := vertices gt_output in
  let images := img b in
  let '(pred_rotmat, pred_betas, pred_camera) :=
    hmr (training self) (model self) images in
  global_orient ← head_joint pred_rotmat;
  let pred_output :=
    smpl_eval pred_betas (RotMat (tail_joints pred_rotmat) global_orient) in
  let pred_joints := joints_to 24 (joints pred_output) in
  let pred_vertices := vertices pred_output in
  Some {| ev_gt_joints := gt_joints; ev_gt_vertices := gt_vertices;
          ev_pred_rotmat := pred_rotmat; ev_pred_betas := pred_betas;
          ev_pred_joints := pred_joints; ev_pred_vertices := pred_vertices |}.

Definition batch_metrics `{PoseUtils} (v : eval_values)
    : option (tensor1 * tensor1 * tensor1 * tensor1) :=
  e_mpjpe ← per_example_error (ev_pred_joints v) (ev_gt_joints v);
  let e_pa_mpjpe := reconstruction_error (ev_pred_joints v) (ev_gt_joints v) in
  e_v2v ← per_example_error (ev_pred_vertices v) (ev_gt_vertices v);
  let e_pa_v2v := reconstruction_error (ev_pred_vertices v) (ev_gt_vertices v) in
  Some (e_mpjpe, e_pa_mpjpe, e_v2v, e_pa_v2v).

Definition batch_pred_pose `{PoseUtils} (v : eval_values) (curr_batch_size : nat)
    : option tensor2 :=
  mats ← view_m1_3_3 (ev_pred_rotmat v);
  rotmat ← cat_last mats (replicate (curr_batch_size * 24) rot_pad);
  view_m1_72 (rotation_matrix_to_angle_axis rotmat).

(** The body of the loop over the batches.  The four slice assignments are
    grouped after the computation of the errors; an exception anywhere
    aborts the evaluation all the same. *)
Definition eval_batch `{PoseUtils} `{Autograd} (self : Trainer) (step : nat)
    (b : batch) (st : eval_state) : option eval_state :=
  let batch_size := batch_size (options self) in
  let curr_batch_size := length (img b) in
  let lo := (step * batch_size)%nat in
  let hi := (step * batch_size + curr_batch_size)%nat in
  v ← eval_forward self b;
  '(e_mpjpe, e_pa_mpjpe, e_v2v, e_pa_v2v) ← batch_metrics v;
  mpjpe' ← slice_assign lo hi e_mpjpe (mpjpe st);
  pa_mpjpe' ← slice_assign lo hi e_pa_mpjpe (pa_mpjpe st);
  v2v' ← slice_assign lo hi e_v2v (v2v st);
  pa_v2v' ← slice_assign lo hi e_pa_v2v (pa_v2v st);
  pred_pose ← batch_pred_pose v curr_batch_size;
  let img_path := imgname b in
  pred_dict' ← for_range (save_prediction img_path pred_pose (ev_pred_betas v))
                 (seq 0 curr_batch_size) (pred_dict st);
  Some {| mpjpe := mpjpe'; pa_mpjpe := pa_mpjpe'; v2v := v2v';
          pa_v2v := pa_v2v'; pred_dict := pred_dict' |}.

(** The lines appended to the log of results *)
Definition result_log (path : string) (st : eval_state) : list piece :=
  [ Text path; Text nl;
    Text "MPJPE: "; FloatStr (1000 * tmean (mpjpe st)); Text nl;
    Text "PA-MPJPE: "; FloatStr (1000 * tmean (pa_mpjpe st)); Text nl;
    Text "V2V: "; FloatStr (1000 * tmean (v2v st)); Text nl;
    Text "PA-V2V: "; FloatStr (1000 * tmean (pa_v2v st)); Text nl;
    Text nl ].

(** [open(path, 'a+')] followed by writes, and [open(path, 'w+')] followed
    by one write.  Output on the console is not modelled. *)
Definition append_file (path : string) (ps : list piece) (fs : filesystem)
    : filesystem :=
  <[path := default [] (fs !! path) ++ ps]> fs.
Definition write_file (path : string) (ps : list piece) (fs : filesystem)
    : filesystem :=
  <[path := ps]> fs.

Definition eval `{PoseUtils} `{Autograd} (self : Trainer) (fs : filesystem)
    : option (Trainer * filesystem) :=
  let self := set_training false self in
  let batch_size := batch_size (options self) in
  data_loader ← DataLoader (test_ds self) batch_size;
  let n := length (test_ds self) in
  let st := {| mpjpe := replicate n 0; pa_mpjpe := replicate n 0;
               v2v := replicate n 0; pa_v2v := replicate n 0;
               pred_dict := ∅ |} in
  st ← for_enumerate (eval_batch self) 0 data_loader st;
  let fs := append_file (eval_result_path self)
              (result_log (submission_path self) st) fs in
  let pred_json := JsonDump (pred_dict st) in
  let fs := write_file (submission_path self) [pred_json] fs in
  Some (self, fs).

(** ** Vocabulary for the properties of [eval] *)


(** What is saved for an example: its image path, its predicted pose as 72
    axis-angle components, its predicted shape coefficients. *)
Abbreviation saved_item := (string * list R * list R)%type.

Definition item_at (img_path : list string) (pred_pose pred_betas : tensor2)
    (i : nat) : option saved_item :=
  path ← img_path !! i;
  pose_i ← pred_pose !! i;
  betas_i ← pred_betas !! i;
  Some (path, pose_i, betas_i).

Definition batch_items `{PoseUtils} `{Autograd} (self : Trainer) (b : batch)
    : option (list saved_item) :=
  v ← eval_forward self b;
  pred_pose ← batch_pred_pose v (length (img b));
  mapM (item_at (imgname b) pred_pose (ev_pred_betas v)) (seq 0 (length (img b))).


(** Reading back the entry of a frame from the file of predictions *)
Definition saved_entry (fs : filesystem) (path recording_name frame_name : string)
    : option (gmap string json_value) :=
  content ← fs !! path;
  match content with
  | [JsonDump d] => frames ← d !! recording_name; frames !! frame_name
  | _ => None
  end.

(** Every item has an entry under its recording and frame names. *)
Definition every_item_saved (d : predictions) (items : list saved_item) : Prop :=
  forall (path : string) (pose_i betas_i : list R),
    (path, pose_i, betas_i) ∈ items ->
    exists (recording_name frame_name : string)
           (frames : gmap string (gmap string json_value))
           (entry : gmap string json_value),
      path_names path = Some (recording_name, frame_name) /\
      d !! recording_name = Some frames /\
      frames !! frame_name = Some entry.

(** Every entry is the prediction for an item with these names. *)
Definition every_entry_predicted (d : predictions) (items : list saved_item) : Prop :=
  forall (recording_name frame_name : string)
         (frames : gmap string (gmap string json_value))
         (entry : gmap string json_value),
    d !! recording_name = Some frames ->
    frames !! frame_name = Some entry ->
    exists (path : string) (pose_i betas_i : list R),
      (path, pose_i, betas_i) ∈ items /\
      path_names path = Some (recording_name, frame_name) /\
      entry = frame_entry pose_i betas_i.

(** All batches but the last hold [n] examples. *)
Definition full_but_last {B} (size : B -> nat) (n : nat) (items : list B) : Prop :=
  forall (i : nat) (b : B),
    items !! i = Some b -> (S i < length items)%nat -> size b = n.

(** ** Translations of 3D keypoints *)

(** [p + c] on a point, on the points of an example, on a batch *)
Definition translate (c p : list R) : list R := zip_with Rplus p c.
Definition translate2 (c : list R) (t : tensor2) : tensor2 := translate c <$> t.
Definition translate3 (c : list R) (t : tensor3) : tensor3 := translate2 c <$> t.

(** The predicted keypoints of index 25 onward moved by [c] *)
Definition translate_pred (c : list R) (t : tensor3) : tensor3 :=
  (fun ex : list (list R) => take 25 ex ++ translate2 c (drop 25 ex)) <$> t.

(** The coordinates of the ground-truth keypoints moved by [c], the
    confidences kept *)
Definition translate_gt (c : list R) (t : tensor3) : tensor3 :=
  (fun ex : list (list R) =>
     (fun row : list R =>
        translate c (removelast row) ++ drop (length row - 1) row) <$> ex) <$> t.

(** All rows of a tensor of rank 3 have [n] entries. *)
Definition row_length (n : nat) (t : tensor3) : Prop :=
  Forall (Forall (fun p : list R => length p = n)) t.

(** ** Tensors as objects: storages, views and in-place updates *)

(** [keypoint_loss] multiplies a tensor in place.  To tell what the call
    leaves untouched, tensors are here objects: a storage in a store,
    seen through a view.  Basic indexing returns a view of the same
    storage, [clone] allocates a new storage, an in-place operation writes
    through the view into the storage. *)
Module Heap.

Inductive view : Type :=
  | Base
  | LastCol (v : view)              (* [x[:, :, -1].unsqueeze(-1)] *)
  | ButLastCol (v : view)           (* [x[:, :, :-1]] *)
  | JointsTo (n : nat) (v : view)   (* [x[:, :n]] *)
  | JointsFrom (n : nat) (v : view) (* [x[:, n:]] *).

Record tref : Type := { storage : nat; via : view }.

Abbreviation store := (gmap nat tensor3).

(** The entries seen through a view *)
Fixpoint get (v : view) (t : tensor3) : option tensor3 :=
  match v with
  | Base => Some t
  | LastCol v' => get v' t ≫= last_col
  | ButLastCol v' => but_last_col <$> get v' t
  | JointsTo n v' => joints_to n <$> get v' t
  | JointsFrom n v' => joints_from n <$> get v' t
  end.

(** Writing back the entries of a view, the other entries kept *)
Definition put_last_col (c t : tensor3) : tensor3 :=
  zip_with (zip_with (fun (row new : list R) => removelast row ++ new)) t c.
Definition put_but_last_col (c t : tensor3) : tensor3 :=
  zip_with (zip_with (fun (row new : list R) => new ++ drop (length row - 1) row)) t c.
Definition put_joints_to (n : nat) (c t : tensor3) : tensor3 :=
  zip_with (fun (ex new : list (list R)) => new ++ drop n ex) t c.
Definition put_joints_from (n : nat) (c t : tensor3) : tensor3 :=
  zip_with (fun (ex new : list (list R)) => take n ex ++ new) t c.

(** The storage after the entries seen through [v] are replaced by their
    image under [g] *)
Fixpoint over (v : view) (g : tensor3 -> option tensor3) (t : tensor3)
    : option tensor3 :=
  match v with
  | Base => g t
  | LastCol v' =>
      over v' (fun t' => c ← last_col t'; c' ← g c; Some (put_last_col c' t')) t
  | ButLastCol v' =>
      over v' (fun t' => c' ← g (but_last_col t'); Some (put_but_last_col c' t')) t
  | JointsTo n v' =>
      over v' (fun t' => c' ← g (joints_to n t'); Some (put_joints_to n c' t')) t
  | JointsFrom n v' =>
      over v' (fun t' => c' ← g (joints_from n t'); Some (put_joints_from n c' t')) t
  end.

(** Computations on the store that may raise: the store survives an
    exception. *)
Definition heapM (A : Type) : Type := store -> option A * store.

#[global] Instance heapM_ret : MRet heapM := fun A (a : A) σ => (Some a, σ).
#[global] Instance heapM_bind : MBind heapM := fun A B (f : A -> heapM B) m σ =>
  match m σ with
  | (Some a, σ') => f a σ'
  | (None, σ') => (None, σ')
  end.

Definition lift {A} (o : option A) : heapM A := fun σ => (o, σ).

(** Reading a tensor *)
Definition load (x : tref) : heapM tensor3 := fun σ =>
  (t ← σ !! storage x; get (via x) t, σ).

(** [x.clone()] *)
Definition clone (x : tref) : heapM tref := fun σ =>
  match t ← σ !! storage x; get (via x) t with
  | Some v =>
      let l := fresh (dom σ) in
      (Some {| storage := l; via := Base |}, <[l := v]> σ)
  | None => (None, σ)
  end.

(** [x *= w] *)
Definition imul (x : tref) (w : R) : heapM unit := fun σ =>
  match t ← σ !! storage x;
        over (via x) (fun c => Some (map3 (fun a => a * w) c)) t with
  | Some t' => (Some tt, <[storage x := t']> σ)
  | None => (None, σ)
  end.

(** A computation writes to the storage [l0] at most. *)
Definition touches_only {A} (l0 : nat) (m : heapM A) : Prop :=
  forall (σ : store) (l : nat), l <> l0 -> (m σ).2 !! l = σ !! l.

Definition last_col_view (x : tref) : tref :=
  {| storage := storage x; via := LastCol (via x) |}.
Definition but_last_col_view (x : tref) : tref :=
  {| storage := storage x; via := ButLastCol (via x) |}.
Definition joints_to_view (n : nat) (x : tref) : tref :=
  {| storage := storage x; via := JointsTo n (via x) |}.
Definition joints_from_view (n : nat) (x : tref) : tref :=
  {| storage := storage x; via := JointsFrom n (via x) |}.

Definition keypoint_loss (pred_keypoints_2d gt_keypoints_2d : tref)
    (openpose_weight gt_weight : R) : heapM loss_tensor :=
  conf ← clone (last_col_view gt_keypoints_2d);
  _ ← imul (joints_to_view 25 conf) openpose_weight;
  _ ← imul (joints_from_view 25 conf) gt_weight;
  pred ← load pred_keypoints_2d;
  gt ← load (but_last_col_view gt_keypoints_2d);
  err ← lift (criterion_keypoints pred gt);
  c ← load conf;
  weighted ← lift (ew3 Rmult c err);
  mret (Scalar (tmean (flat3 weighted))).

End Heap.

(** ** A small instance of the external code

    The properties below hold for every network, body model and optimizer.
    To run the model on concrete batches, the external code is instantiated
    with stand-ins of the right shapes: a network with one weight that
    predicts identity rotations, zero shape coefficients and the camera
    [(w, 0, 0)]; a body model with 29 joints at the origin and one vertex
    placed at the first two shape coefficients; an orthographic projection;
    a translation estimate that always raises. *)

Definition sample_geometry : Geometry :=
  {| batch_rodrigues := fun aa => (fun _ : list R => eye3) <$> aa;
     perspective_projection := fun points _ _ _ _ => cols_to 2 points;
     estimate_translation := fun _ _ _ _ => None |}.

Definition sample_smpl (betas : tensor2) (_ : smpl_pose) : smpl_output :=
  {| joints := (fun _ : list R => replicate 29 [0; 0; 0]) <$> betas;
     vertices := (fun bs : list R => [take 2 bs ++ [0]]) <$> betas |}.

Definition sample_models : Models :=
  {| image := unit;
     weights := R;
     hmr := fun _ w images =>
       ((fun _ : unit => replicate 24 eye3) <$> images,
        (fun _ : unit => replicate 10 0) <$> images,
        (fun _ : unit => [w; 0; 0]) <$> images);
     smpl := sample_smpl;
     smpl_eval := sample_smpl |}.

Definition sample_autograd : @Autograd sample_models :=
  @Build_Autograd sample_models R nat
    (fun _ : R => 0)
    (fun (f : R -> option R) (w g : R) => g + default 0 (f w))
    (fun (o : nat) (w g : R) => (S o, w - g)).

Definition sample_pose_utils : PoseUtils :=
  {| reconstruction_error := fun pred _ => (fun _ : list (list R) => 0) <$> pred;
     rotation_matrix_to_angle_axis := fun m => (fun _ : list (list R) => [0; 0; 0]) <$> m |}.

(** Sample 3D keypoints: 29 predicted joints, of which the last four are
    compared with four annotated joints. *)
Definition sample_pred_keypoints_3d : tensor3 :=
  [replicate 25 [0; 0; 0] ++ [[1; 0; 0]; [0; 1; 0]; [0; 0; 1]; [1; 1; 1]]].
Definition sample_gt_keypoints_3d : tensor3 :=
  [[[0; 0; 0; 1]; [1; 0; 0; 1]; [0; 2; 0; 1]; [0; 0; 2; 1]]].

(** A trainer over the sample instance, and batches of one example. *)
Definition sample_options : Options :=
  {| img_res := 224; use_wpp := false;
     shape_loss_weight := 0; keypoint_loss_weight := 5;
     pose_loss_weight := 1; beta_loss_weight := 0.001;
     openpose_train_weight := 0; gt_train_weight := 1;
     batch_size := 2 |}.

Definition sample_example (path : string) (pose_3d : tensor2)
    : @sample sample_models :=
  @Build_sample sample_models tt (replicate 29 [0; 0; 1]) (replicate 72 0)
    (replicate 10 0) pose_3d 1 1 path.

Definition sample_dataset : list (@sample sample_models) :=
  [ sample_example "/data/rec_a/cam/color/frame_1.jpg" [[0; 0; 0; 1]];
    sample_example "/data/rec_a/cam/color/frame_2.jpg" [[0; 0; 0; 1]];
    sample_example "/data/rec_b/cam/color/frame_1.jpg" [[0; 0; 0; 1]] ].

Definition sample_trainer : @Trainer sample_models sample_autograd :=
  @Build_Trainer sample_models sample_autograd sample_options 5000 0 false 0 O
    sample_dataset "/out/results.json" "/out/eval.txt".

Definition sample_batch (pose_3d : tensor3) : @batch sample_models :=
  @Build_batch sample_models [tt] [replicate 29 [0; 0; 1]] [replicate 72 0]
    [replicate 10 0] pose_3d [1%Z] [1%Z]
    ["/data/rec_a/cam/color/frame_1.jpg"].

(** Four annotated joints that coincide. *)
Definition sample_gt_keypoints_3d_flat : tensor3 := [replicate 4 [0; 0; 0; 1]].

(** The files after an evaluation of the sample trainer on an empty
    file system *)
Definition sample_eval_fs : filesystem :=
  default ∅ (snd <$> @eval sample_pose_utils sample_models sample_autograd
                       sample_trainer ∅).

(** ** Vocabulary for further properties *)



(** The same geometry code with another translation estimate *)
Definition with_estimate (G : Geometry)
    (est : tensor3 -> tensor3 -> R -> Z -> option tensor2) : Geometry :=
  {| batch_rodrigues := @batch_rodrigues G;
     perspective_projection := @perspective_projection G;
     estimate_translation := est |}.

(** What a training step leaves behind apart from the estimated camera
    translation: the trainer, the losses, the vertices and the predicted
    camera translation. *)
Definition step_summary `{Autograd} (r : Trainer * step_output * step_losses)
    : Trainer * step_losses * tensor3 * tensor3 * tracked :=
  (r.1.1, r.2, pred_vertices r.1.2, opt_vertices r.1.2, pred_cam_t r.1.2).

(** The values of the forward pass apart from the estimated camera
    translation *)
Definition forward_summary (fw : forward)
    : smpl_output * smpl_output * tensor2 * tracked
      * (loss_tensor * loss_tensor * loss_tensor * loss_tensor * loss_tensor
         * loss_tensor) :=
  (fw_gt_out fw, fw_pred_output fw, fw_pred_camera fw, fw_pred_cam_t fw,
   (fw_loss_regr_pose fw, fw_loss_regr_betas fw, fw_loss_keypoints fw,
    fw_loss_keypoints_3d fw, fw_loss_shape fw, fw_loss fw)).

(** The number of occurrences of a character in a string *)
Fixpoint occurrences (c : ascii) (s : string) : nat :=
  match s with
  | EmptyString => 0
  | String c' s' => (if Ascii.eqb c' c then 1 else 0) + occurrences c s'
  end.

(** The entry kept for a pair of names after a sequence of items is saved:
    that of the last item with these names *)
Definition last_prediction (items : list saved_item)
    (recording_name frame_name : string) : option (gmap string json_value) :=
  foldl (fun (acc : option (gmap string json_value)) (it : saved_item) =>
           if decide (path_names it.1.1 = Some (recording_name, frame_name))
           then Some (frame_entry it.1.2 it.2) else acc)
    None items.

(** [pred_dict[recording_name][frame_name]], if present *)
Definition lookup_entry (d : predictions) (recording_name frame_name : string)
    : option (gmap string json_value) :=
  frames ← d !! recording_name; frames !! frame_name.

(** The image path of a saved item *)
Definition item_path (it : saved_item) : string := it.1.1.

(** Two batches agree on the examples selected by a mask. *)
Definition agree_on {A} (mask : list bool) (xs ys : list A) : Prop :=
  length xs = length ys /\
  forall i : nat, mask !! i = Some true -> xs !! i = ys !! i.

(** A store with a predicted and an annotated tensor of 2D keypoints, one
    example of two joints, and references to the two tensors *)
Definition sample_store : Heap.store :=
  {[ 0%nat := [[[1; 1]; [2; 2]]]; 1%nat := [[[1; 0; 1]; [2; 1; 1]]] ]}.

Definition sample_pred_ref : Heap.tref :=
  {| Heap.storage := 0; Heap.via := Heap.Base |}.

Definition sample_gt_ref : Heap.tref :=
  {| Heap.storage := 1; Heap.via := Heap.Base |}.

(** The sample trainer with an empty test set *)
Definition sample_trainer_no_data : @Trainer sample_models sample_autograd :=
  @Build_Trainer sample_models sample_autograd sample_options 5000 0 true 0 O
    [] "/out/results.json" "/out/eval.txt".

(** The weighted squared errors of one keypoint: the confidence is the last
    entry of the annotated row. *)
Definition weighted_sq_err (w : R) (p g : list R) : list R :=
  (fun e => default 0 (last g) * w * e) <$> zip_with sq_err p (removelast g).

(** The weighted squared errors of the keypoints of one example: the first
    25 joints weigh [openpose_weight], the others [gt_weight]. *)
Definition weighted_example (openpose_weight gt_weight : R)
    (pe ge : list (list R)) : list (list R) :=
  zip_with (weighted_sq_err openpose_weight) (take 25 pe) (take 25 ge)
  ++ zip_with (weighted_sq_err gt_weight) (drop 25 pe) (drop 25 ge).

(** The weighted confidences of one example, as [keypoint_loss] builds
    them from the annotated keypoints *)
Definition conf_example (ow gw : R) (ge : list (list R)) : list (list R) :=
  let ce := (fun g : list R => [default 0 (last g)]) <$> ge in
  let ce' := ((fun row : list R => (fun x => x * ow) <$> row) <$> take 25 ce)
             ++ drop 25 ce in
  take 25 ce' ++ ((fun row : list R => (fun x => x * gw) <$> row) <$> drop 25 ce').

(** The camera translation [tx, ty, tz] that corresponds to the
    weak-perspective camera [s, tx, ty] of one example *)
Definition cam_t_of (focal : R) (res : Z) (cam : list R) : list R :=
  [default 0 (cam !! 1%nat); default 0 (cam !! 2%nat);
   2 * focal / (IZR res * default 0 (cam !! 0%nat) + 1e-9)].

(** All entries of a tensor are at most [B] in absolute value. *)
Definition bounded3 (B : R) (t : tensor3) : Prop :=
  Forall (Forall (Forall (fun x : R => Rabs x <= B))) t.


(** ** Rounded arithmetic

    Float32 operations return the rounded exact result.  To state what
    survives rounding, the 3D keypoint loss is also given over the reals
    with a rounding [rnd] applied after every operation; overflow, infinities
    and nan stay outside this reading.  The order of the additions of
    [mean], internal to torch, is here from left to right. *)
Section Rounded.

Variable rnd : R -> R.

Definition radd (a b : R) : R := rnd (a + b).
Definition rsub (a b : R) : R := rnd (a - b).
Definition rmul (a b : R) : R := rnd (a * b).
Definition rdiv (a b : R) : R := rnd (a / b).

(** An entry of [nn.MSELoss(reduction='none')]: [(a - b) ** 2] *)
Definition rsq_err (a b : R) : R := rmul (rsub a b) (rsub a b).

Definition rmean (xs : tensor1) : R :=
  rdiv (foldl radd 0 xs) (INR (length xs)).

Definition pelvis_rnd (t : tensor3) : option tensor2 :=
  j2 ← joint 2 t;
  j3 ← joint 3 t;
  s ← ew2 radd j2 j3;
  Some (map2 (fun x => rdiv x 2) s).

Definition keypoint_3d_loss_rnd (pred_keypoints_3d gt_keypoints_3d : tensor3)
    (has_pose_3d : flag_tensor) : option loss_tensor :=
  let pred_keypoints_3d := joints_from 25 pred_keypoints_3d in
  conf ← last_col gt_keypoints_3d;
  let gt_keypoints_3d := but_last_col gt_keypoints_3d in
  gt_keypoints_3d ← mask_index (eq_one has_pose_3d) gt_keypoints_3d;
  conf ← mask_index (eq_one has_pose_3d) conf;
  pred_keypoints_3d ← mask_index (eq_one has_pose_3d) pred_keypoints_3d;
  if decide (0 < length gt_keypoints_3d)%nat then
    gt_pelvis ← pelvis_rnd gt_keypoints_3d;
    gt_keypoints_3d ← ew3 rsub gt_keypoints_3d (unsqueeze1 gt_pelvis);
    pred_pelvis ← pelvis_rnd pred_keypoints_3d;
    pred_keypoints_3d ← ew3 rsub pred_keypoints_3d (unsqueeze1 pred_pelvis);
    err ← ew3 rsq_err pred_keypoints_3d gt_keypoints_3d;
    weighted ← ew3 rmul conf err;
    Some (Scalar (rmean (flat3 weighted)))
  else Some zero_loss.





End Rounded.

(** A rounding for the sample tensors: down to the next multiple of 1/2 *)
Definition round_half (x : R) : R := IZR (Int_part (2 * x)) / 2.

(** ** The 3D keypoint loss on binary32 numbers

    To run the loss on float32 inputs, it is given a third time, on the
    binary32 numbers of the Standard Library's specification of IEEE 754
    arithmetic (precision 24, maximal exponent 128), rounding to nearest
    with ties to even.  [mean] adds from left to right; the inputs used
    below are added without rounding in any order. *)
Module F32.

Definition prec : Z := 24.
Definition emax : Z := 128.

Abbreviation f32 := spec_float.
Abbreviation tensor1 := (list spec_float).
Abbreviation tensor2 := (list (list spec_float)).
Abbreviation tensor3 := (list (list (list spec_float))).

Definition of_Z (z : Z) : f32 := binary_normalize prec emax z 0 false.
Definition add : f32 -> f32 -> f32 := SFadd prec emax.
Definition sub : f32 -> f32 -> f32 := SFsub prec emax.
Definition mul : f32 -> f32 -> f32 := SFmul prec emax.
Definition div : f32 -> f32 -> f32 := SFdiv prec emax.

Definition ew1 (f : f32 -> f32 -> f32) : tensor1 -> tensor1 -> option tensor1 :=
  bcast2 (fun a b => Some (f a b)).
Definition ew2 (f : f32 -> f32 -> f32) : tensor2 -> tensor2 -> option tensor2 :=
  bcast2 (ew1 f).
Definition ew3 (f : f32 -> f32 -> f32) : tensor3 -> tensor3 -> option tensor3 :=
  bcast2 (ew2 f).

Definition mean (xs : tensor1) : f32 :=
  div (foldl add (of_Z 0) xs) (of_Z (Z.of_nat (length xs))).

Definition flat3 (t : tensor3) : tensor1 := concat (concat t).

Definition last_col (t : tensor3) : option tensor3 :=
  mapM (mapM (fun row : tensor1 => x ← last row; Some [x])) t.
Definition but_last_col (t : tensor3) : tensor3 :=
  (fun ex : tensor2 => (fun row : tensor1 => removelast row) <$> ex) <$> t.
Definition joints_from (n : nat) (t : tensor3) : tensor3 :=
  drop n <$> t.
Definition joint (i : nat) (t : tensor3) : option tensor2 :=
  mapM (fun ex : tensor2 => ex !! i) t.
Definition unsqueeze1 (p : tensor2) : tensor3 :=
  (fun row => [row]) <$> p.

Definition map2 (f : f32 -> f32) (t : tensor2) : tensor2 :=
  (fun row : tensor1 => f <$> row) <$> t.

Definition pelvis (t : tensor3) : option tensor2 :=
  j2 ← joint 2 t;
  j3 ← joint 3 t;
  s ← ew2 add j2 j3;
  Some (map2 (fun x => div x (of_Z 2)) s).

Definition sq_err (a b : f32) : f32 := mul (sub a b) (sub a b).

Definition keypoint_3d_loss (pred_keypoints_3d gt_keypoints_3d : tensor3)
    (has_pose_3d : flag_tensor) : option f32 :=
  let pred_keypoints_3d := joints_from 25 pred_keypoints_3d in
  conf ← last_col gt_keypoints_3d;
  let gt_keypoints_3d := but_last_col gt_keypoints_3d in
  gt_keypoints_3d ← mask_index (eq_one has_pose_3d) gt_keypoints_3d;
  conf ← mask_index (eq_one has_pose_3d) conf;
  pred_keypoints_3d ← mask_index (eq_one has_pose_3d) pred_keypoints_3d;
  if decide (0 < length gt_keypoints_3d)%nat then
    gt_pelvis ← pelvis gt_keypoints_3d;
    gt_keypoints_3d ← ew3 sub gt_keypoints_3d (unsqueeze1 gt_pelvis);
    pred_pelvis ← pelvis pred_keypoints_3d;
    pred_keypoints_3d ← ew3 sub pred_keypoints_3d (unsqueeze1 pred_pelvis);
    err ← ew3 sq_err pred_keypoints_3d gt_keypoints_3d;
    weighted ← ew3 mul conf err;
    Some (mean (flat3 weighted))
  else Some (of_Z 0).

(** [p + c] on the predicted keypoints of index 25 onward *)
Definition translate_pred (c : tensor1) (t : tensor3)
    : tensor3 :=
  (fun ex : tensor2 =>
     take 25 ex ++ ((fun row : tensor1 => zip_with add row c) <$> drop 25 ex)) <$> t.

(** Integer coordinates *)
Definition points (t : list (list (list Z))) : tensor3 :=
  (fun ex : list (list Z) => (fun row : list Z => of_Z <$> row) <$> ex) <$> t.

End F32.

(** Predicted keypoints whose joints 2 and 3 (after the first 25) differ by 1
    in the first coordinate, and annotated keypoints at the origin *)
Definition f32_pred_keypoints_3d : F32.tensor3 :=
  F32.points [replicate 25 [0; 0; 0] ++ [[1; 0; 0]; [1; 0; 0]; [0; 0; 0]; [1; 0; 0]]]%Z.
Definition f32_gt_keypoints_3d : F32.tensor3 :=
  F32.points [replicate 4 [0; 0; 0; 1]]%Z.


(** ** Proof automation *)

(** Equality of two rows of real expressions, entry by entry *)
Ltac rows_lra :=
  try apply (f_equal Some);
  repeat (apply (f_equal2 cons); [lra|]);
  reflexivity.






(** The entries of a sample row are small. *)
Ltac small_entries :=
  repeat (apply Forall_cons_2 || apply Forall_nil_2);
  apply Rabs_le; lra.

(* ################################################################# *)
(** * Part II: properties *)

Example weakProjection_gpu_ex :
  weakProjection_gpu [[[1; 2; 3]; [4; 5; 6]]] [2] [[10; 20]]
  = Some [[[2 * 1 + 10; 2 * 2 + 20]; [2 * 4 + 10; 2 * 5 + 20]]].
Proof. reflexivity. Qed.

(** ** Helper lemmas on the option monad and broadcasting *)

Lemma mapM_map_Some {A B} (f : A -> option B) (g : A -> B) (l : list A) :
  Forall (fun x => f x = Some (g x)) l -> mapM f l = Some (fmap g l).
Proof.
  induction 1 as [|x l Hx _ IH]; [reflexivity|].
  cbn. rewrite Hx. cbn. rewrite IH. reflexivity.
Qed.

Lemma bcast2_singleton_l {A B C} (f : A -> B -> option C) x ys :
  bcast2 f [x] ys = mapM (f x) ys.
Proof. reflexivity. Qed.

Lemma bcast2_singleton_r {A B C} (f : A -> B -> option C) xs y :
  bcast2 f xs [y] = mapM (fun x => f x y) xs.
Proof. destruct xs as [|x [|x' xs]]; reflexivity. Qed.

Lemma bcast2_same_length {A B C} (f : A -> B -> option C) xs ys :
  length xs = length ys ->
  bcast2 f xs ys = mapM (fun p => f p.1 p.2) (zip xs ys).
Proof.
  intros Hlen. unfold bcast2.
  destruct xs as [|x [|x' xs]], ys as [|y [|y' ys]]; try discriminate Hlen;
    try reflexivity.
  rewrite decide_True by exact Hlen. reflexivity.
Qed.

Lemma ew1_same_length (f : R -> R -> R) (xs ys : list R) :
  length xs = length ys ->
  ew1 f xs ys = Some (zip_with f xs ys).
Proof.
  intros Hlen. unfold ew1. rewrite bcast2_same_length by exact Hlen.
  revert ys Hlen. induction xs as [|x xs IH]; intros [|y ys] Hlen;
    try discriminate Hlen; [reflexivity|].
  cbn. injection Hlen as Hlen. specialize (IH ys Hlen). cbn in IH.
  rewrite IH. reflexivity.
Qed.

Lemma ew1_scalar_l (f : R -> R -> R) (s : R) (ys : list R) :
  ew1 f [s] ys = Some (fmap (f s) ys).
Proof.
  unfold ew1. rewrite bcast2_singleton_l. apply mapM_map_Some.
  apply Forall_forall. reflexivity.
Qed.

Lemma bcast2_zip_with {A B C} (f : A -> B -> option C) (g : A -> B -> C)
    (xs : list A) (ys : list B) :
  length xs = length ys ->
  (forall i x y, xs !! i = Some x -> ys !! i = Some y -> f x y = Some (g x y)) ->
  bcast2 f xs ys = Some (zip_with g xs ys).
Proof.
  intros Hlen Hf. rewrite bcast2_same_length by exact Hlen.
  revert ys Hlen Hf. induction xs as [|x xs IH]; intros [|y ys] Hlen Hf;
    try discriminate Hlen; [reflexivity|].
  cbn. rewrite (Hf O x y eq_refl eq_refl). cbn.
  injection Hlen as Hlen.
  specialize (IH ys Hlen (fun i => Hf (S i))). cbn in IH. rewrite IH.
  reflexivity.
Qed.

Lemma bcast2_map_r {A B C} (f : A -> B -> option C) (g : A -> B -> C)
    (xs : list A) (y : B) :
  Forall (fun x => f x y = Some (g x y)) xs ->
  bcast2 f xs [y] = Some (fmap (fun x => g x y) xs).
Proof. intros Hf. rewrite bcast2_singleton_r. by apply mapM_map_Some. Qed.

(** ** Views *)

Lemma rows_of_concat {A} (k : nat) (rows : list (list A)) :
  Forall (fun row => length row = k) rows ->
  rows_of (length rows) k (concat rows) = rows.
Proof.
  induction 1 as [|row rows Hrow _ IH]; [reflexivity|].
  cbn. rewrite take_app_length' by (symmetry; exact Hrow).
  rewrite drop_app_length' by (symmetry; exact Hrow). by rewrite IH.
Qed.

Lemma length_concat_rows {A} (k : nat) (rows : list (list A)) :
  Forall (fun row => length row = k) rows ->
  length (concat rows) = (length rows * k)%nat.
Proof.
  induction 1 as [|row rows Hrow _ IH]; [reflexivity|].
  cbn. rewrite length_app, IH, Hrow. lia.
Qed.

Lemma view_b_m1_3_id (t : tensor3) (b j : nat) :
  t <> [] -> has_shape3 b j 3 t -> view_b_m1_3 t = Some t.
Proof.
  intros Hne [_ Hsh]. unfold view_b_m1_3. rewrite decide_False by exact Hne.
  rewrite <- (map_id t) at 2. apply mapM_map_Some.
  eapply Forall_impl; [exact Hsh|]. intros ex [_ Hrows]. cbv beta zeta.
  rewrite (length_concat_rows 3) by exact Hrows.
  rewrite decide_True by apply Nat.Div0.mod_mul.
  rewrite Nat.div_mul by discriminate.
  by rewrite rows_of_concat.
Qed.

Lemma view_b_1_2_rows (t : tensor2) (b : nat) :
  has_shape2 b 2 t -> view_b_1_2 t = Some (fmap (fun row => [row]) t).
Proof.
  intros [_ Hsh]. apply mapM_map_Some.
  eapply Forall_impl; [exact Hsh|]. intros row Hrow. cbn.
  by rewrite decide_True.
Qed.

(** ** [weakProjection_gpu] *)

Lemma weakProjection_gpu_closed_form (skel3D : tensor3) (scale : tensor1)
    (trans2D : tensor2) (b j : nat) :
  (0 < b)%nat ->
  has_shape3 b j 3 skel3D -> length scale = b -> has_shape2 b 2 trans2D ->
  weakProjection_gpu skel3D scale trans2D
  = Some (zip_with
            (fun (scaled : list (list R)) (t : list R) =>
               (fun row : list R => zip_with Rplus row t) <$> scaled)
            (zip_with
               (fun (s : R) (ex : list (list R)) =>
                  (fun p : list R => Rmult s <$> take 2 p) <$> ex)
               scale skel3D)
            trans2D).
Proof.
  intros Hb Hskel Hscale Htrans. unfold weakProjection_gpu.
  assert (skel3D <> []) as Hne.
  { destruct Hskel as [Hlen _]. intros ->. cbn in Hlen. lia. }
  rewrite (view_b_m1_3_id _ _ _ Hne Hskel). cbn [mbind option_bind].
  rewrite (view_b_1_2_rows _ _ Htrans). cbn [mbind option_bind].
  destruct Hskel as [Hlen Hskel], Htrans as [Hlent Htrans].
  unfold ew3, cols_to.
  rewrite (bcast2_zip_with (ew2 Rmult)
             (fun (s ex : list (list R)) =>
                (fun p : list R => Rmult (hd 0 (hd [] s)) <$> p) <$> ex)
             (view_b_1_1 scale)).
  2: { unfold view_b_1_1. rewrite !length_fmap. congruence. }
  2: { intros i s ex Hs Hex. unfold view_b_1_1 in Hs.
       rewrite list_lookup_fmap in Hs.
       destruct (scale !! i) as [s0|]; [|discriminate].
       injection Hs as <-. cbn [hd].
       unfold ew2. rewrite bcast2_singleton_l. apply mapM_map_Some.
       apply Forall_forall. intros p _. apply ew1_scalar_l. }
  cbn [mbind option_bind].
  rewrite (bcast2_zip_with _
             (fun (scaled t : list (list R)) =>
                (fun row : list R => zip_with Rplus row (hd [] t)) <$> scaled)).
  - f_equal. unfold view_b_1_1.
    rewrite zip_with_fmap_r, zip_with_fmap_l, zip_with_fmap_r.
    cbn [hd]. f_equal.
    apply zip_with_ext; [|reflexivity..]. intros s ex.
    rewrite <- list_fmap_compose. reflexivity.
  - rewrite length_zip_with, !length_fmap. unfold view_b_1_1.
    rewrite length_fmap. lia.
  - intros i scaled t Hsc Ht.
    rewrite list_lookup_fmap in Ht.
    destruct (trans2D !! i) as [t0|] eqn:Ht0; [|discriminate].
    injection Ht as <-. cbn [hd].
    unfold ew2. apply bcast2_map_r.
    apply lookup_zip_with_Some in Hsc as (s & ex & -> & Hs & Hex).
    apply Forall_forall. intros row Hrow.
    apply list_elem_of_fmap in Hrow as (p & -> & Hp).
    apply ew1_same_length.
    rewrite list_lookup_fmap in Hex.
    destruct (skel3D !! i) as [ex0|] eqn:Hex0; [|discriminate].
    injection Hex as <-.
    apply list_elem_of_fmap in Hp as (p0 & -> & Hp0).
    rewrite !length_fmap, length_take.
    pose proof (Forall_lookup_1 _ _ _ _ Hskel Hex0) as [_ Hrows].
    pose proof (proj1 (Forall_forall _ _) Hrows _ Hp0) as Hp3.
    pose proof (Forall_lookup_1 _ _ _ _ Htrans Ht0) as Ht2.
    cbv beta in Hp3, Ht2. lia.
Qed.

(** C10: on a batch of [b] examples with [j] joints, [weakProjection_gpu]
    returns a tensor of shape (b, j, 2) whose entry for example [i] and joint
    [k] is [scale[i]] times the first two coordinates of the joint plus
    [trans2D[i]]. *)
Theorem weakProjection_gpu_spec (skel3D : tensor3) (scale : tensor1)
    (trans2D : tensor2) (b j : nat) :
  (0 < b)%nat ->
  has_shape3 b j 3 skel3D -> length scale = b -> has_shape2 b 2 trans2D ->
  exists out : tensor3,
    weakProjection_gpu skel3D scale trans2D = Some out /\
    has_shape3 b j 2 out /\
    forall (i k : nat) (s x y z tx ty : R) (ex : list (list R)),
      scale !! i = Some s -> trans2D !! i = Some [tx; ty] ->
      skel3D !! i = Some ex -> ex !! k = Some [x; y; z] ->
      exists ex' : list (list R),
        out !! i = Some ex' /\ ex' !! k = Some [s * x + tx; s * y + ty].
Proof.
  intros Hb Hskel Hscale Htrans.
  eexists. split; [by eapply weakProjection_gpu_closed_form|].
  destruct Hskel as [Hlen Hskel], Htrans as [Hlent Htrans]. split.
  - split; [rewrite !length_zip_with; lia|].
    apply Forall_forall. intros ex' Hex'.
    apply list_elem_of_lookup in Hex' as [i Hex'].
    apply lookup_zip_with_Some in Hex' as (scaled & t & -> & Hsc & Ht).
    apply lookup_zip_with_Some in Hsc as (s & ex & -> & Hs & Hex).
    pose proof (Forall_lookup_1 _ _ _ _ Hskel Hex) as [Hj Hrows].
    pose proof (Forall_lookup_1 _ _ _ _ Htrans Ht) as Ht2. cbv beta in Ht2.
    split; [by rewrite !length_fmap|].
    rewrite <- list_fmap_compose. apply Forall_fmap.
    eapply Forall_impl; [exact Hrows|]. intros p Hp. cbv beta in Hp.
    unfold compose.
    rewrite length_zip_with, length_fmap, length_take. lia.
  - intros i k s x y z tx ty ex Hs Ht Hex Hk.
    eexists. split.
    + rewrite !lookup_zip_with, Hs, Hex, Ht. reflexivity.
    + rewrite !list_lookup_fmap, Hk. reflexivity.
Qed.

Lemma weakProjection_gpu_spec_witness :
  exists out : tensor3,
    weakProjection_gpu [[[1; 2; 3]; [4; 5; 6]]] [2] [[10; 20]] = Some out /\
    has_shape3 1 2 2 out /\
    forall (i k : nat) (s x y z tx ty : R) (ex : list (list R)),
      [2] !! i = Some s -> [[10; 20]] !! i = Some [tx; ty] ->
      [[[1; 2; 3]; [4; 5; 6]]] !! i = Some ex -> ex !! k = Some [x; y; z] ->
      exists ex' : list (list R),
        out !! i = Some ex' /\ ex' !! k = Some [s * x + tx; s * y + ty].
Proof.
  apply (weakProjection_gpu_spec [[[1; 2; 3]; [4; 5; 6]]] [2] [[10; 20]] 1 2).
  - lia.
  - repeat (split || constructor).
  - reflexivity.
  - repeat (split || constructor).
Defined.

(** ** Masks and flags *)

Lemma select_none {A} (mask : list bool) (xs : list A) :
  Forall (fun b => b = false) mask -> select mask xs = [].
Proof.
  intros Hmask. revert xs.
  induction Hmask as [|b mask -> _ IH]; intros [|x xs]; cbn; auto.
Qed.

Lemma length_eq_one (f : flag_tensor) :
  length (eq_one f) = length (flag_values f).
Proof. destruct f; cbn; by rewrite length_fmap. Qed.

Lemma eq_one_all_zero (f : flag_tensor) :
  Forall (fun z => z = 0%Z) (flag_values f) ->
  Forall (fun b => b = false) (eq_one f).
Proof.
  destruct f as [l|l]; cbn; intros Hz.
  - apply Forall_fmap. eapply Forall_impl; [exact Hz|]. by intros z ->.
  - apply Forall_fmap in Hz. eapply Forall_impl; [exact Hz|].
    intros [] Hb; [discriminate Hb|reflexivity].
Qed.

Lemma mask_index_none {A} (f : flag_tensor) (xs : list A) :
  Forall (fun z => z = 0%Z) (flag_values f) ->
  length (flag_values f) = length xs ->
  mask_index (eq_one f) xs = Some [].
Proof.
  intros Hz Hlen. unfold mask_index.
  rewrite decide_True by (by rewrite length_eq_one).
  by rewrite select_none by by apply eq_one_all_zero.
Qed.

Lemma last_col_is_Some (t : tensor3) :
  Forall (Forall (fun row => row <> [])) t -> is_Some (last_col t).
Proof.
  intros Hne. unfold last_col. apply mapM_is_Some.
  eapply Forall_impl; [exact Hne|]. intros ex Hex. cbn.
  apply mapM_is_Some. eapply Forall_impl; [exact Hex|]. intros row Hrow. cbn.
  apply last_is_Some in Hrow as [x ->]. by eexists.
Qed.

Lemma length_last_col (t c : tensor3) :
  last_col t = Some c -> length c = length t.
Proof. intros Hc. symmetry. by eapply length_mapM. Qed.

(** ** Shapes of views *)

Lemma length_rows_of {A} (n k : nat) (l : list A) : length (rows_of n k l) = n.
Proof. revert l. induction n as [|n IH]; intros l; cbn; [done|by rewrite IH]. Qed.

Lemma rows_of_shape {A} (n k : nat) (l : list A) :
  length l = (n * k)%nat -> Forall (fun row => length row = k) (rows_of n k l).
Proof.
  revert l. induction n as [|n IH]; intros l Hlen; cbn; constructor.
  - rewrite length_take. lia.
  - apply IH. rewrite length_drop. lia.
Qed.

Lemma length_flat2 (n m : nat) (t : tensor2) :
  has_shape2 n m t -> length (flat2 t) = (n * m)%nat.
Proof. intros [<- Hrows]. by apply length_concat_rows. Qed.

Lemma length_flat3 (b j d : nat) (t : tensor3) :
  has_shape3 b j d t -> length (flat3 t) = (b * j * d)%nat.
Proof.
  intros [<- Hex]. unfold flat3.
  rewrite (length_concat_rows d).
  - f_equal. apply length_concat_rows.
    eapply Forall_impl; [exact Hex|]. by intros ex [? _].
  - apply Forall_concat. eapply Forall_impl; [exact Hex|]. by intros ex [_ ?].
Qed.

Lemma view_m1_3_shape (b : nat) (t : tensor2) :
  has_shape2 b 72 t ->
  exists aa, view_m1_3 t = Some aa /\ has_shape2 (b * 24) 3 aa.
Proof.
  intros Hsh. pose proof (length_flat2 _ _ _ Hsh) as Hlen.
  unfold flat2 in Hlen. unfold view_m1_3. cbv zeta. rewrite Hlen.
  replace (b * 72)%nat with (b * 24 * 3)%nat by lia.
  rewrite decide_True by apply Nat.Div0.mod_mul.
  rewrite Nat.div_mul by discriminate.
  eexists. split; [reflexivity|]. split; [apply length_rows_of|].
  apply rows_of_shape. lia.
Qed.

Lemma view_m1_24_3_3_length (b : nat) (t : tensor3) :
  has_shape3 (b * 24) 3 3 t ->
  exists r, view_m1_24_3_3 t = Some r /\ length r = b.
Proof.
  intros Hsh. pose proof (length_flat3 _ _ _ _ Hsh) as Hlen.
  unfold view_m1_24_3_3. cbv zeta. rewrite Hlen.
  replace (b * 24 * 3 * 3)%nat with (b * 216)%nat by lia.
  rewrite decide_True by apply Nat.Div0.mod_mul.
  rewrite Nat.div_mul by discriminate.
  eexists. split; [reflexivity|]. apply length_rows_of.
Qed.

(** ** Batches without a valid example *)

(** C1: when no example of the batch has its annotation flag set,
    [keypoint_3d_loss], [shape_loss] and [smpl_losses] return the zero
    loss of shape (1) and raise nothing. *)
Theorem no_valid_example_zero_loss `{Geometry} (b : nat)
    (pred_keypoints_3d gt_keypoints_3d pred_vertices gt_vertices : tensor3)
    (pred_rotmat : tensor4) (pred_betas gt_pose gt_betas : tensor2)
    (has_pose_3d has_smpl : flag_tensor) :
  Forall (fun z => z = 0%Z) (flag_values has_pose_3d) ->
  Forall (fun z => z = 0%Z) (flag_values has_smpl) ->
  length (flag_values has_pose_3d) = b ->
  length (flag_values has_smpl) = b ->
  length pred_keypoints_3d = b -> length gt_keypoints_3d = b ->
  Forall (Forall (fun row => row <> [])) gt_keypoints_3d ->
  length pred_vertices = b -> length gt_vertices = b ->
  length pred_rotmat = b -> length pred_betas = b -> length gt_betas = b ->
  has_shape2 b 72 gt_pose ->
  (forall (n : nat) (aa : tensor2),
     has_shape2 n 3 aa -> has_shape3 n 3 3 (batch_rodrigues aa)) ->
  keypoint_3d_loss pred_keypoints_3d gt_keypoints_3d has_pose_3d = Some zero_loss /\
  item zero_loss = 0 /\
  shape_loss pred_vertices gt_vertices has_smpl = Some zero_loss /\
  smpl_losses pred_rotmat pred_betas gt_pose gt_betas has_smpl
  = Some (zero_loss, zero_loss).
Proof.
  intros Hz3 Hzs Hl3 Hls Hpk Hgk Hrows Hpv Hgv Hpr Hpb Hgb Hpose Hrod.
  repeat split.
  - unfold keypoint_3d_loss.
    destruct (last_col_is_Some _ Hrows) as [conf Hconf].
    rewrite Hconf. cbn [mbind option_bind].
    pose proof (length_last_col _ _ Hconf) as Hlc.
    rewrite (mask_index_none has_pose_3d (but_last_col gt_keypoints_3d)) by
      (try done; unfold but_last_col; rewrite length_fmap; congruence).
    cbn [mbind option_bind].
    rewrite (mask_index_none has_pose_3d conf) by (try done; congruence).
    cbn [mbind option_bind].
    rewrite (mask_index_none has_pose_3d (joints_from 25 pred_keypoints_3d)) by
      (try done; unfold joints_from; rewrite length_fmap; congruence).
    reflexivity.
  - unfold shape_loss.
    rewrite (mask_index_none has_smpl pred_vertices) by (try done; congruence).
    cbn [mbind option_bind].
    rewrite (mask_index_none has_smpl gt_vertices) by (try done; congruence).
    reflexivity.
  - unfold smpl_losses.
    rewrite (mask_index_none has_smpl pred_rotmat) by (try done; congruence).
    cbn [mbind option_bind].
    destruct (view_m1_3_shape _ _ Hpose) as (aa & -> & Haa).
    cbn [mbind option_bind].
    destruct (view_m1_24_3_3_length b _ (Hrod _ _ Haa)) as (r & -> & Hr).
    cbn [mbind option_bind].
    rewrite (mask_index_none has_smpl r) by (try done; congruence).
    cbn [mbind option_bind].
    rewrite (mask_index_none has_smpl pred_betas) by (try done; congruence).
    cbn [mbind option_bind].
    rewrite (mask_index_none has_smpl gt_betas) by (try done; congruence).
    reflexivity.
Qed.

Lemma sample_batch_rodrigues_shape (n : nat) (aa : tensor2) :
  has_shape2 n 3 aa ->
  has_shape3 n 3 3 (@batch_rodrigues sample_geometry aa).
Proof.
  intros [Hlen _]. cbn. split; [by rewrite length_fmap|].
  apply Forall_fmap, Forall_forall. intros row _. cbn.
  split; [reflexivity|]. by repeat constructor.
Qed.

Lemma no_valid_example_zero_loss_witness :
  keypoint_3d_loss [replicate 29 [0; 0; 0]] [replicate 4 [0; 0; 0; 1]]
    (ByteTensor [0%Z]) = Some zero_loss /\
  item zero_loss = 0 /\
  shape_loss [[[0; 0; 0]]] [[[1; 1; 1]]] (BoolTensor [false]) = Some zero_loss /\
  @smpl_losses sample_geometry [replicate 24 eye3] [replicate 10 0]
    [replicate 72 0] [replicate 10 1] (BoolTensor [false])
  = Some (zero_loss, zero_loss).
Proof.
  apply (@no_valid_example_zero_loss sample_geometry 1).
  - repeat constructor.
  - repeat constructor.
  - reflexivity.
  - reflexivity.
  - reflexivity.
  - reflexivity.
  - repeat constructor; discriminate.
  - reflexivity.
  - reflexivity.
  - reflexivity.
  - reflexivity.
  - reflexivity.
  - split; [reflexivity|]. repeat constructor.
  - exact sample_batch_rodrigues_shape.
Defined.

(** ** Broadcasting commutes with entrywise changes of the operands *)

Lemma mapM_fmap_commute {A A' C C'} (F : A' -> option C') (F' : A -> option C)
    (h : A -> A') (g : C -> C') (l : list A) :
  (forall x, x ∈ l -> F (h x) = g <$> F' x) ->
  mapM F (h <$> l) = fmap g <$> mapM F' l.
Proof.
  induction l as [|x l IH]; intros HF; [reflexivity|].
  cbn. rewrite (HF x) by left.
  rewrite IH by (intros y Hy; apply HF; by right).
  destruct (F' x); [|reflexivity]. cbn. by destruct (mapM F' l).
Qed.

Lemma bcast2_fmap_commute {A A' B B' C C'} (f : A' -> B' -> option C')
    (f' : A -> B -> option C) (h : A -> A') (k : B -> B') (g : C -> C')
    (xs : list A) (ys : list B) :
  (forall x y, x ∈ xs -> y ∈ ys ->
     f (h x) (k y) = fmap (M:=option) g (f' x y)) ->
  bcast2 f (fmap (M:=list) h xs) (fmap (M:=list) k ys)
  = fmap (M:=option) (fmap (M:=list) g) (bcast2 f' xs ys).
Proof.
  intros Hf.
  assert (forall x, x ∈ xs ->
            mapM (f (h x)) (k <$> ys) = fmap g <$> mapM (f' x) ys) as Hl.
  { intros x Hx. apply mapM_fmap_commute. intros y Hy. by apply Hf. }
  assert (forall y, y ∈ ys ->
            mapM (fun x => f x (k y)) (h <$> xs)
            = fmap g <$> mapM (fun x => f' x y) xs) as Hr.
  { intros y Hy. apply mapM_fmap_commute. intros x Hx. by apply Hf. }
  assert (mapM (fun p => f p.1 p.2) (zip (h <$> xs) (k <$> ys))
          = fmap g <$> mapM (fun p => f' p.1 p.2) (zip xs ys)) as Hz.
  { rewrite zip_with_fmap_l, zip_with_fmap_r.
    rewrite (zip_with_zip (fun x y => (h x, k y))).
    apply mapM_fmap_commute. intros [x y] Hxy. cbn.
    apply Hf; [by eapply elem_of_zip_l|by eapply elem_of_zip_r]. }
  unfold bcast2.
  destruct xs as [|x [|x' xs]].
  - destruct ys as [|y [|y' ys]]; reflexivity.
  - apply (Hl x). by left.
  - destruct ys as [|y [|y' ys]].
    + reflexivity.
    + apply (Hr y). by left.
    + cbn [fmap list_fmap length]. rewrite !length_fmap.
      cbn [fmap list_fmap length] in Hz.
      destruct (decide _); [exact Hz|reflexivity].
Qed.

Lemma mapM_Some_elem {A B} (f : A -> option B) (l : list A) (k : list B) (y : B) :
  mapM f l = Some k -> y ∈ k -> exists x, x ∈ l /\ f x = Some y.
Proof.
  intros Hk Hy. apply mapM_Some_1 in Hk.
  apply list_elem_of_lookup in Hy as [i Hy].
  destruct (Forall2_lookup_r _ _ _ _ _ Hk Hy) as (x & Hx & Hfx).
  exists x. split; [|done]. by eapply list_elem_of_lookup_2.
Qed.

Lemma bcast2_Some_elem {A B C} (f : A -> B -> option C) xs ys zs z :
  bcast2 f xs ys = Some zs -> z ∈ zs ->
  exists x y, x ∈ xs /\ y ∈ ys /\ f x y = Some z.
Proof.
  intros Hzs Hz. unfold bcast2 in Hzs.
  assert (forall x, x ∈ xs -> mapM (f x) ys = Some zs ->
            exists x y, x ∈ xs /\ y ∈ ys /\ f x y = Some z) as Hl.
  { intros x Hx Hm. destruct (mapM_Some_elem _ _ _ _ Hm Hz) as (y & Hy & Hf).
    by exists x, y. }
  assert (forall y, y ∈ ys -> mapM (fun x => f x y) xs = Some zs ->
            exists x y, x ∈ xs /\ y ∈ ys /\ f x y = Some z) as Hr.
  { intros y Hy Hm. destruct (mapM_Some_elem _ _ _ _ Hm Hz) as (x & Hx & Hf).
    by exists x, y. }
  assert (mapM (fun p => f p.1 p.2) (zip xs ys) = Some zs ->
            exists x y, x ∈ xs /\ y ∈ ys /\ f x y = Some z) as Hzip.
  { intros Hm. destruct (mapM_Some_elem _ _ _ _ Hm Hz) as ([x y] & Hxy & Hf).
    exists x, y. split; [by eapply elem_of_zip_l|].
    split; [by eapply elem_of_zip_r|done]. }
  destruct xs as [|x [|x' xs]].
  - destruct ys as [|y [|y' ys]].
    + apply Hzip. destruct (decide _); [done|discriminate].
    + apply (Hr y); [by left|done].
    + destruct (decide _); [by apply Hzip|discriminate].
  - apply (Hl x); [by left|done].
  - destruct ys as [|y [|y' ys]].
    + destruct (decide _); [by apply Hzip|discriminate].
    + apply (Hr y); [by left|done].
    + destruct (decide _); [by apply Hzip|discriminate].
Qed.

Lemma bcast2_fmap_ext {A A' B B' C} (f : A' -> B' -> option C)
    (f' : A -> B -> option C) (h : A -> A') (k : B -> B')
    (xs : list A) (ys : list B) :
  (forall x y, x ∈ xs -> y ∈ ys -> f (h x) (k y) = f' x y) ->
  bcast2 f (fmap (M:=list) h xs) (fmap (M:=list) k ys) = bcast2 f' xs ys.
Proof.
  intros Hf. rewrite (bcast2_fmap_commute f f' h k (fun z : C => z)).
  - destruct (bcast2 f' xs ys); [|reflexivity]. cbn. by rewrite list_fmap_id.
  - intros x y Hx Hy. rewrite (Hf x y Hx Hy). by destruct (f' x y).
Qed.

(** ** Centering on the pelvis absorbs translations *)

Lemma halve_translate (c row : list R) :
  map1 (fun x => x / 2) (translate (zip_with Rplus c c) row)
  = translate c (map1 (fun x => x / 2) row).
Proof.
  unfold map1, translate. revert c.
  induction row as [|x row IH]; intros [|c1 c]; cbn; try reflexivity.
  f_equal; [lra|apply IH].
Qed.

Lemma ew1_plus_translate (c r2 r3 : list R) :
  length c = 3%nat -> length r2 = 3%nat -> length r3 = 3%nat ->
  ew1 Rplus (translate c r2) (translate c r3)
  = translate (zip_with Rplus c c) <$> ew1 Rplus r2 r3.
Proof.
  intros Hc H2 H3.
  destruct c as [|c1 [|c2 [|c3 [|]]]]; try discriminate Hc.
  destruct r2 as [|a1 [|a2 [|a3 [|]]]]; try discriminate H2.
  destruct r3 as [|b1 [|b2 [|b3 [|]]]]; try discriminate H3.
  rewrite !ew1_same_length by reflexivity. cbn. rows_lra.
Qed.

Lemma ew1_minus_translate (c p r : list R) :
  length c = 3%nat -> length p = 3%nat -> length r = 3%nat ->
  ew1 Rminus (translate c p) (translate c r) = ew1 Rminus p r.
Proof.
  intros Hc Hp Hr.
  destruct c as [|c1 [|c2 [|c3 [|]]]]; try discriminate Hc.
  destruct p as [|a1 [|a2 [|a3 [|]]]]; try discriminate Hp.
  destruct r as [|b1 [|b2 [|b3 [|]]]]; try discriminate Hr.
  rewrite !ew1_same_length by reflexivity. cbn. rows_lra.
Qed.

Lemma joint_translate (c : list R) (i : nat) (t : tensor3) :
  joint i (translate3 c t) = translate2 c <$> joint i t.
Proof.
  unfold joint, translate3. apply mapM_fmap_commute.
  intros ex _. unfold translate2. apply list_lookup_fmap.
Qed.

Lemma joint_rows (n i : nat) (t : tensor3) (j : tensor2) :
  row_length n t -> joint i t = Some j -> Forall (fun p => length p = n) j.
Proof.
  intros Hrows Hj. apply Forall_forall. intros p Hp.
  destruct (mapM_Some_elem _ _ _ _ Hj Hp) as (ex & Hex & Hlook).
  pose proof (proj1 (Forall_forall _ _) Hrows _ Hex) as Hexrows.
  apply (proj1 (Forall_forall _ _) Hexrows).
  by eapply list_elem_of_lookup_2.
Qed.

Lemma pelvis_rows (t : tensor3) (pp : tensor2) :
  row_length 3 t -> pelvis t = Some pp -> Forall (fun p => length p = 3%nat) pp.
Proof.
  intros Hrows Hpp. unfold pelvis in Hpp.
  destruct (joint 2 t) as [j2|] eqn:H2; [|discriminate].
  destruct (joint 3 t) as [j3|] eqn:H3; [|discriminate].
  cbn in Hpp. destruct (ew2 Rplus j2 j3) as [s|] eqn:Hs; [|discriminate].
  injection Hpp as <-. unfold map2. apply Forall_fmap, Forall_forall.
  intros row Hrow. cbn. unfold map1. rewrite length_fmap.
  destruct (bcast2_Some_elem _ _ _ _ _ Hs Hrow) as (r2 & r3 & Hr2 & Hr3 & Hsum).
  pose proof (proj1 (Forall_forall _ _) (joint_rows _ _ _ _ Hrows H2) _ Hr2) as L2.
  pose proof (proj1 (Forall_forall _ _) (joint_rows _ _ _ _ Hrows H3) _ Hr3) as L3.
  cbv beta in L2, L3.
  rewrite ew1_same_length in Hsum by congruence. injection Hsum as <-.
  rewrite length_zip_with. lia.
Qed.

Lemma pelvis_translate (c : list R) (t : tensor3) :
  length c = 3%nat -> row_length 3 t ->
  pelvis (translate3 c t) = translate2 c <$> pelvis t.
Proof.
  intros Hc Hrows. unfold pelvis. rewrite !joint_translate.
  destruct (joint 2 t) as [j2|] eqn:H2; [|reflexivity].
  destruct (joint 3 t) as [j3|] eqn:H3; [|reflexivity].
  cbn [fmap option_fmap option_map mbind option_bind].
  unfold ew2, translate2.
  rewrite (bcast2_fmap_commute (ew1 Rplus) (ew1 Rplus) (translate c) (translate c)
             (translate (zip_with Rplus c c))).
  - destruct (bcast2 (ew1 Rplus) j2 j3) as [s|]; [|reflexivity].
    cbn. f_equal. unfold map2. rewrite <- !list_fmap_compose.
    apply list_fmap_ext. intros _ row _. apply halve_translate.
  - intros r2 r3 Hr2 Hr3. apply ew1_plus_translate; [done|..].
    + exact (proj1 (Forall_forall _ _) (joint_rows _ _ _ _ Hrows H2) _ Hr2).
    + exact (proj1 (Forall_forall _ _) (joint_rows _ _ _ _ Hrows H3) _ Hr3).
Qed.

Lemma center_translate (c : list R) (t : tensor3) (pp : tensor2) :
  length c = 3%nat -> row_length 3 t -> Forall (fun p => length p = 3%nat) pp ->
  ew3 Rminus (translate3 c t) (unsqueeze1 (translate2 c pp))
  = ew3 Rminus t (unsqueeze1 pp).
Proof.
  intros Hc Hrows Hpp. unfold ew3, unsqueeze1, translate3.
  replace ((fun row : list R => [row]) <$> translate2 c pp)
    with (translate2 c <$> ((fun row : list R => [row]) <$> pp)).
  2: { unfold translate2 at 2. rewrite <- !list_fmap_compose. reflexivity. }
  apply bcast2_fmap_ext. intros ex u Hex Hu.
  apply list_elem_of_fmap in Hu as (r & -> & Hr).
  unfold ew2, translate2. apply bcast2_fmap_ext. intros p r' Hp Hr'.
  apply list_elem_of_singleton in Hr' as ->.
  apply ew1_minus_translate; [done|..].
  - pose proof (proj1 (Forall_forall _ _) Hrows _ Hex) as Hexrows.
    exact (proj1 (Forall_forall _ _) Hexrows _ Hp).
  - exact (proj1 (Forall_forall _ _) Hpp _ Hr).
Qed.

Lemma select_fmap {A B} (f : A -> B) (mask : list bool) (xs : list A) :
  select mask (f <$> xs) = f <$> select mask xs.
Proof.
  revert xs. induction mask as [|b mask IH]; intros [|x xs]; cbn;
    try reflexivity.
  destruct b; cbn; by rewrite IH.
Qed.

Lemma mask_index_fmap {A B} (f : A -> B) (mask : list bool) (xs : list A) :
  mask_index mask (f <$> xs) = fmap (M:=option) (fmap (M:=list) f) (mask_index mask xs).
Proof.
  unfold mask_index. rewrite length_fmap.
  destruct (decide _); [|reflexivity]. cbn. by rewrite select_fmap.
Qed.

Lemma Forall_select {A} (P : A -> Prop) (mask : list bool) (xs : list A) :
  Forall P xs -> Forall P (select mask xs).
Proof.
  intros HP. revert mask. induction HP as [|x xs Hx _ IH]; intros [|b mask];
    cbn; try constructor.
  destruct b; [constructor|]; auto.
Qed.

Lemma mask_index_rows (n : nat) (mask : list bool) (t t' : tensor3) :
  row_length n t -> mask_index mask t = Some t' -> row_length n t'.
Proof.
  unfold mask_index. intros Hrows Ht'.
  destruct (decide _); [|discriminate]. injection Ht' as <-.
  by apply Forall_select.
Qed.

Lemma joints_from_translate_pred (c : list R) (t : tensor3) :
  joints_from 25 (translate_pred c t) = translate3 c (joints_from 25 t).
Proof.
  unfold joints_from, translate_pred, translate3.
  rewrite <- !list_fmap_compose. apply list_fmap_ext. intros _ ex _. cbn.
  destruct (decide (25 <= length ex)%nat) as [Hle|Hlt].
  - apply drop_app_length'. rewrite length_take. lia.
  - rewrite take_ge by lia. rewrite (drop_ge ex) by lia. cbn.
    rewrite app_nil_r. apply drop_ge. lia.
Qed.

Lemma joints_from_rows (n k : nat) (t : tensor3) :
  row_length n t -> row_length n (joints_from k t).
Proof.
  intros Hrows. unfold joints_from. apply Forall_fmap.
  eapply Forall_impl; [exact Hrows|]. intros ex Hex. by apply Forall_drop.
Qed.

Lemma but_last_col_rows (t : tensor3) :
  row_length 4 t -> row_length 3 (but_last_col t).
Proof.
  intros Hrows. unfold but_last_col. apply Forall_fmap.
  eapply Forall_impl; [exact Hrows|]. intros ex Hex. cbn.
  apply Forall_fmap. eapply Forall_impl; [exact Hex|]. intros row Hrow. cbn.
  destruct row as [|x [|y [|z [|w [|]]]]]; try discriminate Hrow. reflexivity.
Qed.

Lemma but_last_col_translate_gt (c : list R) (t : tensor3) :
  length c = 3%nat -> row_length 4 t ->
  but_last_col (translate_gt c t) = translate3 c (but_last_col t).
Proof.
  intros Hc Hrows. unfold but_last_col, translate_gt, translate3, translate2.
  rewrite <- !list_fmap_compose. apply Forall_fmap_ext_1.
  eapply Forall_impl; [exact Hrows|]. intros ex Hex. cbn.
  rewrite <- !list_fmap_compose. apply Forall_fmap_ext_1.
  eapply Forall_impl; [exact Hex|]. intros row Hrow. cbn.
  destruct c as [|c1 [|c2 [|c3 [|]]]]; try discriminate Hc.
  destruct row as [|x [|y [|z [|w [|]]]]]; try discriminate Hrow. reflexivity.
Qed.

Lemma last_col_translate_gt (c : list R) (t : tensor3) :
  length c = 3%nat -> row_length 4 t ->
  last_col (translate_gt c t) = last_col t.
Proof.
  intros Hc Hrows. unfold last_col, translate_gt.
  rewrite (mapM_fmap_commute _
             (mapM (fun row : list R => x ← last row; Some [x])) _
             (fun z => z)).
  - destruct (mapM _ t); [|reflexivity]. cbn. by rewrite list_fmap_id.
  - intros ex Hex.
    pose proof (proj1 (Forall_forall _ _) Hrows _ Hex) as Hexrows.
    rewrite option_fmap_id.
    rewrite (mapM_fmap_commute _ (fun row : list R => x ← last row; Some [x]) _
               (fun z => z)).
    + destruct (mapM _ ex); [|reflexivity]. cbn. by rewrite list_fmap_id.
    + intros row Hrow. rewrite option_fmap_id.
      pose proof (proj1 (Forall_forall _ _) Hexrows _ Hrow) as Hlen.
      cbv beta in Hlen.
      destruct c as [|c1 [|c2 [|c3 [|]]]]; try discriminate Hc.
      destruct row as [|x [|y [|z [|w [|]]]]]; try discriminate Hlen.
      reflexivity.
Qed.

(** Over the reals, where no operation rounds, [keypoint_3d_loss] does not
    change when one 3-vector is added to all predicted keypoints of index 25
    onward, nor when it is added to the coordinates of all ground-truth
    keypoints: both sets are centered on their pelvis before they are
    compared. *)
Lemma keypoint_3d_loss_translation_invariant_reals (c : list R)
    (pred_keypoints_3d gt_keypoints_3d : tensor3) (has_pose_3d : flag_tensor) :
  length c = 3%nat ->
  row_length 3 pred_keypoints_3d -> row_length 4 gt_keypoints_3d ->
  keypoint_3d_loss (translate_pred c pred_keypoints_3d) gt_keypoints_3d has_pose_3d
  = keypoint_3d_loss pred_keypoints_3d gt_keypoints_3d has_pose_3d /\
  keypoint_3d_loss pred_keypoints_3d (translate_gt c gt_keypoints_3d) has_pose_3d
  = keypoint_3d_loss pred_keypoints_3d gt_keypoints_3d has_pose_3d.
Proof.
  intros Hc Hpred Hgt. unfold keypoint_3d_loss. split.
  - rewrite joints_from_translate_pred.
    destruct (last_col gt_keypoints_3d) as [conf|]; [|reflexivity].
    cbn [mbind option_bind].
    destruct (mask_index _ (but_last_col _)) as [G|]; [|reflexivity].
    cbn [mbind option_bind].
    destruct (mask_index _ conf) as [conf'|]; [|reflexivity].
    cbn [mbind option_bind].
    unfold translate3 at 1. rewrite mask_index_fmap.
    destruct (mask_index _ (joints_from _ _)) as [P|] eqn:HP; [|reflexivity].
    cbn [fmap option_fmap option_map mbind option_bind].
    destruct (decide _); [|reflexivity].
    destruct (pelvis G) as [gp|]; [|reflexivity]. cbn [mbind option_bind].
    destruct (ew3 Rminus G _) as [Gc|]; [|reflexivity]. cbn [mbind option_bind].
    assert (row_length 3 P) as HProws.
    { eapply mask_index_rows; [|exact HP]. by apply joints_from_rows. }
    change (translate2 c <$> P) with (translate3 c P).
    rewrite pelvis_translate by done.
    destruct (pelvis P) as [pp|] eqn:Hpp; [|reflexivity].
    cbn [fmap option_fmap option_map mbind option_bind].
    rewrite center_translate; [reflexivity|done..|by eapply pelvis_rows].
  - rewrite last_col_translate_gt, but_last_col_translate_gt by done.
    destruct (last_col gt_keypoints_3d) as [conf|]; [|reflexivity].
    cbn [mbind option_bind].
    unfold translate3 at 1. rewrite mask_index_fmap.
    destruct (mask_index _ (but_last_col _)) as [G|] eqn:HG; [|reflexivity].
    cbn [fmap option_fmap option_map mbind option_bind].
    destruct (mask_index _ conf) as [conf'|]; [|reflexivity].
    cbn [mbind option_bind].
    destruct (mask_index _ (joints_from _ _)) as [P|]; [|reflexivity].
    cbn [mbind option_bind]. rewrite length_fmap.
    destruct (decide _); [|reflexivity].
    assert (row_length 3 G) as HGrows.
    { eapply mask_index_rows; [|exact HG]. by apply but_last_col_rows. }
    change (translate2 c <$> G) with (translate3 c G).
    rewrite pelvis_translate by done.
    destruct (pelvis G) as [gp|] eqn:Hgp; [|reflexivity].
    cbn [fmap option_fmap option_map mbind option_bind].
    rewrite center_translate; [reflexivity|done..|by eapply pelvis_rows].
Qed.

Example keypoint_3d_loss_sample :
  exists v : R,
    keypoint_3d_loss sample_pred_keypoints_3d sample_gt_keypoints_3d
      (ByteTensor [1%Z]) = Some (Scalar v).
Proof. eexists. reflexivity. Qed.

(** ** The 3D keypoint loss under rounding *)



















Example round_half_rounds : round_half (3 / 4) = 1 / 2.
Proof.
  unfold round_half. rewrite <- (Int_part_spec (2 * (3 / 4)) 1) by lra. lra.
Qed.


Lemma foldl_Rplus (a : R) (xs : list R) : foldl Rplus a xs = a + tsum xs.
Proof.
  revert a. induction xs as [|x xs IH]; intros a; cbn; [lra|].
  rewrite IH. unfold tsum. lra.
Qed.

Lemma rmean_id (xs : tensor1) : rmean (fun x => x) xs = tmean xs.
Proof.
  unfold rmean, rdiv, radd, tmean.
  change (fun a b : R => a + b) with Rplus. rewrite foldl_Rplus. f_equal. lra.
Qed.

Lemma rsq_err_id : rsq_err (fun x => x) = sq_err.
Proof.
  apply functional_extensionality. intros a.
  apply functional_extensionality. intros b.
  unfold rsq_err, rmul, rsub, sq_err. lra.
Qed.

(** Without rounding, the rounded loss is [keypoint_3d_loss]. *)
Lemma keypoint_3d_loss_rnd_id (pred_keypoints_3d gt_keypoints_3d : tensor3)
    (has_pose_3d : flag_tensor) :
  keypoint_3d_loss_rnd (fun x => x) pred_keypoints_3d gt_keypoints_3d has_pose_3d
  = keypoint_3d_loss pred_keypoints_3d gt_keypoints_3d has_pose_3d.
Proof.
  unfold keypoint_3d_loss_rnd, keypoint_3d_loss, pelvis_rnd, pelvis,
    criterion_keypoints.
  rewrite rsq_err_id.
  change (rsub (fun x => x)) with Rminus.
  change (radd (fun x => x)) with Rplus.
  change (rmul (fun x => x)) with Rmult.
  change (fun x : R => rdiv (fun x0 => x0) x 2) with (fun x : R => x / 2).
  destruct (last_col gt_keypoints_3d) as [conf|]; [|reflexivity].
  cbn [mbind option_bind].
  destruct (mask_index _ (but_last_col _)) as [g|]; [|reflexivity].
  cbn [mbind option_bind].
  destruct (mask_index _ conf) as [cf|]; [|reflexivity].
  cbn [mbind option_bind].
  destruct (mask_index _ (joints_from _ _)) as [p|]; [|reflexivity].
  cbn [mbind option_bind].
  destruct (decide _); [|reflexivity].
  destruct (joint 2 g ≫= _) as [gp|]; [|reflexivity].
  cbn [mbind option_bind].
  destruct (ew3 Rminus g _) as [gc|]; [|reflexivity].
  cbn [mbind option_bind].
  destruct (joint 2 p ≫= _) as [pp|]; [|reflexivity].
  cbn [mbind option_bind].
  destruct (ew3 Rminus p _) as [pc|]; [|reflexivity].
  cbn [mbind option_bind].
  destruct (ew3 sq_err pc gc) as [err|]; [|reflexivity].
  cbn [mbind option_bind].
  destruct (ew3 Rmult cf err) as [w|]; [|reflexivity].
  cbn [mbind option_bind]. by rewrite rmean_id.
Qed.


(** A translation by a small vector leaves the binary32 loss unchanged on
    the same keypoints. *)
Example keypoint_3d_loss_f32_small_translation :
  F32.keypoint_3d_loss
    (F32.translate_pred (F32.of_Z <$> [1; 2; 3]%Z) f32_pred_keypoints_3d)
    f32_gt_keypoints_3d (ByteTensor [1%Z])
  = F32.keypoint_3d_loss f32_pred_keypoints_3d f32_gt_keypoints_3d
      (ByteTensor [1%Z]).
Proof. vm_compute. reflexivity. Qed.

(** ** In-place updates: what [keypoint_loss] can write to *)

Lemma touches_only_ret {A} (l0 : nat) (a : A) :
  Heap.touches_only l0 (mret a : Heap.heapM A).
Proof. intros σ l _. reflexivity. Qed.

Lemma touches_only_bind {A B} (l0 : nat) (m : Heap.heapM A)
    (f : A -> Heap.heapM B) :
  Heap.touches_only l0 m -> (forall a, Heap.touches_only l0 (f a)) ->
  Heap.touches_only l0 (m ≫= f).
Proof.
  intros Hm Hf σ l Hl. unfold mbind, Heap.heapM_bind.
  specialize (Hm σ l Hl). destruct (m σ) as [[a|] σ1]; cbn in *; [|done].
  by rewrite (Hf a σ1 l Hl).
Qed.

Lemma touches_only_lift {A} (l0 : nat) (o : option A) :
  Heap.touches_only l0 (Heap.lift o).
Proof. intros σ l _. reflexivity. Qed.

Lemma touches_only_load (l0 : nat) (x : Heap.tref) :
  Heap.touches_only l0 (Heap.load x).
Proof. intros σ l _. reflexivity. Qed.

Lemma touches_only_imul (x : Heap.tref) (w : R) :
  Heap.touches_only (Heap.storage x) (Heap.imul x w).
Proof.
  intros σ l Hl. unfold Heap.imul.
  destruct (_ ≫= _) as [t'|]; cbn; [|reflexivity].
  by apply lookup_insert_ne.
Qed.

Lemma clone_run (x : Heap.tref) (σ : Heap.store) :
  Heap.clone x σ = (None, σ) \/
  exists v : tensor3,
    Heap.load x σ = (Some v, σ) /\
    Heap.clone x σ
    = (Some {| Heap.storage := fresh (dom σ); Heap.via := Heap.Base |},
       <[fresh (dom σ) := v]> σ).
Proof.
  unfold Heap.clone, Heap.load.
  destruct (_ ≫= _) as [v|]; [right|left; reflexivity].
  by exists v.
Qed.

(** C8: [keypoint_loss] leaves its argument [gt_keypoints_2d] as it was,
    whether it returns or raises: the storage of the tensor is not written
    to, so the tensor reads the same after the call. *)
Theorem keypoint_loss_leaves_gt_unchanged (σ : Heap.store)
    (pred_keypoints_2d gt_keypoints_2d : Heap.tref)
    (openpose_weight gt_weight : R) :
  let σ' :=
    (Heap.keypoint_loss pred_keypoints_2d gt_keypoints_2d
       openpose_weight gt_weight σ).2 in
  σ' !! Heap.storage gt_keypoints_2d = σ !! Heap.storage gt_keypoints_2d /\
  (Heap.load gt_keypoints_2d σ').1 = (Heap.load gt_keypoints_2d σ).1.
Proof.
  intros σ'.
  assert (σ' !! Heap.storage gt_keypoints_2d
          = σ !! Heap.storage gt_keypoints_2d) as Hsame.
  { subst σ'. unfold Heap.keypoint_loss.
    unfold mbind at 1. unfold Heap.heapM_bind.
    destruct (clone_run (Heap.last_col_view gt_keypoints_2d) σ)
      as [->|(v & Hload & ->)]; [reflexivity|].
    set (conf := {| Heap.storage := fresh (dom σ); Heap.via := Heap.Base |}).
    assert (Heap.storage gt_keypoints_2d <> fresh (dom σ)) as Hne.
    { intros Heq. unfold Heap.load in Hload. cbn in Hload.
      assert (σ !! fresh (dom σ) = None) as Hfresh
        by apply not_elem_of_dom, is_fresh.
      rewrite Heq, Hfresh in Hload. discriminate Hload. }
    match goal with
    | |- (?rest ?s).2 !! _ = _ =>
        assert (Heap.touches_only (fresh (dom σ)) rest) as Hrest
    end.
    { apply touches_only_bind; [apply (touches_only_imul (Heap.joints_to_view 25 conf))|].
      intros _.
      apply touches_only_bind; [apply (touches_only_imul (Heap.joints_from_view 25 conf))|].
      intros _.
      apply touches_only_bind; [apply touches_only_load|]. intros pred.
      apply touches_only_bind; [apply touches_only_load|]. intros gt.
      apply touches_only_bind; [apply touches_only_lift|]. intros err.
      apply touches_only_bind; [apply touches_only_load|]. intros c.
      apply touches_only_bind; [apply touches_only_lift|]. intros weighted.
      apply touches_only_ret. }
    rewrite Hrest by exact Hne. by apply lookup_insert_ne. }
  split; [exact Hsame|].
  unfold Heap.load. cbn. by rewrite Hsame.
Qed.

(** ** The value computed on the store is the value of [keypoint_loss] *)

Lemma put_joints_to_map3 (n : nat) (w : R) (c : tensor3) :
  Heap.put_joints_to n (map3 (fun a => a * w) (joints_to n c)) c
  = imul_joints_to n w c.
Proof.
  unfold Heap.put_joints_to, map3, joints_to, imul_joints_to.
  rewrite !zip_with_fmap_r, zip_with_diag. reflexivity.
Qed.

Lemma put_joints_from_map3 (n : nat) (w : R) (c : tensor3) :
  Heap.put_joints_from n (map3 (fun a => a * w) (joints_from n c)) c
  = imul_joints_from n w c.
Proof.
  unfold Heap.put_joints_from, map3, joints_from, imul_joints_from.
  rewrite !zip_with_fmap_r, zip_with_diag. reflexivity.
Qed.

Lemma load_insert_ne (x : Heap.tref) (l : nat) (t : tensor3) (σ : Heap.store) :
  Heap.storage x <> l ->
  Heap.load x (<[l := t]> σ) = ((Heap.load x σ).1, <[l := t]> σ).
Proof.
  intros Hne. unfold Heap.load. cbn. by rewrite lookup_insert_ne.
Qed.

Lemma load_is_Some_ne_fresh (x : Heap.tref) (σ : Heap.store) (v : tensor3) :
  (Heap.load x σ).1 = Some v -> Heap.storage x <> fresh (dom σ).
Proof.
  unfold Heap.load. cbn. intros Hload Heq.
  assert (σ !! fresh (dom σ) = None) as Hfresh by apply not_elem_of_dom, is_fresh.
  rewrite Heq, Hfresh in Hload. discriminate Hload.
Qed.

Lemma clone_last_col_view (x : Heap.tref) (σ : Heap.store) (t : tensor3) :
  (Heap.load x σ).1 = Some t ->
  Heap.clone (Heap.last_col_view x) σ
  = match last_col t with
    | Some v =>
        (Some {| Heap.storage := fresh (dom σ); Heap.via := Heap.Base |},
         <[fresh (dom σ) := v]> σ)
    | None => (None, σ)
    end.
Proof.
  unfold Heap.load, Heap.clone. cbn. intros Hload.
  destruct (σ !! Heap.storage x) as [t0|]; [|discriminate].
  cbn in Hload |- *. by rewrite Hload.
Qed.

Lemma load_but_last_col_view (x : Heap.tref) (σ : Heap.store) (t : tensor3) :
  (Heap.load x σ).1 = Some t ->
  (Heap.load (Heap.but_last_col_view x) σ).1 = Some (but_last_col t).
Proof.
  unfold Heap.load. cbn. intros Hload.
  destruct (σ !! Heap.storage x) as [t0|]; [|discriminate].
  cbn in Hload |- *. by rewrite Hload.
Qed.

Lemma imul_joints_to_base (l : nat) (w : R) (c : tensor3) (σ : Heap.store) :
  Heap.imul (Heap.joints_to_view 25 {| Heap.storage := l; Heap.via := Heap.Base |})
    w (<[l := c]> σ)
  = (Some tt, <[l := imul_joints_to 25 w c]> σ).
Proof.
  unfold Heap.imul. cbn. rewrite lookup_insert_eq. cbn.
  by rewrite put_joints_to_map3, insert_insert_eq.
Qed.

Lemma imul_joints_from_base (l : nat) (w : R) (c : tensor3) (σ : Heap.store) :
  Heap.imul (Heap.joints_from_view 25 {| Heap.storage := l; Heap.via := Heap.Base |})
    w (<[l := c]> σ)
  = (Some tt, <[l := imul_joints_from 25 w c]> σ).
Proof.
  unfold Heap.imul. cbn. rewrite lookup_insert_eq. cbn.
  by rewrite put_joints_from_map3, insert_insert_eq.
Qed.

Lemma load_base_insert (l : nat) (c : tensor3) (σ : Heap.store) :
  Heap.load {| Heap.storage := l; Heap.via := Heap.Base |} (<[l := c]> σ)
  = (Some c, <[l := c]> σ).
Proof. unfold Heap.load. cbn. by rewrite lookup_insert_eq. Qed.

Lemma heapM_bind_run {A B} (m : Heap.heapM A) (f : A -> Heap.heapM B)
    (σ : Heap.store) :
  (m ≫= f) σ
  = match m σ with
    | (Some a, σ') => f a σ'
    | (None, σ') => (None, σ')
    end.
Proof. reflexivity. Qed.

Lemma heap_keypoint_loss_value (σ : Heap.store)
    (pred_keypoints_2d gt_keypoints_2d : Heap.tref)
    (openpose_weight gt_weight : R) (pred gt : tensor3) :
  (Heap.load pred_keypoints_2d σ).1 = Some pred ->
  (Heap.load gt_keypoints_2d σ).1 = Some gt ->
  (Heap.keypoint_loss pred_keypoints_2d gt_keypoints_2d
     openpose_weight gt_weight σ).1
  = keypoint_loss pred gt openpose_weight gt_weight.
Proof.
  intros Hpred Hgt.
  pose proof (load_is_Some_ne_fresh _ _ _ Hpred) as Hnp.
  pose proof (load_is_Some_ne_fresh _ _ _ Hgt) as Hng.
  pose proof (load_but_last_col_view _ _ _ Hgt) as Hbl.
  unfold Heap.keypoint_loss, keypoint_loss.
  rewrite heapM_bind_run, (clone_last_col_view _ _ _ Hgt).
  destruct (last_col gt) as [conf|]; [|reflexivity].
  cbn [mbind option_bind].
  rewrite heapM_bind_run, imul_joints_to_base.
  rewrite heapM_bind_run, imul_joints_from_base.
  rewrite heapM_bind_run, load_insert_ne, Hpred by exact Hnp.
  rewrite heapM_bind_run, load_insert_ne, Hbl by exact Hng.
  rewrite heapM_bind_run. unfold Heap.lift at 1.
  destruct (criterion_keypoints pred (but_last_col gt)) as [err|]; [|reflexivity].
  cbn [mbind option_bind].
  rewrite heapM_bind_run, load_base_insert.
  rewrite heapM_bind_run. unfold Heap.lift.
  destruct (ew3 Rmult _ err) as [weighted|]; reflexivity.
Qed.

Example train_step_sample :
  exists r, @train_step sample_geometry sample_models sample_autograd
              sample_trainer (sample_batch sample_gt_keypoints_3d) = Some r.
Proof. eexists. reflexivity. Qed.

Example test_step_sample :
  exists r, @test_step sample_geometry sample_models sample_autograd
              sample_trainer (sample_batch sample_gt_keypoints_3d) = Some r.
Proof. eexists. reflexivity. Qed.

Example imul_writes_through_view :
  (Heap.imul (Heap.last_col_view {| Heap.storage := 0; Heap.via := Heap.Base |}) 2
     {[ 0%nat := [[[1; 2; 3]; [4; 5; 6]]] ]}).2 !! 0%nat
  = Some [[[1; 2; 3 * 2]; [4; 5; 6 * 2]]].
Proof. reflexivity. Qed.

Example heap_keypoint_loss_sample :
  exists v : R,
    (Heap.keypoint_loss {| Heap.storage := 0; Heap.via := Heap.Base |}
       {| Heap.storage := 1; Heap.via := Heap.Base |} 0 1
       {[ 0%nat := [[[1; 1]; [2; 2]]]; 1%nat := [[[1; 0; 1]; [2; 1; 1]]] ]}).1
    = Some (Scalar v).
Proof. eexists. reflexivity. Qed.

(** ** Anatomy of a training step *)

Lemma item_lscale (w : R) (l : loss_tensor) : item (lscale w l) = w * item l.
Proof. by destruct l. Qed.

Lemma item_limul (l : loss_tensor) (c : R) : item (limul l c) = item l * c.
Proof. by destruct l. Qed.

Lemma item_ladd (l1 l2 : loss_tensor) : item (ladd l1 l2) = item l1 + item l2.
Proof. by destruct l1, l2. Qed.

Lemma train_forward_inv `{Geometry} `{Autograd} (self : Trainer) (w : weights)
    (input_batch : batch) (fw : forward) :
  train_forward self w input_batch = Some fw ->
  let opts := options self in
  let gt_out :=
    smpl (betas input_batch)
      (AxisAngle (cols_from2 3 (pose input_batch)) (cols_to2 3 (pose input_batch))) in
  let valid_fit := to_bool (byte (has_smpl input_batch)) in
  exists (pred_rotmat : tensor4) (pred_betas : tensor2) (global_orient : tensor4)
         (pred_keypoints_2d : tensor3) (penalty : loss_tensor),
    hmr (training self) w (img input_batch)
    = (pred_rotmat, pred_betas, fw_pred_camera fw) /\
    head_joint pred_rotmat = Some global_orient /\
    fw_pred_output fw
    = smpl pred_betas (RotMat (tail_joints pred_rotmat) global_orient) /\
    project opts (focal_length self) (length (img input_batch))
      (joints (fw_pred_output fw)) (fw_pred_camera fw)
    = Some (pred_keypoints_2d, fw_pred_cam_t fw) /\
    fw_gt_out fw = gt_out /\
    fw_gt_cam_t fw
    = match estimate_translation (joints gt_out)
              (denormalize (img_res opts) (keypoints input_batch))
              (focal_length self) (img_res opts) with
      | Some t => Tracked t false
      | None => detach (clone (fw_pred_cam_t fw))
      end /\
    smpl_losses pred_rotmat pred_betas (pose input_batch) (betas input_batch)
      valid_fit
    = Some (fw_loss_regr_pose fw, fw_loss_regr_betas fw) /\
    keypoint_loss
      (map3 (fun x => x / (IZR (img_res opts) / 2)) pred_keypoints_2d)
      (keypoints input_batch) (openpose_train_weight opts) (gt_train_weight opts)
    = Some (fw_loss_keypoints fw) /\
    keypoint_3d_loss (joints (fw_pred_output fw)) (pose_3d input_batch)
      (byte (has_pose_3d input_batch))
    = Some (fw_loss_keypoints_3d fw) /\
    shape_loss (vertices (fw_pred_output fw)) (vertices gt_out) valid_fit
    = Some (fw_loss_shape fw) /\
    depth_penalty (fw_pred_camera fw) = Some penalty /\
    fw_loss fw
    = limul
        (ladd (ladd (ladd (ladd (ladd
           (lscale (shape_loss_weight opts) (fw_loss_shape fw))
           (lscale (keypoint_loss_weight opts) (fw_loss_keypoints fw)))
           (lscale (keypoint_loss_weight opts) (fw_loss_keypoints_3d fw)))
           (lscale (pose_loss_weight opts) (fw_loss_regr_pose fw)))
           (lscale (beta_loss_weight opts) (fw_loss_regr_betas fw)))
           penalty) 60.
Proof.
  unfold train_forward. intros Hfw. cbv zeta in Hfw |- *.
  destruct (hmr (training self) w (img input_batch))
    as [[pred_rotmat pred_betas] pred_camera].
  destruct (head_joint pred_rotmat) as [global_orient|] eqn:Hgo; [|discriminate].
  cbn [mbind option_bind] in Hfw.
  destruct (project _ _ _ _ _) as [[pred_keypoints_2d pred_cam_t']|] eqn:Hproj;
    [|discriminate].
  cbn [mbind option_bind] in Hfw.
  destruct (smpl_losses _ _ _ _ _) as [[lp lb]|] eqn:Hsmpl; [|discriminate].
  cbn [mbind option_bind] in Hfw.
  destruct (keypoint_loss _ _ _ _) as [lk|] eqn:Hk; [|discriminate].
  cbn [mbind option_bind] in Hfw.
  destruct (keypoint_3d_loss _ _ _) as [lk3|] eqn:Hk3; [|discriminate].
  cbn [mbind option_bind] in Hfw.
  destruct (shape_loss _ _ _) as [ls|] eqn:Hs; [|discriminate].
  cbn [mbind option_bind] in Hfw.
  destruct (depth_penalty _) as [pen|] eqn:Hpen; [|discriminate].
  cbn [mbind option_bind] in Hfw.
  injection Hfw as <-. cbn.
  exists pred_rotmat, pred_betas, global_orient, pred_keypoints_2d, pen.
  repeat split; assumption || reflexivity.
Qed.

Lemma train_step_inv `{Geometry} `{Autograd} (self self' : Trainer)
    (input_batch : batch) (out : step_output) (l : step_losses) :
  train_step self input_batch = Some (self', out, l) ->
  exists fw : forward,
    train_forward (set_training true self) (model self) input_batch = Some fw /\
    (let g :=
       backward
         (fun w => (fun r => item (fw_loss r))
                   <$> train_forward (set_training true self) w input_batch)
         (model self) (zero_grad (grad self)) in
     let ow := optimizer_step (optimizer self) (model self) g in
     self' = set_update (set_training true self) ow.2 g ow.1) /\
    out = {| pred_vertices := vertices (fw_pred_output fw);
             opt_vertices := vertices (fw_gt_out fw);
             pred_cam_t := detach (fw_pred_cam_t fw);
             opt_cam_t := fw_gt_cam_t fw |} /\
    l = {| loss := item (fw_loss fw);
           loss_keypoints := item (fw_loss_keypoints fw);
           loss_keypoints_3d := item (fw_loss_keypoints_3d fw);
           loss_regr_pose := item (fw_loss_regr_pose fw);
           loss_regr_betas := item (fw_loss_regr_betas fw);
           loss_shape := item (fw_loss_shape fw) |}.
Proof.
  unfold train_step. cbv zeta. intros Hstep.
  change (model (set_training true self)) with (model self) in Hstep.
  change (grad (set_training true self)) with (grad self) in Hstep.
  change (optimizer (set_training true self)) with (optimizer self) in Hstep.
  destruct (train_forward _ _ _) as [fw|]; [|discriminate].
  cbn [mbind option_bind] in Hstep.
  destruct (optimizer_step _ _ _) as [o w'] eqn:Hopt.
  injection Hstep as <- <- <-. exists fw. repeat split.
Qed.

Lemma test_forward_inv `{Geometry} `{Autograd} (self : Trainer)
    (input_batch : batch) (tv : test_values) :
  test_forward self input_batch = Some tv ->
  let opts := options self in
  let gt_out :=
    smpl (betas input_batch)
      (AxisAngle (cols_from2 3 (pose input_batch)) (cols_to2 3 (pose input_batch))) in
  let valid_fit := byte (has_smpl input_batch) in
  exists (pred_rotmat : tensor4) (pred_betas : tensor2) (global_orient : tensor4)
         (pred_keypoints_2d : tensor3) (cam_t : tracked) (penalty : loss_tensor),
    hmr (training self) (model self) (img input_batch)
    = (pred_rotmat, pred_betas, tv_pred_camera tv) /\
    head_joint pred_rotmat = Some global_orient /\
    tv_pred_output tv
    = smpl pred_betas (RotMat (tail_joints pred_rotmat) global_orient) /\
    project opts (focal_length self) (length (img input_batch))
      (joints (tv_pred_output tv)) (tv_pred_camera tv)
    = Some (pred_keypoints_2d, cam_t) /\
    tv_gt_out tv = gt_out /\
    smpl_losses pred_rotmat pred_betas (pose input_batch) (betas input_batch)
      valid_fit
    = Some (tv_loss_regr_pose tv, tv_loss_regr_betas tv) /\
    keypoint_loss
      (map3 (fun x => x / (IZR (img_res opts) / 2)) pred_keypoints_2d)
      (keypoints input_batch) (openpose_train_weight opts) (gt_train_weight opts)
    = Some (tv_loss_keypoints tv) /\
    shape_loss (vertices (tv_pred_output tv)) (vertices gt_out) valid_fit
    = Some (tv_loss_shape tv) /\
    depth_penalty (tv_pred_camera tv) = Some penalty /\
    tv_loss tv
    = limul
        (ladd (ladd (ladd (ladd
           (lscale (shape_loss_weight opts) (tv_loss_shape tv))
           (lscale (keypoint_loss_weight opts) (tv_loss_keypoints tv)))
           (lscale (pose_loss_weight opts) (tv_loss_regr_pose tv)))
           (lscale (beta_loss_weight opts) (tv_loss_regr_betas tv)))
           penalty) 60.
Proof.
  unfold test_forward. intros Htv. cbv zeta in Htv |- *.
  destruct (hmr (training self) (model self) (img input_batch))
    as [[pred_rotmat pred_betas] pred_camera].
  destruct (head_joint pred_rotmat) as [global_orient|] eqn:Hgo; [|discriminate].
  cbn [mbind option_bind] in Htv.
  destruct (project _ _ _ _ _) as [[pred_keypoints_2d cam_t]|] eqn:Hproj;
    [|discriminate].
  cbn [mbind option_bind] in Htv.
  destruct (smpl_losses _ _ _ _ _) as [[lp lb]|] eqn:Hsmpl; [|discriminate].
  cbn [mbind option_bind] in Htv.
  destruct (keypoint_loss _ _ _ _) as [lk|] eqn:Hk; [|discriminate].
  cbn [mbind option_bind] in Htv.
  destruct (shape_loss _ _ _) as [ls|] eqn:Hs; [|discriminate].
  cbn [mbind option_bind] in Htv.
  destruct (depth_penalty _) as [pen|] eqn:Hpen; [|discriminate].
  cbn [mbind option_bind] in Htv.
  injection Htv as <-. cbn.
  exists pred_rotmat, pred_betas, global_orient, pred_keypoints_2d, cam_t, pen.
  repeat split; assumption || reflexivity.
Qed.

Lemma test_step_inv `{Geometry} `{Autograd} (self self' : Trainer)
    (input_batch : batch) (tl : test_losses) :
  test_step self input_batch = Some (self', tl) ->
  self' = set_training false self /\
  exists tv : test_values,
    test_forward (set_training false self) input_batch = Some tv /\
    tl = {| loss_test := item (tv_loss tv);
            loss_keypoints_test := item (tv_loss_keypoints tv);
            loss_regr_pose_test := item (tv_loss_regr_pose tv);
            loss_regr_betas_test := item (tv_loss_regr_betas tv);
            loss_shape_test := item (tv_loss_shape tv) |}.
Proof.
  unfold test_step. cbv zeta. intros Hstep.
  destruct (test_forward _ _) as [tv|] eqn:Htv; [|discriminate].
  injection Hstep as <- <-. split; [reflexivity|]. by exists tv.
Qed.

Lemma eval_inv `{PoseUtils} `{Autograd} (self self' : Trainer)
    (fs fs' : filesystem) :
  eval self fs = Some (self', fs') ->
  self' = set_training false self /\
  exists (data_loader : list batch) (st : eval_state),
    DataLoader (test_ds self) (batch_size (options self)) = Some data_loader /\
    for_enumerate (eval_batch (set_training false self)) 0 data_loader
      {| mpjpe := replicate (length (test_ds self)) 0;
         pa_mpjpe := replicate (length (test_ds self)) 0;
         v2v := replicate (length (test_ds self)) 0;
         pa_v2v := replicate (length (test_ds self)) 0;
         pred_dict := ∅ |}
    = Some st /\
    fs' = write_file (submission_path self) [JsonDump (pred_dict st)]
            (append_file (eval_result_path self)
               (result_log (submission_path self) st) fs).
Proof.
  unfold eval. cbv zeta. intros Heval.
  change (test_ds (set_training false self)) with (test_ds self) in Heval.
  change (options (set_training false self)) with (options self) in Heval.
  destruct (DataLoader _ _) as [data_loader|] eqn:Hloader; [|discriminate].
  cbn [mbind option_bind] in Heval.
  destruct (for_enumerate _ _ _ _) as [st|] eqn:Hloop; [|discriminate].
  injection Heval as <- <-. split; [reflexivity|].
  by exists data_loader, st.
Qed.

(** ** Properties of [train_step] *)

(** C2: when [estimate_translation] raises, the ground-truth camera
    translation returned by [train_step] is a detached clone of the
    predicted camera translation. *)
Theorem train_step_translation_fallback `{Geometry} `{Autograd}
    (self self' : Trainer) (input_batch : batch) (out : step_output)
    (l : step_losses) :
  train_step self input_batch = Some (self', out, l) ->
  estimate_translation
    (joints (smpl (betas input_batch)
               (AxisAngle (cols_from2 3 (pose input_batch))
                  (cols_to2 3 (pose input_batch)))))
    (denormalize (img_res (options self)) (keypoints input_batch))
    (focal_length self) (img_res (options self)) = None ->
  exists fw : forward,
    train_forward (set_training true self) (model self) input_batch = Some fw /\
    opt_cam_t out = detach (clone (fw_pred_cam_t fw)) /\
    data (opt_cam_t out) = data (fw_pred_cam_t fw) /\
    requires_grad (opt_cam_t out) = false.
Proof.
  intros Hstep Hraise.
  destruct (train_step_inv _ _ _ _ _ Hstep) as (fw & Hfw & _ & -> & _).
  exists fw. split; [exact Hfw|].
  destruct (train_forward_inv _ _ _ _ Hfw)
    as (? & ? & ? & ? & ? & _ & _ & _ & _ & _ & Hcam & _).
  cbn in Hcam. rewrite Hraise in Hcam. cbn. rewrite Hcam. by repeat split.
Qed.

Lemma train_step_translation_fallback_witness :
  exists (self' : Trainer) (out : step_output) (l : step_losses),
    @train_step sample_geometry sample_models sample_autograd sample_trainer
      (sample_batch sample_gt_keypoints_3d) = Some (self', out, l) /\
    exists fw : forward,
      @train_forward sample_geometry sample_models sample_autograd
        (set_training true sample_trainer) (model sample_trainer)
        (sample_batch sample_gt_keypoints_3d) = Some fw /\
      opt_cam_t out = detach (clone (fw_pred_cam_t fw)) /\
      data (opt_cam_t out) = data (fw_pred_cam_t fw) /\
      requires_grad (opt_cam_t out) = false.
Proof.
  do 3 eexists. split; [reflexivity|].
  eapply (@train_step_translation_fallback sample_geometry sample_models
            sample_autograd sample_trainer);
    reflexivity.
Defined.

(** C3 (as amended): the total loss of [train_step] is one number, 60 times
    the sum of the shape, 2D keypoint, 3D keypoint, pose and betas losses,
    each times its weight from the options (the 3D keypoint loss shares the
    weight of the 2D one), plus the mean over the batch of
    [exp(-10 s) ^ 2] for the predicted camera scale [s]. *)
Theorem train_step_total_loss `{Geometry} `{Autograd}
    (self self' : Trainer) (input_batch : batch) (out : step_output)
    (l : step_losses) :
  train_step self input_batch = Some (self', out, l) ->
  let opts := options self in
  exists scales : tensor1,
    col 0 (hmr true (model self) (img input_batch)).2 = Some scales /\
    loss l
    = (shape_loss_weight opts * loss_shape l
       + keypoint_loss_weight opts * loss_keypoints l
       + keypoint_loss_weight opts * loss_keypoints_3d l
       + pose_loss_weight opts * loss_regr_pose l
       + beta_loss_weight opts * loss_regr_betas l
       + tmean ((fun s => exp (- s * 10) ^ 2) <$> scales)) * 60.
Proof.
  intros Hstep opts.
  destruct (train_step_inv _ _ _ _ _ Hstep) as (fw & Hfw & _ & _ & ->).
  destruct (train_forward_inv _ _ _ _ Hfw)
    as (rot & bet & go & kp & pen & Hhmr & _ & _ & _ & _ & _ & _ & _ & _ & _
        & Hpen & Hloss).
  cbn in Hhmr. rewrite Hhmr. cbn [snd].
  unfold depth_penalty in Hpen.
  destruct (col 0 (fw_pred_camera fw)) as [scales|]; [|discriminate].
  injection Hpen as <-. exists scales. split; [reflexivity|].
  cbn [loss loss_shape loss_keypoints loss_keypoints_3d loss_regr_pose
       loss_regr_betas].
  rewrite Hloss, item_limul, !item_ladd, !item_lscale. reflexivity.
Qed.

Lemma train_step_total_loss_witness :
  exists (self' : Trainer) (out : step_output) (l : step_losses),
    @train_step sample_geometry sample_models sample_autograd sample_trainer
      (sample_batch sample_gt_keypoints_3d) = Some (self', out, l) /\
    exists scales : tensor1,
      col 0 (@hmr sample_models true (model sample_trainer)
               (img (sample_batch sample_gt_keypoints_3d))).2 = Some scales /\
      loss l
      = (shape_loss_weight sample_options * loss_shape l
         + keypoint_loss_weight sample_options * loss_keypoints l
         + keypoint_loss_weight sample_options * loss_keypoints_3d l
         + pose_loss_weight sample_options * loss_regr_pose l
         + beta_loss_weight sample_options * loss_regr_betas l
         + tmean ((fun s => exp (- s * 10) ^ 2) <$> scales)) * 60.
Proof.
  do 3 eexists. split; [reflexivity|].
  eapply (@train_step_total_loss sample_geometry sample_models
            sample_autograd sample_trainer).
  reflexivity.
Defined.

(** C3 (as stated) fails: on the sample batch the total loss differs from
    the weighted sum of the five losses. *)
Lemma train_step_loss_not_weighted_sum :
  exists (self' : Trainer) (out : step_output) (l : step_losses),
    @train_step sample_geometry sample_models sample_autograd sample_trainer
      (sample_batch sample_gt_keypoints_3d) = Some (self', out, l) /\
    loss l <>
      shape_loss_weight sample_options * loss_shape l
      + keypoint_loss_weight sample_options * loss_keypoints l
      + keypoint_loss_weight sample_options * loss_keypoints_3d l
      + pose_loss_weight sample_options * loss_regr_pose l
      + beta_loss_weight sample_options * loss_regr_betas l.
Proof.
  do 3 eexists. split; [reflexivity|].
  cbn -[exp pow INR Rdiv].
  replace (- 0 * 10) with 0 by lra. rewrite exp_0.
  unfold tmean, tsum, sq_err, abs_err. cbn [foldr length INR].
  rewrite Rminus_diag, Rabs_R0. lra.
Qed.

(** C7: a [train_step] that returns has zeroed the gradients, backpropagated
    the total loss it reports and applied one optimizer step to the weights;
    a [test_step] that returns and an [eval] that returns leave weights,
    gradients and optimizer state as they were.  The three statements are
    independent of each other. *)
Theorem one_update_per_train_step `{Geometry} `{PoseUtils} `{Autograd}
    (self : Trainer) :
  (forall (input_batch : batch) (self' : Trainer) (out : step_output)
          (l : step_losses),
     train_step self input_batch = Some (self', out, l) ->
     let total_loss := fun w : weights =>
       (fun r => item (fw_loss r))
       <$> train_forward (set_training true self) w input_batch in
     let g := backward total_loss (model self) (zero_grad (grad self)) in
     total_loss (model self) = Some (loss l) /\
     grad self' = g /\
     (optimizer self', model self')
     = optimizer_step (optimizer self) (model self) g) /\
  (forall (input_batch : batch) (self' : Trainer) (tl : test_losses),
     test_step self input_batch = Some (self', tl) ->
     model self' = model self /\ grad self' = grad self /\
     optimizer self' = optimizer self) /\
  (forall (fs fs' : filesystem) (self' : Trainer),
     eval self fs = Some (self', fs') ->
     model self' = model self /\ grad self' = grad self /\
     optimizer self' = optimizer self).
Proof.
  split; [|split].
  - intros input_batch self' out l Htrain total_loss g.
    destruct (train_step_inv _ _ _ _ _ Htrain) as (fw & Hfw & -> & _ & ->).
    repeat split.
    + unfold total_loss. rewrite Hfw. reflexivity.
    + cbn. fold total_loss. fold g. by destruct (optimizer_step _ _ g).
  - intros input_batch self' tl Htest.
    by destruct (test_step_inv _ _ _ _ Htest) as [-> _].
  - intros fs fs' self' Heval.
    by destruct (eval_inv _ _ _ _ Heval) as [-> _].
Qed.

Lemma one_update_per_train_step_witness :
  (exists (self' : Trainer) (out : step_output) (l : step_losses),
     @train_step sample_geometry sample_models sample_autograd sample_trainer
       (sample_batch sample_gt_keypoints_3d) = Some (self', out, l) /\
     let total_loss := fun w : R =>
       (fun r => item (fw_loss r))
       <$> @train_forward sample_geometry sample_models sample_autograd
             (set_training true sample_trainer) w
             (sample_batch sample_gt_keypoints_3d) in
     let g := @backward sample_models sample_autograd total_loss
                (model sample_trainer) (zero_grad (grad sample_trainer)) in
     total_loss (model sample_trainer) = Some (loss l) /\
     grad self' = g /\
     (optimizer self', model self')
     = @optimizer_step sample_models sample_autograd
         (optimizer sample_trainer) (model sample_trainer) g) /\
  (exists (self' : Trainer) (tl : test_losses),
     @test_step sample_geometry sample_models sample_autograd sample_trainer
       (sample_batch sample_gt_keypoints_3d) = Some (self', tl) /\
     model self' = model sample_trainer /\ grad self' = grad sample_trainer /\
     optimizer self' = optimizer sample_trainer) /\
  (exists self' : Trainer,
     @eval sample_pose_utils sample_models sample_autograd sample_trainer ∅
     = Some (self', sample_eval_fs) /\
     model self' = model sample_trainer /\ grad self' = grad sample_trainer /\
     optimizer self' = optimizer sample_trainer).
Proof.
  pose proof (@one_update_per_train_step sample_geometry sample_pose_utils
                sample_models sample_autograd sample_trainer) as Hthm.
  split; [|split].
  - destruct train_step_sample as [[[self' out] l] Hstep].
    exists self', out, l. split; [exact Hstep|].
    exact (proj1 Hthm _ _ _ _ Hstep).
  - destruct test_step_sample as [[self' tl] Hstep].
    exists self', tl. split; [exact Hstep|].
    exact (proj1 (proj2 Hthm) _ _ _ Hstep).
  - exists (set_training false sample_trainer).
    assert (Heval : @eval sample_pose_utils sample_models sample_autograd
                      sample_trainer ∅
                    = Some (set_training false sample_trainer, sample_eval_fs))
      by (vm_compute; reflexivity).
    split; [exact Heval|].
    exact (proj2 (proj2 Hthm) _ _ _ Heval).
Defined.

(** C6 (as stated) fails for the 3D joints: two batches with the same
    ground-truth pose and shape, hence the same body-model joints, get
    different 3D keypoint losses, because the loss reads [pose_3d]. *)
Lemma gt_3d_joints_not_from_smpl :
  exists (sA sB : Trainer) (oA oB : step_output) (lA lB : step_losses),
    @train_step sample_geometry sample_models sample_autograd sample_trainer
      (sample_batch sample_gt_keypoints_3d) = Some (sA, oA, lA) /\
    @train_step sample_geometry sample_models sample_autograd sample_trainer
      (sample_batch sample_gt_keypoints_3d_flat) = Some (sB, oB, lB) /\
    pose (sample_batch sample_gt_keypoints_3d)
    = pose (sample_batch sample_gt_keypoints_3d_flat) /\
    betas (sample_batch sample_gt_keypoints_3d)
    = betas (sample_batch sample_gt_keypoints_3d_flat) /\
    loss_keypoints_3d lA <> loss_keypoints_3d lB.
Proof.
  do 6 eexists.
  split; [reflexivity|]. split; [reflexivity|].
  split; [reflexivity|]. split; [reflexivity|].
  cbn -[INR Rdiv pow].
  unfold tmean, tsum, sq_err. cbn [foldr length INR]. lra.
Qed.

(** C6 (as amended): what [train_step] and [test_step] return is computed
    as follows.  The body model is evaluated on the ground-truth shape and
    on the ground-truth pose split after its first three components, the
    first three being the global orientation.  Its vertices are the target
    of the shape loss, in both functions, and the [opt_vertices] of
    [train_step]; its joints enter only the estimate of the camera
    translation returned as [opt_cam_t].  The 3D keypoint loss of
    [train_step] compares the joints of the predicted body with the
    [pose_3d] annotations of the batch, and [test_step] has no 3D keypoint
    loss: its total is built from the four other losses. *)
Theorem gt_vertices_from_smpl `{Geometry} `{Autograd}
    (self : Trainer) (input_batch : batch) :
  let opts := options self in
  let gt_pose := pose input_batch in
  let gt_out :=
    smpl (betas input_batch)
      (AxisAngle ((fun p : list R => drop 3 p) <$> gt_pose)
                 ((fun p : list R => take 3 p) <$> gt_pose)) in
  (forall (self' : Trainer) (out : step_output) (l : step_losses),
     train_step self input_batch = Some (self', out, l) ->
     exists (pred_rotmat global_orient : tensor4) (pred_betas pred_camera : tensor2)
            (pred_keypoints_2d : tensor3) (cam_t : tracked)
            (ls lk l3 lp lb pen : loss_tensor),
       let pred_output :=
         smpl pred_betas (RotMat (tail_joints pred_rotmat) global_orient) in
       hmr true (model self) (img input_batch)
       = (pred_rotmat, pred_betas, pred_camera) /\
       head_joint pred_rotmat = Some global_orient /\
       project opts (focal_length self) (length (img input_batch))
         (joints pred_output) pred_camera
       = Some (pred_keypoints_2d, cam_t) /\
       shape_loss (vertices pred_output) (vertices gt_out)
         (to_bool (byte (has_smpl input_batch))) = Some ls /\
       keypoint_3d_loss (joints pred_output) (pose_3d input_batch)
         (byte (has_pose_3d input_batch)) = Some l3 /\
       keypoint_loss
         (map3 (fun x => x / (IZR (img_res opts) / 2)) pred_keypoints_2d)
         (keypoints input_batch) (openpose_train_weight opts)
         (gt_train_weight opts) = Some lk /\
       smpl_losses pred_rotmat pred_betas gt_pose (betas input_batch)
         (to_bool (byte (has_smpl input_batch))) = Some (lp, lb) /\
       depth_penalty pred_camera = Some pen /\
       out = {| pred_vertices := vertices pred_output;
                opt_vertices := vertices gt_out;
                pred_cam_t := Tracked (data cam_t) false;
                opt_cam_t :=
                  match estimate_translation (joints gt_out)
                          (denormalize (img_res opts) (keypoints input_batch))
                          (focal_length self) (img_res opts) with
                  | Some t => Tracked t false
                  | None => Tracked (data cam_t) false
                  end |} /\
       l = {| loss :=
                (shape_loss_weight opts * item ls
                 + keypoint_loss_weight opts * item lk
                 + keypoint_loss_weight opts * item l3
                 + pose_loss_weight opts * item lp
                 + beta_loss_weight opts * item lb
                 + item pen) * 60;
              loss_keypoints := item lk;
              loss_keypoints_3d := item l3;
              loss_regr_pose := item lp;
              loss_regr_betas := item lb;
              loss_shape := item ls |}) /\
  (forall (self' : Trainer) (tl : test_losses),
     test_step self input_batch = Some (self', tl) ->
     exists (pred_rotmat global_orient : tensor4) (pred_betas pred_camera : tensor2)
            (pred_keypoints_2d : tensor3) (cam_t : tracked)
            (ls lk lp lb pen : loss_tensor),
       let pred_output :=
         smpl pred_betas (RotMat (tail_joints pred_rotmat) global_orient) in
       hmr false (model self) (img input_batch)
       = (pred_rotmat, pred_betas, pred_camera) /\
       head_joint pred_rotmat = Some global_orient /\
       project opts (focal_length self) (length (img input_batch))
         (joints pred_output) pred_camera
       = Some (pred_keypoints_2d, cam_t) /\
       shape_loss (vertices pred_output) (vertices gt_out)
         (byte (has_smpl input_batch)) = Some ls /\
       keypoint_loss
         (map3 (fun x => x / (IZR (img_res opts) / 2)) pred_keypoints_2d)
         (keypoints input_batch) (openpose_train_weight opts)
         (gt_train_weight opts) = Some lk /\
       smpl_losses pred_rotmat pred_betas gt_pose (betas input_batch)
         (byte (has_smpl input_batch)) = Some (lp, lb) /\
       depth_penalty pred_camera = Some pen /\
       tl = {| loss_test :=
                 (shape_loss_weight opts * item ls
                  + keypoint_loss_weight opts * item lk
                  + pose_loss_weight opts * item lp
                  + beta_loss_weight opts * item lb
                  + item pen) * 60;
               loss_keypoints_test := item lk;
               loss_regr_pose_test := item lp;
               loss_regr_betas_test := item lb;
               loss_shape_test := item ls |}).
Proof.
  intros opts gt_pose gt_out. split.
  - intros self' out l Htrain.
    destruct (train_step_inv _ _ _ _ _ Htrain) as (fw & Hfw & _ & -> & ->).
    destruct (train_forward_inv _ _ _ _ Hfw)
      as (rot & bet & go & kp & pen & Hhmr & Hgo & Hpred & Hproj & Hgt & Hcam
          & Hsmpl & Hk & Hk3 & Hs & Hpen & Hloss).
    cbn in Hhmr, Hproj, Hgt, Hcam, Hsmpl, Hk, Hk3, Hs.
    rewrite Hpred in Hproj, Hk3, Hs.
    exists rot, go, bet, (fw_pred_camera fw), kp, (fw_pred_cam_t fw),
      (fw_loss_shape fw), (fw_loss_keypoints fw), (fw_loss_keypoints_3d fw),
      (fw_loss_regr_pose fw), (fw_loss_regr_betas fw), pen.
    cbv zeta. repeat split; try assumption.
    + rewrite Hpred, Hgt, Hcam. reflexivity.
    + rewrite Hloss, item_limul, !item_ladd, !item_lscale. reflexivity.
  - intros self' tl Htest.
    destruct (test_step_inv _ _ _ _ Htest) as (_ & tv & Htv & ->).
    destruct (test_forward_inv _ _ _ Htv)
      as (rot & bet & go & kp & cam_t & pen & Hhmr & Hgo & Hpred & Hproj & Hgt
          & Hsmpl & Hk & Hs & Hpen & Hloss).
    cbn in Hhmr, Hproj, Hgt, Hsmpl, Hk, Hs.
    rewrite Hpred in Hproj, Hs.
    exists rot, go, bet, (tv_pred_camera tv), kp, cam_t,
      (tv_loss_shape tv), (tv_loss_keypoints tv),
      (tv_loss_regr_pose tv), (tv_loss_regr_betas tv), pen.
    cbv zeta. repeat split; try assumption.
    rewrite Hloss, item_limul, !item_ladd, !item_lscale. reflexivity.
Qed.

Lemma gt_vertices_from_smpl_witness :
  let self := sample_trainer in
  let input_batch := sample_batch sample_gt_keypoints_3d in
  let opts := options self in
  let gt_pose := pose input_batch in
  let gt_out :=
    @smpl sample_models (betas input_batch)
      (AxisAngle ((fun p : list R => drop 3 p) <$> gt_pose)
                 ((fun p : list R => take 3 p) <$> gt_pose)) in
  (exists (self' : Trainer) (out : step_output) (l : step_losses),
     @train_step sample_geometry sample_models sample_autograd self input_batch
     = Some (self', out, l) /\
     exists (pred_rotmat global_orient : tensor4) (pred_betas pred_camera : tensor2)
            (pred_keypoints_2d : tensor3) (cam_t : tracked)
            (ls lk l3 lp lb pen : loss_tensor),
       let pred_output :=
         @smpl sample_models pred_betas
           (RotMat (tail_joints pred_rotmat) global_orient) in
       @hmr sample_models true (model self) (img input_batch)
       = (pred_rotmat, pred_betas, pred_camera) /\
       head_joint pred_rotmat = Some global_orient /\
       @project sample_geometry opts (focal_length self)
         (length (img input_batch)) (joints pred_output) pred_camera
       = Some (pred_keypoints_2d, cam_t) /\
       shape_loss (vertices pred_output) (vertices gt_out)
         (to_bool (byte (has_smpl input_batch))) = Some ls /\
       keypoint_3d_loss (joints pred_output) (pose_3d input_batch)
         (byte (has_pose_3d input_batch)) = Some l3 /\
       keypoint_loss
         (map3 (fun x => x / (IZR (img_res opts) / 2)) pred_keypoints_2d)
         (keypoints input_batch) (openpose_train_weight opts)
         (gt_train_weight opts) = Some lk /\
       @smpl_losses sample_geometry pred_rotmat pred_betas gt_pose
         (betas input_batch) (to_bool (byte (has_smpl input_batch)))
       = Some (lp, lb) /\
       depth_penalty pred_camera = Some pen /\
       out = {| pred_vertices := vertices pred_output;
                opt_vertices := vertices gt_out;
                pred_cam_t := Tracked (data cam_t) false;
                opt_cam_t :=
                  match @estimate_translation sample_geometry (joints gt_out)
                          (denormalize (img_res opts) (keypoints input_batch))
                          (focal_length self) (img_res opts) with
                  | Some t => Tracked t false
                  | None => Tracked (data cam_t) false
                  end |} /\
       l = {| loss :=
                (shape_loss_weight opts * item ls
                 + keypoint_loss_weight opts * item lk
                 + keypoint_loss_weight opts * item l3
                 + pose_loss_weight opts * item lp
                 + beta_loss_weight opts * item lb
                 + item pen) * 60;
              loss_keypoints := item lk;
              loss_keypoints_3d := item l3;
              loss_regr_pose := item lp;
              loss_regr_betas := item lb;
              loss_shape := item ls |}) /\
  (exists (self' : Trainer) (tl : test_losses),
     @test_step sample_geometry sample_models sample_autograd self input_batch
     = Some (self', tl) /\
     exists (pred_rotmat global_orient : tensor4) (pred_betas pred_camera : tensor2)
            (pred_keypoints_2d : tensor3) (cam_t : tracked)
            (ls lk lp lb pen : loss_tensor),
       let pred_output :=
         @smpl sample_models pred_betas
           (RotMat (tail_joints pred_rotmat) global_orient) in
       @hmr sample_models false (model self) (img input_batch)
       = (pred_rotmat, pred_betas, pred_camera) /\
       head_joint pred_rotmat = Some global_orient /\
       @project sample_geometry opts (focal_length self)
         (length (img input_batch)) (joints pred_output) pred_camera
       = Some (pred_keypoints_2d, cam_t) /\
       shape_loss (vertices pred_output) (vertices gt_out)
         (byte (has_smpl input_batch)) = Some ls /\
       keypoint_loss
         (map3 (fun x => x / (IZR (img_res opts) / 2)) pred_keypoints_2d)
         (keypoints input_batch) (openpose_train_weight opts)
         (gt_train_weight opts) = Some lk /\
       @smpl_losses sample_geometry pred_rotmat pred_betas gt_pose
         (betas input_batch) (byte (has_smpl input_batch)) = Some (lp, lb) /\
       depth_penalty pred_camera = Some pen /\
       tl = {| loss_test :=
                 (shape_loss_weight opts * item ls
                  + keypoint_loss_weight opts * item lk
                  + pose_loss_weight opts * item lp
                  + beta_loss_weight opts * item lb
                  + item pen) * 60;
               loss_keypoints_test := item lk;
               loss_regr_pose_test := item lp;
               loss_regr_betas_test := item lb;
               loss_shape_test := item ls |}).
Proof.
  intros self input_batch opts gt_pose gt_out.
  pose proof (@gt_vertices_from_smpl sample_geometry sample_models
                sample_autograd self input_batch) as Hthm.
  split.
  - destruct train_step_sample as [[[self' out] l] Hstep].
    exists self', out, l. split; [exact Hstep|].
    exact (proj1 Hthm _ _ _ Hstep).
  - destruct test_step_sample as [[self' tl] Hstep].
    exists self', tl. split; [exact Hstep|].
    exact (proj2 Hthm _ _ Hstep).
Defined.

(** ** The evaluation loop *)



Lemma rows_of_full_but_last {A} (n k : nat) (l : list A) :
  (n = 0 \/ (n - 1) * k < length l)%nat ->
  full_but_last length k (rows_of n k l).
Proof.
  revert l. induction n as [|n IH]; intros l Hn i b Hb Hi; [discriminate Hb|].
  cbn in Hb, Hi. rewrite length_rows_of in Hi.
  destruct Hn as [Hn|Hn]; [discriminate Hn|].
  destruct i as [|i].
  - injection Hb as <-. rewrite length_take. nia.
  - apply (IH (drop k l)) with (i := i); [|exact Hb|by rewrite length_rows_of; lia].
    right. rewrite length_drop. nia.
Qed.

Lemma concat_rows_of {A} (n k : nat) (l : list A) :
  (length l <= n * k)%nat -> concat (rows_of n k l) = l.
Proof.
  revert l. induction n as [|n IH]; intros l Hlen; cbn.
  - destruct l; [reflexivity|cbn in Hlen; lia].
  - rewrite IH by (rewrite length_drop; lia). apply take_drop.
Qed.

Lemma ceil_div_bounds (n k : nat) :
  k <> 0%nat ->
  let q := ((n + k - 1) `div` k)%nat in
  (n <= q * k)%nat /\ (q = 0 \/ (q - 1) * k < n)%nat.
Proof.
  intros Hk q.
  pose proof (Nat.div_mod_eq (n + k - 1) k) as Hdm.
  pose proof (Nat.mod_upper_bound (n + k - 1) k Hk) as Hmod.
  fold q in Hdm. split; [nia|].
  destruct (decide (q = 0%nat)); [by left|right; nia].
Qed.

Lemma DataLoader_Some `{Models} (ds : list sample) (bs : nat) (batches : list batch) :
  DataLoader ds bs = Some batches ->
  bs <> 0%nat /\
  exists chunks : list (list sample),
    batches = collate <$> chunks /\ concat chunks = ds /\
    full_but_last length bs chunks.
Proof.
  unfold DataLoader. intros Hloader.
  destruct (decide (bs = 0%nat)) as [|Hbs]; [discriminate|].
  injection Hloader as <-. split; [exact Hbs|].
  destruct (ceil_div_bounds (length ds) bs Hbs) as [Hup Hlow].
  eexists. split; [reflexivity|]. split.
  - by apply concat_rows_of.
  - by apply rows_of_full_but_last.
Qed.





Lemma eval_batch_inv `{PoseUtils} `{Autograd} (self : Trainer) (step : nat)
    (b : batch) (st st' : eval_state) :
  eval_batch self step b st = Some st' ->
  let lo := (step * batch_size (options self))%nat in
  let hi := (step * batch_size (options self) + length (img b))%nat in
  exists (v : eval_values) (e1 e2 e3 e4 : tensor1) (pred_pose : tensor2),
    eval_forward self b = Some v /\
    batch_metrics v = Some (e1, e2, e3, e4) /\
    slice_assign lo hi e1 (mpjpe st) = Some (mpjpe st') /\
    slice_assign lo hi e2 (pa_mpjpe st) = Some (pa_mpjpe st') /\
    slice_assign lo hi e3 (v2v st) = Some (v2v st') /\
    slice_assign lo hi e4 (pa_v2v st) = Some (pa_v2v st') /\
    batch_pred_pose v (length (img b)) = Some pred_pose /\
    for_range (save_prediction (imgname b) pred_pose (ev_pred_betas v))
      (seq 0 (length (img b))) (pred_dict st) = Some (pred_dict st').
Proof.
  unfold eval_batch. cbv zeta. intros Hstep.
  destruct (eval_forward self b) as [v|] eqn:Hv; [|discriminate].
  cbn [mbind option_bind] in Hstep.
  destruct (batch_metrics v) as [[[[e1 e2] e3] e4]|] eqn:Hm; [|discriminate].
  cbn [mbind option_bind] in Hstep.
  destruct (slice_assign _ _ e1 _) as [a1|] eqn:Ha1; [|discriminate].
  cbn [mbind option_bind] in Hstep.
  destruct (slice_assign _ _ e2 _) as [a2|] eqn:Ha2; [|discriminate].
  cbn [mbind option_bind] in Hstep.
  destruct (slice_assign _ _ e3 _) as [a3|] eqn:Ha3; [|discriminate].
  cbn [mbind option_bind] in Hstep.
  destruct (slice_assign _ _ e4 _) as [a4|] eqn:Ha4; [|discriminate].
  cbn [mbind option_bind] in Hstep.
  destruct (batch_pred_pose v _) as [pred_pose|] eqn:Hpp; [|discriminate].
  cbn [mbind option_bind] in Hstep.
  destruct (for_range _ _ _) as [d|] eqn:Hd; [|discriminate].
  injection Hstep as <-. cbn.
  by exists v, e1, e2, e3, e4, pred_pose.
Qed.











Lemma eval_forward_inv `{Autograd} (self : Trainer) (b : batch) (v : eval_values) :
  eval_forward self b = Some v ->
  exists (pred_camera : tensor2) (global_orient : tensor4),
    hmr (training self) (model self) (img b)
    = (ev_pred_rotmat v, ev_pred_betas v, pred_camera) /\
    head_joint (ev_pred_rotmat v) = Some global_orient /\
    let pred_output :=
      smpl_eval (ev_pred_betas v)
        (RotMat (tail_joints (ev_pred_rotmat v)) global_orient) in
    let gt_output :=
      smpl_eval (betas b)
        (AxisAngle (cols_from2 3 (pose b)) (cols_to2 3 (pose b))) in
    ev_pred_joints v = joints_to 24 (joints pred_output) /\
    ev_pred_vertices v = vertices pred_output /\
    ev_gt_joints v = joints_to 24 (joints gt_output) /\
    ev_gt_vertices v = vertices gt_output.
Proof.
  unfold eval_forward. cbv zeta. intros Hv.
  destruct (hmr _ _ _) as [[rot bet] cam].
  destruct (head_joint rot) as [go|] eqn:Hgo; [|discriminate].
  injection Hv as <-. cbn. by exists cam, go.
Qed.




(** ** The dictionary of predictions *)

Example path_names_sample :
  path_names "/data/rec_a/cam/color/frame_1.jpg" = Some ("rec_a", "frame_1.jpg").
Proof. reflexivity. Qed.

Example path_names_short : path_names "cam/color/frame_1.jpg" = None.
Proof. reflexivity. Qed.


Lemma save_prediction_inv (img_path : list string) (pred_pose pred_betas : tensor2)
    (i : nat) (d d' : predictions) :
  save_prediction img_path pred_pose pred_betas i d = Some d' ->
  exists (path recording_name frame_name : string) (pose_i betas_i : list R),
    item_at img_path pred_pose pred_betas i = Some (path, pose_i, betas_i) /\
    path_names path = Some (recording_name, frame_name) /\
    d' = <[recording_name :=
             <[frame_name := frame_entry pose_i betas_i]>
               (default ∅ (d !! recording_name))]> d.
Proof.
  unfold save_prediction, item_at. intros Hsave.
  destruct (img_path !! i) as [path|]; [|discriminate]. cbn in Hsave |- *.
  destruct (path_names path) as [[recording_name frame_name]|] eqn:Hnames;
    [|discriminate].
  cbn in Hsave.
  destruct (pred_pose !! i) as [pose_i|]; [|discriminate]. cbn in Hsave |- *.
  destruct (pred_betas !! i) as [betas_i|]; [|discriminate]. cbn in Hsave |- *.
  injection Hsave as <-.
  by exists path, recording_name, frame_name, pose_i, betas_i.
Qed.

Lemma saved_step (d : predictions) (items : list saved_item)
    (path recording_name frame_name : string) (pose_i betas_i : list R) :
  path_names path = Some (recording_name, frame_name) ->
  every_item_saved d items -> every_entry_predicted d items ->
  let d' := <[recording_name :=
                <[frame_name := frame_entry pose_i betas_i]>
                  (default ∅ (d !! recording_name))]> d in
  every_item_saved d' (items ++ [(path, pose_i, betas_i)]) /\
  every_entry_predicted d' (items ++ [(path, pose_i, betas_i)]).
Proof.
  intros Hnames Hsaved Hpred d'. split.
  - intros path0 p0 b0 Hin. apply elem_of_app in Hin as [Hin|Hin].
    + destruct (Hsaved _ _ _ Hin) as (r & f & frames & entry & Hn & Hr & Hf).
      exists r, f. subst d'.
      destruct (decide (recording_name = r)) as [->|Hne].
      * rewrite Hr. cbn. rewrite lookup_insert_eq.
        destruct (decide (frame_name = f)) as [->|Hnf].
        -- eexists _, _. split; [exact Hn|]. split; [reflexivity|].
           apply lookup_insert_eq.
        -- eexists _, _. split; [exact Hn|]. split; [reflexivity|].
           rewrite lookup_insert_ne by exact Hnf. exact Hf.
      * exists frames, entry. split; [exact Hn|]. split; [|exact Hf].
        rewrite lookup_insert_ne by exact Hne. exact Hr.
    + apply list_elem_of_singleton in Hin. injection Hin as -> -> ->.
      exists recording_name, frame_name. eexists _, _.
      split; [exact Hnames|]. subst d'. split; [apply lookup_insert_eq|].
      apply lookup_insert_eq.
  - intros r f frames entry Hr Hf. subst d'.
    destruct (decide (recording_name = r)) as [->|Hne].
    + rewrite lookup_insert_eq in Hr. injection Hr as <-.
      destruct (decide (frame_name = f)) as [->|Hnf].
      * rewrite lookup_insert_eq in Hf. injection Hf as <-.
        exists path, pose_i, betas_i. split; [|done].
        apply elem_of_app. right. by apply list_elem_of_singleton.
      * rewrite lookup_insert_ne in Hf by exact Hnf.
        destruct (d !! r) as [frames|] eqn:Hdr; cbn in Hf;
          [|by rewrite lookup_empty in Hf]. destruct (Hpred _ _ _ _ Hdr Hf) as (p & a & b & Hin & Hrest).
        exists p, a, b. split; [|exact Hrest]. apply elem_of_app. by left.
    + rewrite lookup_insert_ne in Hr by exact Hne.
      destruct (Hpred _ _ _ _ Hr Hf) as (p & a & b & Hin & Hrest).
      exists p, a, b. split; [|exact Hrest]. apply elem_of_app. by left.
Qed.

Lemma for_range_saved (img_path : list string) (pred_pose pred_betas : tensor2)
    (range : list nat) (d d' : predictions) (done : list saved_item) :
  for_range (save_prediction img_path pred_pose pred_betas) range d = Some d' ->
  every_item_saved d done -> every_entry_predicted d done ->
  exists items : list saved_item,
    mapM (item_at img_path pred_pose pred_betas) range = Some items /\
    every_item_saved d' (done ++ items) /\
    every_entry_predicted d' (done ++ items).
Proof.
  revert d done. induction range as [|i range IH]; intros d done Hloop Hs Hp.
  - injection Hloop as <-. exists []. by rewrite app_nil_r.
  - cbn in Hloop.
    destruct (save_prediction _ _ _ i d) as [d1|] eqn:Hsave; [|discriminate].
    cbn in Hloop.
    destruct (save_prediction_inv _ _ _ _ _ _ Hsave)
      as (path & r & f & p & b & Hitem & Hnames & ->).
    destruct (saved_step d done path r f p b Hnames Hs Hp) as [Hs1 Hp1].
    destruct (IH _ _ Hloop Hs1 Hp1) as (items & Hitems & Hs' & Hp').
    exists ((path, p, b) :: items). cbn. rewrite Hitem. cbn. rewrite Hitems.
    split; [reflexivity|].
    rewrite <- app_assoc in Hs', Hp'. by split.
Qed.

Lemma for_enumerate_saved `{PoseUtils} `{Autograd} (self : Trainer)
    (batches : list batch) (k : nat) (st st' : eval_state)
    (done : list saved_item) :
  for_enumerate (eval_batch self) k batches st = Some st' ->
  every_item_saved (pred_dict st) done ->
  every_entry_predicted (pred_dict st) done ->
  exists saved : list (list saved_item),
    Forall2 (fun b items => batch_items self b = Some items) batches saved /\
    every_item_saved (pred_dict st') (done ++ concat saved) /\
    every_entry_predicted (pred_dict st') (done ++ concat saved).
Proof.
  revert k st done.
  induction batches as [|b batches IH]; intros k st done Hloop Hs Hp.
  - injection Hloop as <-. exists []. cbn. rewrite app_nil_r.
    split; [constructor|by split].
  - cbn in Hloop.
    destruct (eval_batch self k b st) as [st1|] eqn:Hstep; [|discriminate].
    cbn in Hloop.
    destruct (eval_batch_inv _ _ _ _ _ Hstep)
      as (v & e1 & e2 & e3 & e4 & pp & Hv & _ & _ & _ & _ & _ & Hpp & Hsave).
    destruct (for_range_saved _ _ _ _ _ _ _ Hsave Hs Hp)
      as (items & Hitems & Hs1 & Hp1).
    destruct (IH _ _ _ Hloop Hs1 Hp1) as (saved & Hsaved & Hs' & Hp').
    exists (items :: saved). split.
    + constructor; [|exact Hsaved].
      unfold batch_items. rewrite Hv. cbn. rewrite Hpp. cbn. exact Hitems.
    + cbn. rewrite app_assoc. by split.
Qed.

Lemma frame_entry_fields (pose_i betas_i : list R) :
  frame_entry pose_i betas_i !! "gender" = Some (JString "neutral") /\
  frame_entry pose_i betas_i !! "body_pose" = Some (JNumbers [drop 3 pose_i]) /\
  frame_entry pose_i betas_i !! "global_orient" = Some (JNumbers [take 3 pose_i]) /\
  frame_entry pose_i betas_i !! "betas" = Some (JNumbers [betas_i]) /\
  dom (frame_entry pose_i betas_i)
  = ({["gender"; "body_pose"; "global_orient"; "betas"]} : gset string).
Proof.
  unfold frame_entry.
  split; [apply lookup_insert_eq|].
  split; [rewrite lookup_insert_ne by discriminate; apply lookup_insert_eq|].
  split; [do 2 rewrite lookup_insert_ne by discriminate; apply lookup_insert_eq|].
  split; [do 3 rewrite lookup_insert_ne by discriminate; apply lookup_insert_eq|].
  rewrite !dom_insert_L, dom_empty_L. set_solver.
Qed.

Lemma mapM_item_at (img_path : list string) (pred_pose pred_betas : tensor2)
    (n : nat) (items : list saved_item) :
  mapM (item_at img_path pred_pose pred_betas) (seq 0 n) = Some items ->
  length items = n /\
  forall i : nat, (i < n)%nat ->
    exists (path : string) (pose_i betas_i : list R),
      img_path !! i = Some path /\ pred_pose !! i = Some pose_i /\
      pred_betas !! i = Some betas_i /\
      items !! i = Some (path, pose_i, betas_i).
Proof.
  intros Hitems. apply mapM_Some_1 in Hitems.
  assert (length items = n) as Hlen.
  { apply Forall2_length in Hitems. rewrite length_seq in Hitems. lia. }
  split; [exact Hlen|]. intros i Hi.
  destruct (lookup_lt_is_Some_2 items i) as [it Hit]; [lia|].
  destruct (Forall2_lookup_r _ _ _ _ _ Hitems Hit) as (j & Hj & Hat).
  apply lookup_seq in Hj as [-> _]. cbn in Hat. unfold item_at in Hat.
  destruct (img_path !! i) as [path|]; [|discriminate]. cbn in Hat.
  destruct (pred_pose !! i) as [p|]; [|discriminate]. cbn in Hat.
  destruct (pred_betas !! i) as [b|]; [|discriminate]. cbn in Hat.
  injection Hat as <-. by exists path, p, b.
Qed.

(** The items saved for a batch, from the outputs of the network *)
Lemma batch_items_inv `{PoseUtils} `{Autograd} (self : Trainer)
    (c : list sample) (items : list saved_item) :
  batch_items self (collate c) = Some items ->
  exists (pred_rotmat : tensor4) (pred_betas pred_camera : tensor2)
         (mats rotmat : tensor3) (pred_pose : tensor2),
    hmr (training self) (model self) (s_img <$> c)
    = (pred_rotmat, pred_betas, pred_camera) /\
    view_m1_3_3 pred_rotmat = Some mats /\
    cat_last mats (replicate (length c * 24) rot_pad) = Some rotmat /\
    view_m1_72 (rotation_matrix_to_angle_axis rotmat) = Some pred_pose /\
    length items = length c /\
    forall (i : nat) (ex : sample), c !! i = Some ex ->
      exists pose_i betas_i : list R,
        pred_pose !! i = Some pose_i /\ pred_betas !! i = Some betas_i /\
        items !! i = Some (s_imgname ex, pose_i, betas_i).
Proof.
  unfold batch_items. intros Hitems.
  destruct (eval_forward self (collate c)) as [v|] eqn:Hv; [|discriminate].
  cbn [mbind option_bind] in Hitems.
  destruct (batch_pred_pose v _) as [pp|] eqn:Hpp; [|discriminate].
  cbn [mbind option_bind] in Hitems.
  destruct (eval_forward_inv _ _ _ Hv) as (cam & go & Hhmr & _).
  cbn [collate img imgname] in Hhmr, Hpp, Hitems.
  rewrite length_fmap in Hpp, Hitems.
  unfold batch_pred_pose in Hpp.
  destruct (view_m1_3_3 _) as [mats|] eqn:Hmats; [|discriminate].
  cbn [mbind option_bind] in Hpp.
  destruct (cat_last mats _) as [rotmat|] eqn:Hcat; [|discriminate].
  cbn [mbind option_bind] in Hpp.
  exists (ev_pred_rotmat v), (ev_pred_betas v), cam, mats, rotmat, pp.
  destruct (mapM_item_at _ _ _ _ _ Hitems) as [Hlen Hat].
  repeat split; try assumption.
  intros i ex Hex.
  destruct (Hat i) as (path & p & b & Hpath & Hp & Hb & Hit);
    [by apply lookup_lt_Some in Hex|].
  rewrite list_lookup_fmap, Hex in Hpath. injection Hpath as <-.
  by exists p, b.
Qed.

Lemma path_names_inv (path recording_name frame_name : string) :
  path_names path = Some (recording_name, frame_name) ->
  neg_index 4 (split "/" path) = Some recording_name /\
  neg_index 1 (split "/" path) = Some frame_name.
Proof.
  unfold path_names. intros Hn.
  destruct (neg_index 4 _) as [r|]; [|discriminate]. cbn in Hn.
  destruct (neg_index 1 _) as [f|]; [|discriminate]. cbn in Hn.
  by injection Hn as <- <-.
Qed.

Lemma eval_saved_items `{PoseUtils} `{Autograd} (self self' : Trainer)
    (fs fs' : filesystem) :
  eval self fs = Some (self', fs') ->
  self' = set_training false self /\
  exists (chunks : list (list sample)) (saved : list (list saved_item))
         (d : predictions),
    concat chunks = test_ds self /\
    Forall2 (fun c items => batch_items self' (collate c) = Some items)
      chunks saved /\
    fs' !! submission_path self = Some [JsonDump d] /\
    every_item_saved d (concat saved) /\
    every_entry_predicted d (concat saved).
Proof.
  intros Heval.
  destruct (eval_inv _ _ _ _ Heval) as (-> & batches & st & Hloader & Hloop & ->).
  split; [reflexivity|].
  destruct (DataLoader_Some _ _ _ Hloader) as (_ & chunks & -> & Hcat & _).
  destruct (for_enumerate_saved _ _ _ _ _ [] Hloop) as (saved & Hsaved & Hs & Hp).
  { intros path p b Hin. by apply elem_of_nil in Hin. }
  { intros r f frames entry Hr. cbn in Hr. by rewrite lookup_empty in Hr. }
  exists chunks, saved, (pred_dict st). split; [exact Hcat|].
  split; [by apply Forall2_fmap_l in Hsaved|].
  split; [apply lookup_insert_eq|]. by split.
Qed.

(** C4 (as amended): [eval] writes to the submission path the dump of a
    dictionary from recording names to frame names to entries.  The test
    set is cut in consecutive batches; for the [i]-th example of a batch
    the network, in evaluation mode, predicts a pose, row [i] of the
    rotation matrices converted to 72 axis-angle components, and shape
    coefficients, row [i] of the predicted betas.  Every example has an
    entry under the fourth-from-last and the last component of its image
    path, and every entry holds exactly four fields, for an example with
    these names: the gender ["neutral"], the body pose (the components of
    the predicted pose after the first three), the global orientation (its
    first three components) and the shape coefficients, each of the three
    wrapped in a list of one element. *)
Theorem eval_writes_predictions `{PoseUtils} `{Autograd} (self self' : Trainer)
    (fs fs' : filesystem) :
  eval self fs = Some (self', fs') ->
  exists (chunks : list (list sample)) (saved : list (list saved_item))
         (d : predictions),
    concat chunks = test_ds self /\
    Forall2 (fun (c : list sample) (items : list saved_item) =>
               exists (pred_rotmat : tensor4) (pred_betas pred_camera : tensor2)
                      (mats rotmat : tensor3) (pred_pose : tensor2),
                 hmr false (model self) (s_img <$> c)
                 = (pred_rotmat, pred_betas, pred_camera) /\
                 view_m1_3_3 pred_rotmat = Some mats /\
                 cat_last mats (replicate (length c * 24) rot_pad) = Some rotmat /\
                 view_m1_72 (rotation_matrix_to_angle_axis rotmat)
                 = Some pred_pose /\
                 length items = length c /\
                 forall (i : nat) (ex : sample), c !! i = Some ex ->
                   exists pose_i betas_i : list R,
                     pred_pose !! i = Some pose_i /\
                     pred_betas !! i = Some betas_i /\
                     items !! i = Some (s_imgname ex, pose_i, betas_i))
      chunks saved /\
    fs' !! submission_path self = Some [JsonDump d] /\
    (forall (path : string) (pose_i betas_i : list R),
       (path, pose_i, betas_i) ∈ concat saved ->
       exists (recording_name frame_name : string)
              (frames : gmap string (gmap string json_value))
              (entry : gmap string json_value),
         neg_index 4 (split "/" path) = Some recording_name /\
         neg_index 1 (split "/" path) = Some frame_name /\
         d !! recording_name = Some frames /\
         frames !! frame_name = Some entry) /\
    (forall (recording_name frame_name : string)
            (frames : gmap string (gmap string json_value))
            (entry : gmap string json_value),
       d !! recording_name = Some frames ->
       frames !! frame_name = Some entry ->
       exists (path : string) (pose_i betas_i : list R),
         (path, pose_i, betas_i) ∈ concat saved /\
         neg_index 4 (split "/" path) = Some recording_name /\
         neg_index 1 (split "/" path) = Some frame_name /\
         entry !! "gender" = Some (JString "neutral") /\
         entry !! "body_pose" = Some (JNumbers [drop 3 pose_i]) /\
         entry !! "global_orient" = Some (JNumbers [take 3 pose_i]) /\
         entry !! "betas" = Some (JNumbers [betas_i]) /\
         dom entry
         = ({["gender"; "body_pose"; "global_orient"; "betas"]} : gset string)).
Proof.
  intros Heval.
  destruct (eval_saved_items _ _ _ _ Heval)
    as (-> & chunks & saved & d & Hcat & Hsaved & Hfile & Hs & Hp).
  exists chunks, saved, d. split; [exact Hcat|]. split; [|split; [exact Hfile|split]].
  - eapply Forall2_impl; [exact Hsaved|]. intros c items Hitems.
    by apply batch_items_inv in Hitems.
  - intros path p b Hin.
    destruct (Hs _ _ _ Hin) as (r & f & frames & entry & Hn & Hr & Hf).
    apply path_names_inv in Hn as [Hn4 Hn1].
    by exists r, f, frames, entry.
  - intros r f frames entry Hr Hf.
    destruct (Hp _ _ _ _ Hr Hf) as (path & p & b & Hin & Hn & ->).
    apply path_names_inv in Hn as [Hn4 Hn1].
    destruct (frame_entry_fields p b) as (Hg & Hbp & Hgo & Hb & Hdom).
    exists path, p, b. by repeat split.
Qed.


(** ** The evaluation of the sample trainer *)


Lemma gender_not_a_prediction :
  "gender" ∉ ({["body_pose"; "global_orient"; "betas"]} : gset string).
Proof.
  rewrite !elem_of_union, !elem_of_singleton.
  intros [[Heq|Heq]|Heq]; discriminate Heq.
Qed.

(** C4 (as stated) fails: the entry written for a frame of the sample
    dataset holds a gender next to the three predictions. *)
Lemma eval_entry_has_gender :
  saved_entry sample_eval_fs (submission_path sample_trainer)
    "rec_a" "frame_1.jpg"
  = Some (frame_entry (replicate 72 0) (replicate 10 0)) /\
  frame_entry (replicate 72 0) (replicate 10 0) !! "gender"
  = Some (JString "neutral") /\
  dom (frame_entry (replicate 72 0) (replicate 10 0))
  <> ({["body_pose"; "global_orient"; "betas"]} : gset string).
Proof.
  split; [vm_compute; reflexivity|].
  destruct (frame_entry_fields (replicate 72 0) (replicate 10 0))
    as (Hgender & _ & _ & _ & Hdom).
  split; [exact Hgender|].
  rewrite Hdom. intros Heq. apply gender_not_a_prediction.
  rewrite <- Heq, !elem_of_union, !elem_of_singleton. auto.
Qed.

Lemma eval_writes_predictions_witness :
  exists (chunks : list (list sample)) (saved : list (list saved_item))
         (d : predictions),
    concat chunks = test_ds sample_trainer /\
    Forall2 (fun (c : list sample) (items : list saved_item) =>
               exists (pred_rotmat : tensor4) (pred_betas pred_camera : tensor2)
                      (mats rotmat : tensor3) (pred_pose : tensor2),
                 @hmr sample_models false (model sample_trainer) (s_img <$> c)
                 = (pred_rotmat, pred_betas, pred_camera) /\
                 view_m1_3_3 pred_rotmat = Some mats /\
                 cat_last mats (replicate (length c * 24) rot_pad) = Some rotmat /\
                 view_m1_72 (@rotation_matrix_to_angle_axis sample_pose_utils rotmat)
                 = Some pred_pose /\
                 length items = length c /\
                 forall (i : nat) (ex : sample), c !! i = Some ex ->
                   exists pose_i betas_i : list R,
                     pred_pose !! i = Some pose_i /\
                     pred_betas !! i = Some betas_i /\
                     items !! i = Some (s_imgname ex, pose_i, betas_i))
      chunks saved /\
    sample_eval_fs !! submission_path sample_trainer = Some [JsonDump d] /\
    (forall (path : string) (pose_i betas_i : list R),
       (path, pose_i, betas_i) ∈ concat saved ->
       exists (recording_name frame_name : string)
              (frames : gmap string (gmap string json_value))
              (entry : gmap string json_value),
         neg_index 4 (split "/" path) = Some recording_name /\
         neg_index 1 (split "/" path) = Some frame_name /\
         d !! recording_name = Some frames /\
         frames !! frame_name = Some entry) /\
    (forall (recording_name frame_name : string)
            (frames : gmap string (gmap string json_value))
            (entry : gmap string json_value),
       d !! recording_name = Some frames ->
       frames !! frame_name = Some entry ->
       exists (path : string) (pose_i betas_i : list R),
         (path, pose_i, betas_i) ∈ concat saved /\
         neg_index 4 (split "/" path) = Some recording_name /\
         neg_index 1 (split "/" path) = Some frame_name /\
         entry !! "gender" = Some (JString "neutral") /\
         entry !! "body_pose" = Some (JNumbers [drop 3 pose_i]) /\
         entry !! "global_orient" = Some (JNumbers [take 3 pose_i]) /\
         entry !! "betas" = Some (JNumbers [betas_i]) /\
         dom entry
         = ({["gender"; "body_pose"; "global_orient"; "betas"]} : gset string)).
Proof.
  apply (@eval_writes_predictions sample_pose_utils sample_models
           sample_autograd sample_trainer (set_training false sample_trainer)
           ∅ sample_eval_fs).
  vm_compute. reflexivity.
Defined.


(* ================================================================= *)
(** ** Further properties of the code *)

(** ** Signs of the losses *)

Lemma tsum_nonneg (xs : tensor1) : Forall (fun x => 0 <= x) xs -> 0 <= tsum xs.
Proof.
  induction 1 as [|x xs Hx _ IH]; cbn; [lra|].
  change (foldr Rplus 0 xs) with (tsum xs). lra.
Qed.

Lemma tmean_nonneg (xs : tensor1) : Forall (fun x => 0 <= x) xs -> 0 <= tmean xs.
Proof.
  intros Hxs. unfold tmean, Rdiv.
  apply Rmult_le_pos; [apply tsum_nonneg, Hxs|].
  destruct xs as [|x xs']; [cbn; rewrite Rinv_0; lra|].
  left. apply Rinv_0_lt_compat, lt_0_INR. cbn; lia.
Qed.

Lemma tsum_zero (xs : tensor1) : Forall (fun x => x = 0) xs -> tsum xs = 0.
Proof.
  induction 1 as [|x xs Hx _ IH]; cbn; [reflexivity|].
  change (foldr Rplus 0 xs) with (tsum xs). lra.
Qed.

Lemma tmean_zero (xs : tensor1) : Forall (fun x => x = 0) xs -> tmean xs = 0.
Proof. intros Hxs. unfold tmean. rewrite tsum_zero by exact Hxs. unfold Rdiv. lra. Qed.

Lemma Forall_flat2 (P : R -> Prop) (t : tensor2) :
  Forall (Forall P) t -> Forall P (flat2 t).
Proof. unfold flat2. induction 1; cbn; [constructor|]. apply Forall_app; auto. Qed.

Lemma Forall_flat3 (P : R -> Prop) (t : tensor3) :
  Forall (Forall (Forall P)) t -> Forall P (flat3 t).
Proof.
  unfold flat3. induction 1 as [|ex t Hex _ IH]; cbn; [constructor|].
  rewrite concat_app. apply Forall_app; split; [apply Forall_flat2, Hex|exact IH].
Qed.

Lemma Forall_flat4 (P : R -> Prop) (t : tensor4) :
  Forall (Forall (Forall (Forall P))) t -> Forall P (flat4 t).
Proof.
  unfold flat4. induction 1 as [|ex t Hex _ IH]; cbn; [constructor|].
  rewrite !concat_app. apply Forall_app; split; [apply Forall_flat3, Hex|exact IH].
Qed.






Lemma Forall_True1 (t : tensor1) : Forall (fun _ : R => True) t.
Proof. apply Forall_forall; auto. Qed.


Lemma mapM_Forall {A B} (f : A -> option B) (P : A -> Prop) (Q : B -> Prop)
    (l : list A) (k : list B) :
  (forall x y, P x -> f x = Some y -> Q y) ->
  Forall P l -> mapM f l = Some k -> Forall Q k.
Proof.
  intros Hf Hl Hk. apply Forall_forall. intros y Hy.
  destruct (mapM_Some_elem f l k y Hk Hy) as (x & Hx & Hxy).
  pose proof (proj1 (Forall_forall P l) Hl x Hx). eauto.
Qed.















(** X15: the total loss reported by [test_step] is 60 times the sum of the
    weighted shape, 2D keypoint, pose and shape-coefficient losses and of the
    mean of [exp(-10 s)^2] over the predicted camera scales [s], the network
    being in evaluation mode; there is no 3D keypoint term. *)
Theorem test_step_total_loss `{Geometry} `{Autograd} (self self' : Trainer)
    (input_batch : batch) (l : test_losses) :
  test_step self input_batch = Some (self', l) ->
  let opts := options self in
  exists scales : tensor1,
    col 0 (hmr false (model self) (img input_batch)).2 = Some scales /\
    loss_test l
    = (shape_loss_weight opts * loss_shape_test l
       + keypoint_loss_weight opts * loss_keypoints_test l
       + pose_loss_weight opts * loss_regr_pose_test l
       + beta_loss_weight opts * loss_regr_betas_test l
       + tmean ((fun s => exp (- s * 10) ^ 2) <$> scales)) * 60.
Proof.
  intros Hstep opts.
  destruct (test_step_inv _ _ _ _ Hstep) as (_ & tv & Htv & ->).
  destruct (test_forward_inv _ _ _ Htv)
    as (pr & pb & go & k2 & ct & pen & Hhmr & _ & _ & _ & _ & _ & _ & _ & Hpen
        & Hloss).
  cbn [options set_training training model] in *.
  unfold depth_penalty in Hpen.
  destruct (col 0 (tv_pred_camera tv)) as [s|] eqn:Hs; [|discriminate].
  injection Hpen as <-.
  exists s. split; [rewrite Hhmr; exact Hs|].
  cbn [loss_test loss_shape_test loss_keypoints_test loss_regr_pose_test
       loss_regr_betas_test].
  rewrite Hloss, item_limul, !item_ladd, !item_lscale. reflexivity.
Qed.



Lemma bounded3_replicate (B : R) (n : nat) (row : list R) :
  Forall (fun x : R => Rabs x <= B) row -> bounded3 B [replicate n row].
Proof.
  intros Hrow. constructor; [|constructor]. by apply Forall_replicate.
Qed.



(** ** The translation estimate and the training step *)

Lemma train_forward_with_estimate (G : Geometry) `{Autograd}
    (est : tensor3 -> tensor3 -> R -> Z -> option tensor2)
    (self : Trainer) (w : weights) (input_batch : batch) :
  forward_summary <$> train_forward (H:=with_estimate G est) self w input_batch
  = forward_summary <$> train_forward (H:=G) self w input_batch.
Proof.
  unfold train_forward.
  destruct (hmr (training self) w (img input_batch)) as [[pr pb] pc].
  destruct (head_joint pr) as [go|]; [|reflexivity].
  cbn [mbind option_bind].
  change (@project (with_estimate G est)) with (@project G).
  destruct (project _ _ _ _ _) as [[k2 ct]|]; [|reflexivity].
  cbn [mbind option_bind].
  change (@smpl_losses (with_estimate G est)) with (@smpl_losses G).
  destruct (smpl_losses _ _ _ _ _) as [[lp lb]|]; [|reflexivity].
  cbn [mbind option_bind].
  destruct (keypoint_loss _ _ _ _) as [lk|]; [|reflexivity].
  cbn [mbind option_bind].
  destruct (keypoint_3d_loss _ _ _) as [lk3|]; [|reflexivity].
  cbn [mbind option_bind].
  destruct (shape_loss _ _ _) as [ls|]; [|reflexivity].
  cbn [mbind option_bind].
  destruct (depth_penalty _) as [pen|]; [|reflexivity].
  reflexivity.
Qed.

Lemma fmap_forward_summary_loss (o o' : option forward) :
  forward_summary <$> o = forward_summary <$> o' ->
  (fun r => item (fw_loss r)) <$> o = (fun r => item (fw_loss r)) <$> o'.
Proof.
  destruct o as [fw|], o' as [fw'|]; cbn; intros Heq; try discriminate;
    [|reflexivity].
  unfold forward_summary in Heq. congruence.
Qed.

(** X14: the result of [estimate_translation], or the exception it
    raises, influences nothing of [train_step] but the output [opt_cam_t]:
    the updated trainer, the losses, the two sets of vertices and [pred_cam_t]
    are the same with any other translation estimate, and the step raises
    in the same cases. *)
Theorem train_step_ignores_translation_estimate (G : Geometry) `{Autograd}
    (est : tensor3 -> tensor3 -> R -> Z -> option tensor2)
    (self : Trainer) (input_batch : batch) :
  step_summary <$> train_step (H:=with_estimate G est) self input_batch
  = step_summary <$> train_step (H:=G) self input_batch.
Proof.
  unfold train_step.
  assert ((fun w => (fun r => item (fw_loss r)) <$>
             train_forward (H:=with_estimate G est) (set_training true self) w
               input_batch)
          = (fun w => (fun r => item (fw_loss r)) <$>
               train_forward (H:=G) (set_training true self) w input_batch))
    as ->.
  { apply functional_extensionality. intros w.
    apply fmap_forward_summary_loss, train_forward_with_estimate. }
  pose proof (train_forward_with_estimate G est (set_training true self)
                (model (set_training true self)) input_batch) as Hfw.
  destruct (train_forward (H:=with_estimate G est) _ _ _) as [fw'|],
    (train_forward (H:=G) _ _ _) as [fw|]; cbn in Hfw; try discriminate;
    [|reflexivity].
  unfold forward_summary in Hfw.
  injection Hfw as Hgo Hpo Hpc Hct Hlp Hlb Hlk Hlk3 Hls Hl.
  cbn [mbind option_bind].
  destruct (optimizer_step _ _ _) as [o w'].
  cbn [fmap option_fmap option_map]. unfold step_summary.
  cbn [fst snd pred_vertices opt_vertices pred_cam_t].
  rewrite Hgo, Hpo, Hct, Hlp, Hlb, Hlk, Hlk3, Hls, Hl. reflexivity.
Qed.

(** ** Image paths and the dictionary of predictions *)

Lemma length_split (sep : ascii) (s : string) :
  length (split sep s) = S (occurrences sep s).
Proof.
  induction s as [|c s IH]; [reflexivity|]. cbn [split occurrences].
  destruct (Ascii.eqb c sep); [cbn; by rewrite IH|].
  destruct (split sep s) as [|h t]; [discriminate IH|]. exact IH.
Qed.

Lemma path_names_Some_occurrences (path : string) (names : string * string) :
  path_names path = Some names -> (3 <= occurrences "/" path)%nat.
Proof.
  unfold path_names, neg_index. rewrite length_split. intros Hnames.
  destruct (decide (4 <= _)%nat) as [Hle|Hgt]; [lia|discriminate Hnames].
Qed.

Lemma append_nil_l (t : string) : ("" +:+ t = t)%string.
Proof. reflexivity. Qed.

Lemma append_cons_l (c : ascii) (s t : string) :
  (String c s +:+ t = String c (s +:+ t))%string.
Proof. reflexivity. Qed.

Lemma split_app_sep (sep : ascii) (s t : string) :
  split sep (s +:+ String sep t) = split sep s ++ split sep t.
Proof.
  induction s as [|c s IH];
    rewrite ?append_nil_l, ?append_cons_l; cbn [split].
  - by rewrite Ascii.eqb_refl.
  - destruct (Ascii.eqb c sep); [by rewrite IH|].
    rewrite IH. pose proof (length_split sep s) as Hlen.
    destruct (split sep s) as [|h l]; [discriminate Hlen|]. reflexivity.
Qed.

Lemma split_no_sep (sep : ascii) (s : string) :
  occurrences sep s = 0%nat -> split sep s = [s].
Proof.
  induction s as [|c s IH]; [reflexivity|]. cbn [split occurrences].
  destruct (Ascii.eqb c sep); [discriminate|].
  intros Hocc. by rewrite IH.
Qed.

(** X19: for the image path [dir/recording/a/b/frame], where the last four
    components hold no ['/'], the recording name is [recording] and the
    frame name is [frame], whatever the directory [dir]. *)
Theorem path_names_of_components (dir recording_name a b frame_name : string) :
  occurrences "/" recording_name = 0%nat -> occurrences "/" a = 0%nat ->
  occurrences "/" b = 0%nat -> occurrences "/" frame_name = 0%nat ->
  path_names (dir +:+ "/" +:+ recording_name +:+ "/" +:+ a +:+ "/" +:+ b
              +:+ "/" +:+ frame_name)
  = Some (recording_name, frame_name).
Proof.
  intros Hr Ha Hb Hf. unfold path_names.
  rewrite !(append_cons_l "/" ""), !append_nil_l.
  rewrite !split_app_sep.
  rewrite (split_no_sep _ _ Hr), (split_no_sep _ _ Ha), (split_no_sep _ _ Hb),
    (split_no_sep _ _ Hf).
  unfold neg_index. rewrite !length_app. cbn [length].
  destruct (decide _) as [_|]; [|lia].
  destruct (decide _) as [_|]; [|lia].
  replace (length (split "/" dir) + (1 + (1 + (1 + 1))) - 4)%nat
    with (length (split "/" dir) + 0)%nat by lia.
  replace (length (split "/" dir) + (1 + (1 + (1 + 1))) - 1)%nat
    with (length (split "/" dir) + 3)%nat by lia.
  rewrite (lookup_app_r _ _ (length (split "/" dir) + 0)) by lia.
  rewrite (lookup_app_r _ _ (length (split "/" dir) + 3)) by lia.
  replace (length (split "/" dir) + 0 - length (split "/" dir))%nat with 0%nat by lia.
  replace (length (split "/" dir) + 3 - length (split "/" dir))%nat with 3%nat by lia.
  reflexivity.
Qed.

Lemma path_names_of_components_witness :
  path_names ("/data" +:+ "/" +:+ "rec_a" +:+ "/" +:+ "cam" +:+ "/" +:+ "color"
              +:+ "/" +:+ "frame_1.jpg")
  = Some ("rec_a", "frame_1.jpg")%string.
Proof. apply path_names_of_components; reflexivity. Defined.

(** X18: the recording and frame names of an image path,
    [path.split('/')[-4]] and [path.split('/')[-1]], exist exactly when the
    path holds at least three ['/'] characters; otherwise the indexing
    raises. *)
Theorem path_names_defined_iff (path : string) :
  is_Some (path_names path) <-> (3 <= occurrences "/" path)%nat.
Proof.
  split; [intros [names Hnames]; by eapply path_names_Some_occurrences|].
  intros Hle. unfold path_names, neg_index. rewrite length_split.
  destruct (decide (4 <= S (occurrences "/" path))%nat) as [_|]; [|lia].
  destruct (decide (1 <= S (occurrences "/" path))%nat) as [_|]; [|lia].
  destruct (lookup_lt_is_Some_2 (split "/" path)
              (S (occurrences "/" path) - 4)) as [r Hr];
    [rewrite length_split; lia|].
  destruct (lookup_lt_is_Some_2 (split "/" path)
              (S (occurrences "/" path) - 1)) as [f Hf];
    [rewrite length_split; lia|].
  rewrite Hr, Hf. by eexists.
Qed.

Lemma for_range_saved_inv (I : predictions -> list saved_item -> Prop)
    (img_path : list string) (pred_pose pred_betas : tensor2)
    (range : list nat) (d d' : predictions) (done : list saved_item) :
  (forall d items path r f p b,
     path_names path = Some (r, f) -> I d items ->
     I (<[r := <[f := frame_entry p b]> (default ∅ (d !! r))]> d)
       (items ++ [(path, p, b)])) ->
  for_range (save_prediction img_path pred_pose pred_betas) range d = Some d' ->
  I d done ->
  exists items : list saved_item,
    mapM (item_at img_path pred_pose pred_betas) range = Some items /\
    I d' (done ++ items).
Proof.
  intros HI. revert d done. induction range as [|i range IH]; intros d done Hloop Hd.
  - injection Hloop as <-. exists []. by rewrite app_nil_r.
  - cbn in Hloop.
    destruct (save_prediction _ _ _ i d) as [d1|] eqn:Hsave; [|discriminate].
    cbn in Hloop.
    destruct (save_prediction_inv _ _ _ _ _ _ Hsave)
      as (path & r & f & p & b & Hitem & Hnames & ->).
    destruct (IH _ _ Hloop (HI _ _ _ _ _ p b Hnames Hd)) as (items & Hitems & Hd').
    exists ((path, p, b) :: items). cbn. rewrite Hitem. cbn. rewrite Hitems.
    split; [reflexivity|]. by rewrite <- app_assoc in Hd'.
Qed.

Lemma for_enumerate_saved_inv `{PoseUtils} `{Autograd}
    (I : predictions -> list saved_item -> Prop) (self : Trainer)
    (batches : list batch) (k : nat) (st st' : eval_state)
    (done : list saved_item) :
  (forall d items path r f p b,
     path_names path = Some (r, f) -> I d items ->
     I (<[r := <[f := frame_entry p b]> (default ∅ (d !! r))]> d)
       (items ++ [(path, p, b)])) ->
  for_enumerate (eval_batch self) k batches st = Some st' ->
  I (pred_dict st) done ->
  exists saved : list (list saved_item),
    Forall2 (fun b items => batch_items self b = Some items) batches saved /\
    I (pred_dict st') (done ++ concat saved).
Proof.
  intros HI. revert k st done.
  induction batches as [|b batches IH]; intros k st done Hloop Hd.
  - injection Hloop as <-. exists []. cbn. rewrite app_nil_r.
    split; [constructor|exact Hd].
  - cbn in Hloop.
    destruct (eval_batch self k b st) as [st1|] eqn:Hstep; [|discriminate].
    cbn in Hloop.
    destruct (eval_batch_inv _ _ _ _ _ Hstep)
      as (v & e1 & e2 & e3 & e4 & pp & Hv & _ & _ & _ & _ & _ & Hpp & Hsave).
    destruct (for_range_saved_inv I _ _ _ _ _ _ _ HI Hsave Hd)
      as (items & Hitems & Hd1).
    destruct (IH _ _ _ Hloop Hd1) as (saved & Hsaved & Hd').
    exists (items :: saved). split.
    + constructor; [|exact Hsaved].
      unfold batch_items. rewrite Hv. cbn. rewrite Hpp. cbn. exact Hitems.
    + cbn. by rewrite app_assoc.
Qed.

Lemma last_prediction_snoc (items : list saved_item) (path : string)
    (p b : list R) (r f : string) :
  last_prediction (items ++ [(path, p, b)]) r f
  = if decide (path_names path = Some (r, f)) then Some (frame_entry p b)
    else last_prediction items r f.
Proof. unfold last_prediction. by rewrite foldl_app. Qed.

Lemma lookup_entry_step (d : predictions) (items : list saved_item)
    (path r f : string) (p b : list R) :
  path_names path = Some (r, f) ->
  (forall r' f', lookup_entry d r' f' = last_prediction items r' f') ->
  forall r' f',
    lookup_entry (<[r := <[f := frame_entry p b]> (default ∅ (d !! r))]> d) r' f'
    = last_prediction (items ++ [(path, p, b)]) r' f'.
Proof.
  intros Hnames Hd r' f'. rewrite last_prediction_snoc, Hnames.
  unfold lookup_entry.
  destruct (decide (r = r')) as [->|Hr].
  - rewrite lookup_insert_eq. cbn.
    destruct (decide (f = f')) as [->|Hf].
    + rewrite lookup_insert_eq. by rewrite decide_True.
    + rewrite lookup_insert_ne by exact Hf.
      rewrite decide_False by congruence.
      rewrite <- Hd. unfold lookup_entry.
      destruct (d !! r') as [frames|]; cbn; [reflexivity|apply lookup_empty].
  - rewrite lookup_insert_ne by exact Hr.
    rewrite decide_False by congruence. apply Hd.
Qed.

(** X22: the dictionary that [eval] writes holds, under a recording name
    and a frame name, the entry of the last example of the test set whose
    image path has these names, and nothing under names of no example: a
    later example overwrites an earlier one with the same names. *)
Theorem eval_keeps_last_prediction `{PoseUtils} `{Autograd} (self self' : Trainer)
    (fs fs' : filesystem) :
  eval self fs = Some (self', fs') ->
  exists (chunks : list (list sample)) (saved : list (list saved_item))
         (d : predictions),
    concat chunks = test_ds self /\
    Forall2 (fun c items => batch_items self' (collate c) = Some items)
      chunks saved /\
    fs' !! submission_path self = Some [JsonDump d] /\
    forall recording_name frame_name : string,
      lookup_entry d recording_name frame_name
      = last_prediction (concat saved) recording_name frame_name.
Proof.
  intros Heval.
  destruct (eval_inv _ _ _ _ Heval) as (-> & batches & st & Hloader & Hloop & ->).
  destruct (DataLoader_Some _ _ _ Hloader) as (_ & chunks & -> & Hcat & _).
  destruct (for_enumerate_saved_inv
              (fun d items => forall r f,
                 lookup_entry d r f = last_prediction items r f)
              _ _ _ _ _ [] lookup_entry_step Hloop) as (saved & Hsaved & Hd).
  { intros r f. unfold lookup_entry. cbn. by rewrite lookup_empty. }
  exists chunks, saved, (pred_dict st). split; [exact Hcat|].
  split; [by apply Forall2_fmap_l in Hsaved|].
  split; [apply lookup_insert_eq|exact Hd].
Qed.

(** X23: [eval] changes no file other than the file of predictions and the
    log of results. *)
Theorem eval_touches_two_files `{PoseUtils} `{Autograd} (self self' : Trainer)
    (fs fs' : filesystem) (path : string) :
  eval self fs = Some (self', fs') ->
  path <> submission_path self -> path <> eval_result_path self ->
  fs' !! path = fs !! path.
Proof.
  intros Heval Hs Hr.
  destruct (eval_inv _ _ _ _ Heval) as (_ & batches & st & _ & _ & ->).
  unfold write_file, append_file.
  rewrite lookup_insert_ne by congruence.
  rewrite lookup_insert_ne by congruence. reflexivity.
Qed.

(** X24: on an empty test set, with a batch size that is not 0, [eval]
    returns and writes the dump of the empty dictionary to the file of
    predictions. *)
Theorem eval_empty_dataset `{PoseUtils} `{Autograd} (self : Trainer)
    (fs : filesystem) :
  test_ds self = [] -> batch_size (options self) <> 0%nat ->
  exists fs' : filesystem,
    eval self fs = Some (set_training false self, fs') /\
    fs' !! submission_path self = Some [JsonDump ∅].
Proof.
  intros Hds Hbs. unfold eval, DataLoader.
  cbn [test_ds set_training options].
  rewrite Hds. rewrite decide_False by exact Hbs.
  cbn [length]. rewrite Nat.add_0_l.
  rewrite Nat.div_small by lia.
  cbn. eexists. split; [reflexivity|]. apply lookup_insert_eq.
Qed.

Lemma item_at_paths (img_path : list string) (pred_pose pred_betas : tensor2)
    (n : nat) (items : list saved_item) :
  mapM (item_at img_path pred_pose pred_betas) (seq 0 n) = Some items ->
  item_path <$> items = take n img_path /\ (n <= length img_path)%nat.
Proof.
  intros Hitems. apply mapM_Some_1 in Hitems.
  assert (length items = n) as Hlen.
  { apply Forall2_length in Hitems. rewrite length_seq in Hitems. lia. }
  assert (forall i it, items !! i = Some it -> img_path !! i = Some (item_path it))
    as Hlook.
  { intros i it Hit.
    destruct (Forall2_lookup_r _ _ _ _ _ Hitems Hit) as (j & Hj & Hat).
    apply lookup_seq in Hj as [-> _]. cbn in Hat. unfold item_at in Hat.
    destruct (img_path !! i) as [path|]; [|discriminate]. cbn in Hat.
    destruct (pred_pose !! i); [|discriminate]. cbn in Hat.
    destruct (pred_betas !! i); [|discriminate]. cbn in Hat.
    by injection Hat as <-. }
  assert (n <= length img_path)%nat as Hle.
  { destruct n as [|n]; [lia|].
    destruct (lookup_lt_is_Some_2 items n) as [it Hit]; [lia|].
    apply Hlook, lookup_lt_Some in Hit. lia. }
  split; [|exact Hle].
  apply list_eq. intros i. rewrite list_lookup_fmap.
  destruct (items !! i) as [it|] eqn:Hit; cbn.
  - rewrite lookup_take_lt by (apply lookup_lt_Some in Hit; lia).
    symmetry. by apply Hlook.
  - apply lookup_ge_None in Hit. symmetry. apply lookup_ge_None.
    rewrite length_take. lia.
Qed.

Lemma batch_items_paths `{PoseUtils} `{Autograd} (self : Trainer)
    (c : list sample) (items : list saved_item) :
  batch_items self (collate c) = Some items ->
  item_path <$> items = s_imgname <$> c.
Proof.
  unfold batch_items. intros Hitems.
  destruct (eval_forward self (collate c)) as [v|]; [|discriminate].
  cbn [mbind option_bind] in Hitems.
  destruct (batch_pred_pose v _) as [pp|]; [|discriminate].
  cbn [mbind option_bind] in Hitems.
  apply item_at_paths in Hitems as [Hpaths _].
  rewrite Hpaths. cbn [collate img imgname].
  rewrite length_fmap. apply take_ge. by rewrite length_fmap.
Qed.

Lemma saved_paths `{PoseUtils} `{Autograd} (self : Trainer)
    (chunks : list (list sample)) (saved : list (list saved_item)) :
  Forall2 (fun c items => batch_items self (collate c) = Some items) chunks saved ->
  item_path <$> concat saved = s_imgname <$> concat chunks.
Proof.
  induction 1 as [|c items chunks saved Hc _ IH]; [reflexivity|].
  cbn [concat]. rewrite !fmap_app, IH. f_equal. by eapply batch_items_paths.
Qed.



Lemma rows_of_lengths {A} (n k : nat) (l : list A) :
  k <> 0%nat -> (n = 0 \/ (n - 1) * k < length l)%nat ->
  Forall (fun c : list A => (0 < length c <= k)%nat) (rows_of n k l).
Proof.
  intros Hk. revert l. induction n as [|n IH]; intros l Hn; [constructor|].
  destruct Hn as [Hn|Hn]; [discriminate Hn|].
  cbn [rows_of]. constructor.
  - rewrite length_take. nia.
  - apply IH. destruct n as [|n]; [by left|right].
    rewrite length_drop. nia.
Qed.

Lemma DataLoader_chunks `{Models} (ds : list sample) (bs : nat)
    (batches : list batch) :
  DataLoader ds bs = Some batches ->
  exists chunks : list (list sample),
    batches = collate <$> chunks /\ concat chunks = ds /\
    Forall (fun c : list sample => (0 < length c <= bs)%nat) chunks /\
    full_but_last length bs chunks.
Proof.
  unfold DataLoader. intros Hloader.
  destruct (decide (bs = 0%nat)) as [|Hbs]; [discriminate|].
  injection Hloader as <-.
  destruct (ceil_div_bounds (length ds) bs Hbs) as [Hup Hlow].
  eexists. split; [reflexivity|]. split; [by apply concat_rows_of|].
  split; [by apply rows_of_lengths|by apply rows_of_full_but_last].
Qed.

(** X21: [eval] processes every example of the test set exactly once and
    in the order of the data set.  The batches are the consecutive chunks
    of the test set: none is empty or holds more than [batch_size]
    examples, and all but the last hold [batch_size].  The predictions
    saved batch after batch carry the image paths of the test set, in
    order, and the dictionary written to the file of predictions is the one
    these predictions leave when they are entered in this order. *)
Theorem eval_saves_in_dataset_order `{PoseUtils} `{Autograd}
    (self self' : Trainer) (fs fs' : filesystem) :
  eval self fs = Some (self', fs') ->
  exists (chunks : list (list sample)) (saved : list (list saved_item))
         (d : predictions),
    concat chunks = test_ds self /\
    Forall (fun c : list sample =>
              (0 < length c <= batch_size (options self))%nat) chunks /\
    (forall (i : nat) (c : list sample),
       chunks !! i = Some c -> (S i < length chunks)%nat ->
       length c = batch_size (options self)) /\
    Forall2 (fun c items => batch_items self' (collate c) = Some items)
      chunks saved /\
    item_path <$> concat saved = s_imgname <$> test_ds self /\
    fs' !! submission_path self = Some [JsonDump d] /\
    forall recording_name frame_name : string,
      lookup_entry d recording_name frame_name
      = last_prediction (concat saved) recording_name frame_name.
Proof.
  intros Heval.
  destruct (eval_inv _ _ _ _ Heval) as (-> & batches & st & Hloader & Hloop & ->).
  destruct (DataLoader_chunks _ _ _ Hloader) as (chunks & -> & Hcat & Hlen & Hfull).
  destruct (for_enumerate_saved_inv
              (fun d items => forall r f,
                 lookup_entry d r f = last_prediction items r f)
              _ _ _ _ _ [] lookup_entry_step Hloop) as (saved & Hsaved & Hd).
  { intros r f. unfold lookup_entry. cbn. by rewrite lookup_empty. }
  apply Forall2_fmap_l in Hsaved.
  exists chunks, saved, (pred_dict st). split; [exact Hcat|].
  split; [exact Hlen|]. split; [exact Hfull|]. split; [exact Hsaved|].
  split; [rewrite <- Hcat; by eapply saved_paths|].
  split; [apply lookup_insert_eq|exact Hd].
Qed.


Lemma eval_keeps_last_prediction_witness :
  exists (chunks : list (list sample)) (saved : list (list saved_item))
         (d : predictions),
    concat chunks = test_ds sample_trainer /\
    Forall2 (fun c items =>
               @batch_items sample_pose_utils sample_models sample_autograd
                 (set_training false sample_trainer) (collate c) = Some items)
      chunks saved /\
    sample_eval_fs !! submission_path sample_trainer = Some [JsonDump d] /\
    forall recording_name frame_name : string,
      lookup_entry d recording_name frame_name
      = last_prediction (concat saved) recording_name frame_name.
Proof.
  apply (@eval_keeps_last_prediction sample_pose_utils sample_models
           sample_autograd sample_trainer (set_training false sample_trainer)
           ∅ sample_eval_fs).
  vm_compute. reflexivity.
Defined.

Lemma eval_touches_two_files_witness :
  sample_eval_fs !! "/out/other.txt" = (∅ : filesystem) !! "/out/other.txt".
Proof.
  apply (@eval_touches_two_files sample_pose_utils sample_models
           sample_autograd sample_trainer (set_training false sample_trainer)
           ∅ sample_eval_fs).
  - vm_compute. reflexivity.
  - discriminate.
  - discriminate.
Defined.

Lemma eval_saves_in_dataset_order_witness :
  exists (chunks : list (list (@sample sample_models))) (saved : list (list saved_item))
         (d : predictions),
    concat chunks = test_ds sample_trainer /\
    Forall (fun c : list (@sample sample_models) =>
              (0 < length c <= batch_size (options sample_trainer))%nat) chunks /\
    (forall (i : nat) (c : list (@sample sample_models)),
       chunks !! i = Some c -> (S i < length chunks)%nat ->
       length c = batch_size (options sample_trainer)) /\
    Forall2 (fun c items =>
               @batch_items sample_pose_utils sample_models sample_autograd
                 (set_training false sample_trainer) (collate c) = Some items)
      chunks saved /\
    item_path <$> concat saved = s_imgname <$> test_ds sample_trainer /\
    sample_eval_fs !! submission_path sample_trainer = Some [JsonDump d] /\
    forall recording_name frame_name : string,
      lookup_entry d recording_name frame_name
      = last_prediction (concat saved) recording_name frame_name.
Proof.
  apply (@eval_saves_in_dataset_order sample_pose_utils sample_models
           sample_autograd sample_trainer (set_training false sample_trainer)
           ∅ sample_eval_fs).
  vm_compute. reflexivity.
Defined.

(** ** Losses and errors of a perfect prediction; exceptions of the projection *)

Lemma Forall_True {A} (l : list A) : Forall (fun _ : A => True) l.
Proof. induction l; constructor; auto. Qed.

Lemma mapM_zip_diag {A C} (f : A -> A -> option C) (xs : list A) :
  mapM (fun p : A * A => f p.1 p.2) (zip xs xs) = mapM (fun x => f x x) xs.
Proof. induction xs as [|x xs IH]; [reflexivity|]. cbn. by rewrite IH. Qed.

Lemma bcast2_diag {A C} (f : A -> A -> option C) (xs : list A) :
  bcast2 f xs xs = mapM (fun x => f x x) xs.
Proof.
  destruct xs as [|x [|y l]]; [reflexivity|reflexivity|].
  unfold bcast2. rewrite decide_True by reflexivity. apply mapM_zip_diag.
Qed.

Lemma ew1_diag_Forall (f : R -> R -> R) (S : R -> Prop) (a d : tensor1) :
  (forall u, S (f u u)) -> ew1 f a a = Some d -> Forall S d.
Proof.
  intros Hf Hd. unfold ew1 in Hd. rewrite bcast2_diag in Hd.
  eapply (mapM_Forall _ (fun _ => True)); [|apply Forall_True1|exact Hd].
  intros x y _ [= <-]. apply Hf.
Qed.

Lemma ew2_diag_Forall (f : R -> R -> R) (S : R -> Prop) (a d : tensor2) :
  (forall u, S (f u u)) -> ew2 f a a = Some d -> Forall (Forall S) d.
Proof.
  intros Hf Hd. unfold ew2 in Hd. rewrite bcast2_diag in Hd.
  eapply (mapM_Forall _ (fun _ => True)); [|apply Forall_True|exact Hd].
  intros x y _ Hy. cbv beta in Hy. exact (ew1_diag_Forall f S x y Hf Hy).
Qed.

Lemma ew3_diag_Forall (f : R -> R -> R) (S : R -> Prop) (a d : tensor3) :
  (forall u, S (f u u)) -> ew3 f a a = Some d -> Forall (Forall (Forall S)) d.
Proof.
  intros Hf Hd. unfold ew3 in Hd. rewrite bcast2_diag in Hd.
  eapply (mapM_Forall _ (fun _ => True)); [|apply Forall_True|exact Hd].
  intros x y _ Hy. cbv beta in Hy. exact (ew2_diag_Forall f S x y Hf Hy).
Qed.

Lemma ew4_diag_Forall (f : R -> R -> R) (S : R -> Prop) (a d : tensor4) :
  (forall u, S (f u u)) -> ew4 f a a = Some d ->
  Forall (Forall (Forall (Forall S))) d.
Proof.
  intros Hf Hd. unfold ew4 in Hd. rewrite bcast2_diag in Hd.
  eapply (mapM_Forall _ (fun _ => True)); [|apply Forall_True|exact Hd].
  intros x y _ Hy. cbv beta in Hy. exact (ew3_diag_Forall f S x y Hf Hy).
Qed.

Lemma sq_err_diag (u : R) : sq_err u u = 0.
Proof. unfold sq_err. replace (u - u) with 0 by lra. cbn. lra. Qed.

Lemma abs_err_diag (u : R) : abs_err u u = 0.
Proof. unfold abs_err. replace (u - u) with 0 by lra. apply Rabs_R0. Qed.




(** X10: when the predicted vertices are the ground-truth vertices,
    [shape_loss] is zero. *)
Theorem shape_loss_perfect_prediction (gt_vertices : tensor3)
    (has_smpl : flag_tensor) (l : loss_tensor) :
  shape_loss gt_vertices gt_vertices has_smpl = Some l -> item l = 0.
Proof.
  intros Hl. unfold shape_loss in Hl.
  destruct (mask_index _ gt_vertices) as [g|]; [|discriminate].
  cbn -[mask_index] in Hl.
  destruct (decide _); [|injection Hl as <-; reflexivity].
  unfold criterion_shape in Hl.
  destruct (ew3 abs_err g g) as [d|] eqn:Hd; [|discriminate].
  injection Hl as <-. cbn. apply tmean_zero, Forall_flat3.
  eapply ew3_diag_Forall; [|exact Hd]. apply abs_err_diag.
Qed.

Lemma mean_distances_nonneg (d : tensor3) :
  Forall (fun x => 0 <= x) (mean_distances d).
Proof.
  unfold mean_distances. apply Forall_fmap, Forall_forall. intros ex _.
  cbv beta. unfold compose, mean_distance. apply tmean_nonneg.
  apply Forall_fmap, Forall_forall. intros row _. apply sqrt_pos.
Qed.

(** X16: the per-example errors that [eval] stores in [mpjpe] and [v2v]
    (the mean over the points of the Euclidean distance between prediction
    and ground truth) are nonnegative. *)
Theorem per_example_error_nonneg (pred gt : tensor3) (e : tensor1) :
  per_example_error pred gt = Some e -> Forall (fun x => 0 <= x) e.
Proof.
  unfold per_example_error. intros He.
  destruct (ew3 Rminus pred gt) as [d|]; [|discriminate].
  injection He as <-. apply mean_distances_nonneg.
Qed.

(** X17: the per-example errors of [eval] are zero when the prediction is
    the ground truth. *)
Theorem per_example_error_perfect_prediction (gt : tensor3) (e : tensor1) :
  per_example_error gt gt = Some e -> Forall (fun x => x = 0) e.
Proof.
  unfold per_example_error. intros He.
  destruct (ew3 Rminus gt gt) as [d|] eqn:Hd; [|discriminate].
  injection He as <-.
  assert (Forall (Forall (Forall (fun x => x = 0))) d) as Hzero.
  { eapply ew3_diag_Forall; [|exact Hd]. intros u. lra. }
  unfold mean_distances. apply Forall_fmap.
  eapply Forall_impl; [exact Hzero|]. intros ex Hex. cbv beta.
  unfold compose, mean_distance. apply tmean_zero, Forall_fmap.
  eapply Forall_impl; [exact Hex|]. intros row Hrow. cbv beta. unfold compose.
  rewrite tsum_zero; [apply sqrt_0|].
  apply Forall_fmap. eapply Forall_impl; [exact Hrow|].
  intros x ->. cbn. lra.
Qed.

Lemma mapM_None_elem {A B} (f : A -> option B) (l : list A) (x : A) :
  x ∈ l -> f x = None -> mapM f l = None.
Proof.
  intros Hx Hfx. destruct (mapM f l) as [k|] eqn:Hk; [|reflexivity].
  apply mapM_Some_1 in Hk.
  apply list_elem_of_lookup in Hx as [i Hi].
  destruct (Forall2_lookup_l _ _ _ _ _ Hk Hi) as (y & _ & Hy). congruence.
Qed.

(** X1: [weakProjection_gpu] raises on an empty batch, when the entries of
    an example of [skel3D] do not split in threes, and when a row of
    [trans2D] does not hold exactly two entries: the calls to [view] fail. *)
Theorem weakProjection_gpu_raises (skel3D : tensor3) (scale : tensor1)
    (trans2D : tensor2) :
  skel3D = [] \/
  (exists ex, ex ∈ skel3D /\ (length (concat ex) `mod` 3 <> 0)%nat) \/
  (exists row, row ∈ trans2D /\ length row <> 2%nat) ->
  weakProjection_gpu skel3D scale trans2D = None.
Proof.
  intros [->|[(ex & Hex & Hmod)|(row & Hrow & Hlen)]]; unfold weakProjection_gpu.
  - reflexivity.
  - unfold view_b_m1_3. destruct (decide (skel3D = [])); [reflexivity|].
    rewrite (mapM_None_elem _ _ ex Hex); [reflexivity|].
    cbv zeta. by rewrite decide_False.
  - destruct (view_b_m1_3 skel3D); [|reflexivity]. cbn [mbind option_bind].
    unfold view_b_1_2. rewrite (mapM_None_elem _ _ row Hrow); [reflexivity|].
    by rewrite decide_False.
Qed.

Lemma weakProjection_gpu_raises_witness :
  weakProjection_gpu [[[1; 2; 3]]] [2] [[10; 20; 30]] = None.
Proof.
  apply weakProjection_gpu_raises. right. right.
  exists [10; 20; 30]. split; [apply list_elem_of_here|]. cbn. lia.
Defined.



Lemma shape_loss_perfect_prediction_witness :
  exists l : loss_tensor,
    shape_loss [[[1; 2; 3]]] [[[1; 2; 3]]] (byte [1%Z]) = Some l /\ item l = 0.
Proof.
  eexists. split; [reflexivity|].
  apply (shape_loss_perfect_prediction [[[1; 2; 3]]] (byte [1%Z])).
  reflexivity.
Defined.

Lemma per_example_error_nonneg_witness :
  exists e : tensor1,
    per_example_error [[[1; 2; 3]; [0; 0; 0]]] [[[0; 2; 3]; [0; 0; 0]]] = Some e /\
    Forall (fun x => 0 <= x) e.
Proof.
  eexists. split; [reflexivity|].
  apply (per_example_error_nonneg [[[1; 2; 3]; [0; 0; 0]]] [[[0; 2; 3]; [0; 0; 0]]]).
  reflexivity.
Defined.

Lemma per_example_error_perfect_prediction_witness :
  exists e : tensor1,
    per_example_error [[[1; 2; 3]; [0; 0; 0]]] [[[1; 2; 3]; [0; 0; 0]]] = Some e /\
    Forall (fun x => x = 0) e.
Proof.
  eexists. split; [reflexivity|].
  apply (per_example_error_perfect_prediction [[[1; 2; 3]; [0; 0; 0]]]).
  reflexivity.
Defined.

(** ** Examples without annotation, and too few joints *)

Lemma select_agree {A} (mask : list bool) (xs ys : list A) :
  agree_on mask xs ys -> select mask xs = select mask ys.
Proof.
  intros [Hlen Hsame]. revert xs ys Hlen Hsame.
  induction mask as [|b mask IH]; intros [|x xs] [|y ys] Hlen Hsame;
    try reflexivity; try discriminate Hlen.
  cbn [select].
  assert (select mask xs = select mask ys) as ->.
  { apply IH; [by injection Hlen|]. intros i Hi. exact (Hsame (S i) Hi). }
  destruct b; [|reflexivity].
  pose proof (Hsame 0%nat eq_refl) as H0. by injection H0 as ->.
Qed.

Lemma mask_index_agree {A} (mask : list bool) (xs ys : list A) :
  agree_on mask xs ys -> mask_index mask xs = mask_index mask ys.
Proof.
  intros Hagree. unfold mask_index. rewrite (select_agree _ _ _ Hagree).
  destruct Hagree as [-> _]. reflexivity.
Qed.

Lemma agree_on_fmap {A B} (f : A -> B) (mask : list bool) (xs ys : list A) :
  agree_on mask xs ys -> agree_on mask (f <$> xs) (f <$> ys).
Proof.
  intros [Hlen Hsame]. split; [by rewrite !length_fmap|].
  intros i Hi. by rewrite !list_lookup_fmap, (Hsame i Hi).
Qed.

Lemma agree_on_mapM {A B} (f : A -> option B) (mask : list bool)
    (xs ys : list A) (xs' ys' : list B) :
  agree_on mask xs ys -> mapM f xs = Some xs' -> mapM f ys = Some ys' ->
  agree_on mask xs' ys'.
Proof.
  intros [Hlen Hsame] Hxs Hys.
  apply mapM_Some_1 in Hxs. apply mapM_Some_1 in Hys.
  pose proof (Forall2_length _ _ _ Hxs) as Hlx.
  pose proof (Forall2_length _ _ _ Hys) as Hly.
  split; [lia|]. intros i Hi. specialize (Hsame i Hi).
  destruct (xs' !! i) as [x'|] eqn:Hx'.
  - destruct (Forall2_lookup_r _ _ _ _ _ Hxs Hx') as (x & Hx & Hfx).
    rewrite Hx in Hsame. symmetry in Hsame.
    destruct (Forall2_lookup_l _ _ _ _ _ Hys Hsame) as (y' & Hy' & Hfy).
    rewrite Hy'. congruence.
  - apply lookup_ge_None in Hx'. symmetry. apply lookup_ge_None. lia.
Qed.

(** X6: [keypoint_3d_loss] depends on the examples whose flag
    [has_pose_3d] is 1 only: two batches of the same size that agree on these
    examples have the same loss (or raise alike), provided every annotated
    keypoint has a confidence entry. *)
Theorem keypoint_3d_loss_ignores_invalid_examples
    (pred_keypoints_3d pred_keypoints_3d' gt_keypoints_3d gt_keypoints_3d' : tensor3)
    (has_pose_3d : flag_tensor) :
  agree_on (eq_one has_pose_3d) pred_keypoints_3d pred_keypoints_3d' ->
  agree_on (eq_one has_pose_3d) gt_keypoints_3d gt_keypoints_3d' ->
  is_Some (last_col gt_keypoints_3d) -> is_Some (last_col gt_keypoints_3d') ->
  keypoint_3d_loss pred_keypoints_3d gt_keypoints_3d has_pose_3d
  = keypoint_3d_loss pred_keypoints_3d' gt_keypoints_3d' has_pose_3d.
Proof.
  intros Hpred Hgt [conf Hconf] [conf' Hconf']. unfold keypoint_3d_loss.
  rewrite Hconf, Hconf'. cbn [mbind option_bind].
  unfold joints_from, but_last_col.
  rewrite (mask_index_agree _ _ _ (agree_on_fmap _ _ _ _ Hgt)).
  rewrite (mask_index_agree _ _ _ (agree_on_fmap (drop 25) _ _ _ Hpred)).
  rewrite (mask_index_agree _ conf conf'
             (agree_on_mapM _ _ _ _ _ _ Hgt Hconf Hconf')).
  reflexivity.
Qed.

(** X9: [shape_loss] depends on the examples whose flag [has_smpl] is 1
    only: two batches of the same size that agree on these examples have the
    same loss (or raise alike). *)
Theorem shape_loss_ignores_invalid_examples
    (pred_vertices pred_vertices' gt_vertices gt_vertices' : tensor3)
    (has_smpl : flag_tensor) :
  agree_on (eq_one has_smpl) pred_vertices pred_vertices' ->
  agree_on (eq_one has_smpl) gt_vertices gt_vertices' ->
  shape_loss pred_vertices gt_vertices has_smpl
  = shape_loss pred_vertices' gt_vertices' has_smpl.
Proof.
  intros Hpred Hgt. unfold shape_loss.
  by rewrite (mask_index_agree _ _ _ Hpred), (mask_index_agree _ _ _ Hgt).
Qed.

Lemma select_nonempty {A} (mask : list bool) (xs : list A) :
  true ∈ mask -> length mask = length xs -> select mask xs <> [].
Proof.
  revert xs. induction mask as [|b mask IH]; intros [|x xs] Hin Hlen;
    try (by apply elem_of_nil in Hin); try discriminate Hlen.
  cbn [select]. destruct b; [discriminate|].
  apply elem_of_cons in Hin as [Hin|Hin]; [discriminate|].
  apply IH; [exact Hin|by injection Hlen].
Qed.

Lemma pelvis_too_few_joints (t : tensor3) :
  t <> [] -> Forall (fun ex => length ex < 4)%nat t -> pelvis t = None.
Proof.
  intros Hne Hfew. unfold pelvis.
  destruct (joint 2 t) as [j2|]; [|reflexivity]. cbn [mbind option_bind].
  destruct t as [|ex t]; [done|].
  unfold joint. rewrite (mapM_None_elem _ _ ex); [reflexivity|apply list_elem_of_here|].
  apply lookup_ge_None. apply Forall_inv in Hfew. lia.
Qed.

(** X7: when some example has 3D annotations, [keypoint_3d_loss] raises if
    the examples hold fewer than 29 predicted joints or fewer than 4
    annotated joints: the pelvis is computed from the joints of index 2 and
    3 after the first 25 predicted joints are dropped. *)
Theorem keypoint_3d_loss_too_few_joints
    (pred_keypoints_3d gt_keypoints_3d : tensor3)
    (has_pose_3d : flag_tensor) :
  true ∈ eq_one has_pose_3d ->
  Forall (fun ex => length ex < 29)%nat pred_keypoints_3d \/
  Forall (fun ex => length ex < 4)%nat gt_keypoints_3d ->
  keypoint_3d_loss pred_keypoints_3d gt_keypoints_3d has_pose_3d = None.
Proof.
  intros Hvalid Hfew. unfold keypoint_3d_loss.
  destruct (last_col gt_keypoints_3d) as [conf|]; [|reflexivity].
  cbn [mbind option_bind].
  destruct (mask_index _ (but_last_col _)) as [gt'|] eqn:Hgt'; [|reflexivity].
  cbn [mbind option_bind].
  destruct (mask_index _ conf) as [conf'|]; [|reflexivity].
  cbn [mbind option_bind].
  destruct (mask_index _ (joints_from 25 _)) as [pred'|] eqn:Hpred'; [|reflexivity].
  cbn [mbind option_bind].
  unfold mask_index in Hgt', Hpred'.
  destruct (decide (length (eq_one has_pose_3d) = length (but_last_col _)))
    as [Hlg|]; [|discriminate].
  destruct (decide (length (eq_one has_pose_3d) = length (joints_from 25 _)))
    as [Hlp|]; [|discriminate].
  injection Hgt' as <-. injection Hpred' as <-.
  pose proof (select_nonempty _ _ Hvalid Hlg) as Hneg.
  pose proof (select_nonempty _ _ Hvalid Hlp) as Hnep.
  rewrite decide_True
    by (destruct (select _ (but_last_col _)); [done|cbn; lia]).
  destruct Hfew as [Hfew|Hfew].
  - destruct (pelvis (select _ (but_last_col _))); [|reflexivity].
    cbn [mbind option_bind].
    destruct (ew3 Rminus _ _); [|reflexivity]. cbn [mbind option_bind].
    rewrite (pelvis_too_few_joints
               (select (eq_one has_pose_3d) (joints_from 25 pred_keypoints_3d)));
      [reflexivity|exact Hnep|].
    apply Forall_select. unfold joints_from. apply Forall_fmap.
    eapply Forall_impl; [exact Hfew|]. intros ex Hex.
    cbv beta in Hex |- *. unfold compose.
    rewrite length_drop. lia.
  - rewrite (pelvis_too_few_joints
               (select (eq_one has_pose_3d) (but_last_col gt_keypoints_3d)));
      [reflexivity|exact Hneg|].
    apply Forall_select. unfold but_last_col. apply Forall_fmap.
    eapply Forall_impl; [exact Hfew|]. intros ex Hex.
    cbv beta in Hex |- *. unfold compose.
    by rewrite length_fmap.
Qed.

Lemma keypoint_3d_loss_too_few_joints_witness :
  keypoint_3d_loss [replicate 28 [0; 0; 0]] sample_gt_keypoints_3d (byte [1%Z])
  = None.
Proof.
  apply keypoint_3d_loss_too_few_joints.
  - apply list_elem_of_here.
  - left. constructor; [cbn; lia|constructor].
Defined.

Lemma keypoint_3d_loss_ignores_invalid_examples_witness :
  keypoint_3d_loss (sample_pred_keypoints_3d ++ [[]])
    (sample_gt_keypoints_3d ++ [[[5; 5; 5; 1]]]) (byte [1%Z; 0%Z])
  = keypoint_3d_loss (sample_pred_keypoints_3d ++ [replicate 29 [7; 7; 7]])
      (sample_gt_keypoints_3d ++ [[]]) (byte [1%Z; 0%Z]).
Proof.
  apply keypoint_3d_loss_ignores_invalid_examples.
  - split; [reflexivity|].
    intros [|[|i]] Hi; [reflexivity|discriminate Hi|discriminate Hi].
  - split; [reflexivity|].
    intros [|[|i]] Hi; [reflexivity|discriminate Hi|discriminate Hi].
  - eexists. reflexivity.
  - eexists. reflexivity.
Defined.

Lemma shape_loss_ignores_invalid_examples_witness :
  shape_loss [[[1; 2; 3]]; [[0; 0; 0]]] [[[1; 2; 4]]; [[9; 9; 9]]] (byte [1%Z; 0%Z])
  = shape_loss [[[1; 2; 3]]; []] [[[1; 2; 4]]; [[1; 1; 1]; [2; 2; 2]]]
      (byte [1%Z; 0%Z]).
Proof.
  apply shape_loss_ignores_invalid_examples.
  - split; [reflexivity|].
    intros [|[|i]] Hi; [reflexivity|discriminate Hi|discriminate Hi].
  - split; [reflexivity|].
    intros [|[|i]] Hi; [reflexivity|discriminate Hi|discriminate Hi].
Defined.

(** ** The in-place computation of the 2D keypoint loss, continued *)

Lemma heap_keypoint_loss_frame (σ : Heap.store)
    (pred_keypoints_2d gt_keypoints_2d : Heap.tref)
    (openpose_weight gt_weight : R) (l : nat) :
  is_Some (σ !! l) ->
  (Heap.keypoint_loss pred_keypoints_2d gt_keypoints_2d
     openpose_weight gt_weight σ).2 !! l = σ !! l.
Proof.
  intros Hl.
  assert (l <> fresh (dom σ)) as Hne.
  { intros ->. destruct Hl as [t Ht].
    assert (σ !! fresh (dom σ) = None) as Hfresh
      by apply not_elem_of_dom, is_fresh.
    congruence. }
  unfold Heap.keypoint_loss.
  unfold mbind at 1. unfold Heap.heapM_bind.
  destruct (clone_run (Heap.last_col_view gt_keypoints_2d) σ)
    as [->|(v & Hload & ->)]; [reflexivity|].
  set (conf := {| Heap.storage := fresh (dom σ); Heap.via := Heap.Base |}).
  match goal with
  | |- (?rest ?s).2 !! _ = _ =>
      assert (Heap.touches_only (fresh (dom σ)) rest) as Hrest
  end.
  { apply touches_only_bind; [apply (touches_only_imul (Heap.joints_to_view 25 conf))|].
    intros _.
    apply touches_only_bind; [apply (touches_only_imul (Heap.joints_from_view 25 conf))|].
    intros _.
    apply touches_only_bind; [apply touches_only_load|]. intros pred.
    apply touches_only_bind; [apply touches_only_load|]. intros gt.
    apply touches_only_bind; [apply touches_only_lift|]. intros err.
    apply touches_only_bind; [apply touches_only_load|]. intros c.
    apply touches_only_bind; [apply touches_only_lift|]. intros weighted.
    apply touches_only_ret. }
  rewrite Hrest by exact Hne. by apply lookup_insert_ne.
Qed.

(** X5: the computation of [keypoint_loss] on tensor objects, with its
    in-place products on a clone of the confidences, returns what the
    formula on values returns (the same loss, or an exception in the same
    cases), and both argument tensors read the same after the call. *)
Theorem keypoint_loss_in_place_agrees (σ : Heap.store)
    (pred_keypoints_2d gt_keypoints_2d : Heap.tref)
    (openpose_weight gt_weight : R) (pred gt : tensor3) :
  (Heap.load pred_keypoints_2d σ).1 = Some pred ->
  (Heap.load gt_keypoints_2d σ).1 = Some gt ->
  let r := Heap.keypoint_loss pred_keypoints_2d gt_keypoints_2d
             openpose_weight gt_weight σ in
  r.1 = keypoint_loss pred gt openpose_weight gt_weight /\
  (Heap.load pred_keypoints_2d r.2).1 = Some pred /\
  (Heap.load gt_keypoints_2d r.2).1 = Some gt.
Proof.
  intros Hpred Hgt r. split; [by apply heap_keypoint_loss_value|].
  assert (forall x t, (Heap.load x σ).1 = Some t -> (Heap.load x r.2).1 = Some t)
    as Hsame.
  { intros x t Hx. unfold Heap.load in Hx |- *. cbn [fst] in Hx |- *.
    subst r. rewrite heap_keypoint_loss_frame; [exact Hx|].
    destruct (σ !! Heap.storage x); [by eexists|discriminate Hx]. }
  split; by apply Hsame.
Qed.

Lemma keypoint_loss_in_place_agrees_witness :
  (Heap.keypoint_loss sample_pred_ref sample_gt_ref 0 1 sample_store).1
  = keypoint_loss [[[1; 1]; [2; 2]]] [[[1; 0; 1]; [2; 1; 1]]] 0 1 /\
  (Heap.load sample_pred_ref
     (Heap.keypoint_loss sample_pred_ref sample_gt_ref 0 1 sample_store).2).1
  = Some [[[1; 1]; [2; 2]]] /\
  (Heap.load sample_gt_ref
     (Heap.keypoint_loss sample_pred_ref sample_gt_ref 0 1 sample_store).2).1
  = Some [[[1; 0; 1]; [2; 1; 1]]].
Proof.
  apply (keypoint_loss_in_place_agrees sample_store sample_pred_ref
           sample_gt_ref 0 1).
  - reflexivity.
  - reflexivity.
Defined.

Lemma eval_empty_dataset_witness :
  exists fs' : filesystem,
    @eval sample_pose_utils sample_models sample_autograd
      sample_trainer_no_data ∅
    = Some (set_training false sample_trainer_no_data, fs') /\
    fs' !! submission_path sample_trainer_no_data = Some [JsonDump ∅].
Proof.
  apply (@eval_empty_dataset sample_pose_utils sample_models sample_autograd
           sample_trainer_no_data ∅).
  - reflexivity.
  - cbn. lia.
Defined.

Lemma test_step_total_loss_witness :
  exists (self' : Trainer) (l : test_losses),
    @test_step sample_geometry sample_models sample_autograd sample_trainer
      (sample_batch sample_gt_keypoints_3d) = Some (self', l) /\
    exists scales : tensor1,
      col 0 (@hmr sample_models false (model sample_trainer)
               (img (sample_batch sample_gt_keypoints_3d))).2 = Some scales /\
      loss_test l
      = (shape_loss_weight sample_options * loss_shape_test l
         + keypoint_loss_weight sample_options * loss_keypoints_test l
         + pose_loss_weight sample_options * loss_regr_pose_test l
         + beta_loss_weight sample_options * loss_regr_betas_test l
         + tmean ((fun s => exp (- s * 10) ^ 2) <$> scales)) * 60.
Proof.
  do 2 eexists. split; [reflexivity|].
  eapply (@test_step_total_loss sample_geometry sample_models
            sample_autograd sample_trainer).
  reflexivity.
Defined.

(** ** The losses on the SMPL parameters *)

(** X12: when the predicted rotation matrices are those that
    [batch_rodrigues] gives for the ground-truth pose, and the predicted shape
    coefficients are the ground-truth ones, both losses of [smpl_losses] are
    zero. *)
Theorem smpl_losses_perfect_prediction `{Geometry} (gt_rotmat : tensor4)
    (gt_aa gt_pose gt_betas : tensor2) (has_smpl : flag_tensor)
    (loss_regr_pose loss_regr_betas : loss_tensor) :
  view_m1_3 gt_pose = Some gt_aa ->
  view_m1_24_3_3 (batch_rodrigues gt_aa) = Some gt_rotmat ->
  smpl_losses gt_rotmat gt_betas gt_pose gt_betas has_smpl
  = Some (loss_regr_pose, loss_regr_betas) ->
  item loss_regr_pose = 0 /\ item loss_regr_betas = 0.
Proof.
  intros Haa Hrot Hl. unfold smpl_losses in Hl. rewrite Haa in Hl.
  cbn [mbind option_bind] in Hl. rewrite Hrot in Hl.
  cbn [mbind option_bind] in Hl.
  destruct (mask_index _ gt_rotmat) as [pr|]; [|discriminate].
  cbn [mbind option_bind] in Hl.
  destruct (mask_index _ gt_betas) as [pb|]; [|discriminate].
  cbn [mbind option_bind] in Hl.
  destruct (decide _); [|injection Hl as <- <-; split; reflexivity].
  unfold criterion_regr4, criterion_regr2 in Hl.
  destruct (ew4 sq_err pr pr) as [d4|] eqn:Hd4; [|discriminate].
  cbn [mbind option_bind] in Hl.
  destruct (ew2 sq_err pb pb) as [d2|] eqn:Hd2; [|discriminate].
  injection Hl as <- <-. cbn [item]. split.
  - apply tmean_zero, Forall_flat4.
    eapply ew4_diag_Forall; [|exact Hd4]. apply sq_err_diag.
  - apply tmean_zero, Forall_flat2.
    eapply ew2_diag_Forall; [|exact Hd2]. apply sq_err_diag.
Qed.

(** X11: the predicted rotations, the predicted and the ground-truth
    shape coefficients of the examples whose flag [has_smpl] is not 1 do not
    influence [smpl_losses]. *)
Theorem smpl_losses_ignores_invalid_examples `{Geometry}
    (pred_rotmat pred_rotmat' : tensor4)
    (pred_betas pred_betas' gt_pose gt_betas gt_betas' : tensor2)
    (has_smpl : flag_tensor) :
  agree_on (eq_one has_smpl) pred_rotmat pred_rotmat' ->
  agree_on (eq_one has_smpl) pred_betas pred_betas' ->
  agree_on (eq_one has_smpl) gt_betas gt_betas' ->
  smpl_losses pred_rotmat pred_betas gt_pose gt_betas has_smpl
  = smpl_losses pred_rotmat' pred_betas' gt_pose gt_betas' has_smpl.
Proof.
  intros Hr Hb Hg. unfold smpl_losses.
  rewrite (mask_index_agree _ _ _ Hr), (mask_index_agree _ _ _ Hb),
    (mask_index_agree _ _ _ Hg). reflexivity.
Qed.

Lemma smpl_losses_perfect_prediction_witness :
  exists lp lb : loss_tensor,
    @smpl_losses sample_geometry [replicate 24 eye3] [replicate 10 0]
      [replicate 72 0] [replicate 10 0] (byte [1%Z]) = Some (lp, lb) /\
    item lp = 0 /\ item lb = 0.
Proof.
  do 2 eexists. split; [reflexivity|].
  apply (@smpl_losses_perfect_prediction sample_geometry [replicate 24 eye3]
           (replicate 24 [0; 0; 0]) [replicate 72 0] [replicate 10 0]
           (byte [1%Z])).
  - reflexivity.
  - reflexivity.
  - reflexivity.
Defined.

Lemma smpl_losses_ignores_invalid_examples_witness :
  @smpl_losses sample_geometry [replicate 24 eye3; []] [replicate 10 0; [1]]
    [replicate 72 0; replicate 72 0] [replicate 10 1; [2]] (byte [1%Z; 0%Z])
  = @smpl_losses sample_geometry [replicate 24 eye3; [eye3]]
      [replicate 10 0; [3; 4]]
      [replicate 72 0; replicate 72 0] [replicate 10 1; []] (byte [1%Z; 0%Z]).
Proof.
  apply (@smpl_losses_ignores_invalid_examples sample_geometry).
  - split; [reflexivity|].
    intros [|[|i]] Hi; [reflexivity|discriminate Hi|discriminate Hi].
  - split; [reflexivity|].
    intros [|[|i]] Hi; [reflexivity|discriminate Hi|discriminate Hi].
  - split; [reflexivity|].
    intros [|[|i]] Hi; [reflexivity|discriminate Hi|discriminate Hi].
Defined.

(** ** A closed form of the 2D keypoint loss *)

Lemma last_col_closed_form (b k d : nat) (gt : tensor3) :
  has_shape3 b k (S d) gt ->
  last_col gt
  = Some ((fun ge : list (list R) =>
             (fun g : list R => [default 0 (last g)]) <$> ge) <$> gt).
Proof.
  intros [_ Hgt]. unfold last_col. apply mapM_map_Some.
  eapply Forall_impl; [exact Hgt|]. intros ge [_ Hge]. cbv beta.
  apply mapM_map_Some. eapply Forall_impl; [exact Hge|].
  intros g Hg. cbv beta.
  destruct (last g) as [x|] eqn:Hlast; [reflexivity|].
  apply last_None in Hlast. subst g. discriminate Hg.
Qed.

Lemma take_fmap_take_app {A} (f : A -> A) (n : nat) (l : list A) :
  take n ((f <$> take n l) ++ drop n l) = f <$> take n l.
Proof.
  destruct (decide (n <= length l)%nat) as [Hle|Hgt].
  - apply take_app_length'. rewrite length_fmap, length_take. lia.
  - rewrite drop_ge by lia. rewrite app_nil_r. apply take_ge.
    rewrite length_fmap, length_take. lia.
Qed.

Lemma drop_fmap_take_app {A} (f : A -> A) (n : nat) (l : list A) :
  drop n ((f <$> take n l) ++ drop n l) = drop n l.
Proof.
  destruct (decide (n <= length l)%nat) as [Hle|Hgt].
  - apply drop_app_length'. rewrite length_fmap, length_take. lia.
  - rewrite (drop_ge l) by lia. rewrite app_nil_r. apply drop_ge.
    rewrite length_fmap, length_take. lia.
Qed.

Lemma imul_joints_example (ow gw : R) (ce : list (list R)) :
  let ce' := ((fun row : list R => (fun x => x * ow) <$> row) <$> take 25 ce)
             ++ drop 25 ce in
  take 25 ce' ++ ((fun row : list R => (fun x => x * gw) <$> row) <$> drop 25 ce')
  = ((fun row : list R => (fun x => x * ow) <$> row) <$> take 25 ce)
    ++ ((fun row : list R => (fun x => x * gw) <$> row) <$> drop 25 ce).
Proof.
  intros ce'. subst ce'. by rewrite take_fmap_take_app, drop_fmap_take_app.
Qed.

Lemma ew2_sq_err_rows (k d : nat) (pe ge : list (list R)) :
  has_shape2 k d pe -> has_shape2 k (S d) ge ->
  ew2 sq_err pe ((fun row : list R => removelast row) <$> ge)
  = Some (zip_with (zip_with sq_err) pe
            ((fun row : list R => removelast row) <$> ge)).
Proof.
  intros [Hlp Hp] [Hlg Hg]. unfold ew2. apply bcast2_zip_with.
  - rewrite length_fmap. lia.
  - intros i p g' Hpi Hgi. apply ew1_same_length.
    apply list_lookup_fmap_Some in Hgi as (g & -> & Hgi).
    pose proof (proj1 (Forall_forall _ _) Hp p (list_elem_of_lookup_2 _ _ _ Hpi)) as H1.
    pose proof (proj1 (Forall_forall _ _) Hg g (list_elem_of_lookup_2 _ _ _ Hgi)) as H2.
    cbv beta in H1, H2. rewrite removelast_firstn_len, length_take. lia.
Qed.

Lemma ew2_Rmult_conf (ws : list R) (ee : list (list R)) :
  length ws = length ee ->
  ew2 Rmult ((fun c : R => [c]) <$> ws) ee
  = Some (zip_with (fun (c : R) (er : list R) => Rmult c <$> er) ws ee).
Proof.
  intros Hlen. unfold ew2.
  rewrite (bcast2_zip_with _
             (fun (cr er : list R) => Rmult (default 0 (head cr)) <$> er)).
  - f_equal. rewrite zip_with_fmap_l. reflexivity.
  - by rewrite length_fmap.
  - intros i cr er Hc He. apply list_lookup_fmap_Some in Hc as (c & -> & _).
    apply ew1_scalar_l.
Qed.

Lemma weighted_rows (w : R) (ps gs : list (list R)) :
  zip_with (fun (c : R) (er : list R) => Rmult c <$> er)
    ((fun g : list R => default 0 (last g) * w) <$> gs)
    (zip_with (zip_with sq_err) ps ((fun row : list R => removelast row) <$> gs))
  = zip_with (weighted_sq_err w) ps gs.
Proof.
  revert gs. induction ps as [|p ps IH]; intros [|g gs]; try reflexivity.
  cbn [fmap list_fmap zip_with]. f_equal. apply IH.
Qed.

Lemma keypoint_loss_example (k d : nat) (ow gw : R) (pe ge : list (list R)) :
  has_shape2 k d pe -> has_shape2 k (S d) ge ->
  ew2 Rmult (conf_example ow gw ge)
    (zip_with (zip_with sq_err) pe ((fun row : list R => removelast row) <$> ge))
  = Some (weighted_example ow gw pe ge).
Proof.
  intros Hp Hg. unfold conf_example. cbv zeta.
  rewrite imul_joints_example.
  rewrite <- !fmap_take, <- !fmap_drop, <- !list_fmap_compose.
  unfold compose. cbn [fmap list_fmap].
  assert (forall w (gs : list (list R)),
            (fun g : list R => [default 0 (last g) * w]) <$> gs
            = (fun c : R => [c]) <$> ((fun g : list R => default 0 (last g) * w) <$> gs))
    as Hsplit.
  { intros w gs. by rewrite <- list_fmap_compose. }
  rewrite !Hsplit, <- fmap_app.
  destruct Hp as [Hlp _], Hg as [Hlg _].
  rewrite ew2_Rmult_conf.
  - f_equal. unfold weighted_example.
    rewrite <- (take_drop 25 (zip_with (zip_with sq_err) pe _)).
    rewrite zip_with_app.
    + rewrite zip_with_take, zip_with_drop, <- fmap_take, <- fmap_drop.
      by rewrite !weighted_rows.
    + rewrite length_fmap, !length_take, length_zip_with, length_fmap. lia.
  - rewrite length_app, !length_fmap, length_take, length_drop,
      length_zip_with, length_fmap. lia.
Qed.

Lemma weighted_batch (k d : nat) (ow gw : R) (pred gt : tensor3) :
  Forall (has_shape2 k d) pred -> Forall (has_shape2 k (S d)) gt ->
  zip_with (fun ce ee : list (list R) => default [] (ew2 Rmult ce ee))
    (conf_example ow gw <$> gt)
    (zip_with (zip_with (zip_with sq_err)) pred (but_last_col gt))
  = zip_with (weighted_example ow gw) pred gt.
Proof.
  intros Hp. revert gt. induction Hp as [|pe pred Hpe _ IH]; intros gt Hg.
  - by destruct gt.
  - destruct Hg as [|ge gt Hge Hg]; [reflexivity|].
    cbn [fmap list_fmap but_last_col zip_with].
    rewrite (keypoint_loss_example k d) by assumption.
    cbn [default]. f_equal. apply IH, Hg.
Qed.

Lemma keypoint_loss_closed (b k d : nat) (pred gt : tensor3) (ow gw : R) :
  has_shape3 b k d pred -> has_shape3 b k (S d) gt ->
  keypoint_loss pred gt ow gw
  = Some (Scalar (tmean (flat3 (zip_with (weighted_example ow gw) pred gt)))).
Proof.
  intros Hp Hg. unfold keypoint_loss.
  rewrite (last_col_closed_form b k d) by exact Hg. cbn [mbind option_bind].
  destruct Hp as [Hlp Hp], Hg as [Hlg Hg].
  unfold criterion_keypoints, ew3.
  rewrite (bcast2_zip_with _ (zip_with (zip_with sq_err))).
  2:{ unfold but_last_col. rewrite length_fmap. lia. }
  2:{ intros i pe ge' Hpi Hgi. unfold but_last_col in Hgi.
      apply list_lookup_fmap_Some in Hgi as (ge & -> & Hgi).
      apply (ew2_sq_err_rows k d).
      - exact (proj1 (Forall_forall _ _) Hp pe (list_elem_of_lookup_2 _ _ _ Hpi)).
      - exact (proj1 (Forall_forall _ _) Hg ge (list_elem_of_lookup_2 _ _ _ Hgi)). }
  cbn [mbind option_bind].
  assert (imul_joints_from 25 gw
            (imul_joints_to 25 ow
               ((fun ge : list (list R) =>
                   (fun g : list R => [default 0 (last g)]) <$> ge) <$> gt))
          = conf_example ow gw <$> gt) as ->.
  { unfold imul_joints_from, imul_joints_to.
    rewrite <- !list_fmap_compose. reflexivity. }
  rewrite (bcast2_zip_with _
             (fun ce ee : list (list R) => default [] (ew2 Rmult ce ee))).
  - cbn [mbind option_bind]. rewrite (weighted_batch k d) by assumption.
    reflexivity.
  - rewrite length_fmap, length_zip_with. unfold but_last_col.
    rewrite length_fmap. lia.
  - intros i ce ee Hc He.
    apply list_lookup_fmap_Some in Hc as (ge & -> & Hgi).
    apply lookup_zip_with_Some in He as (pe & ge' & -> & Hpi & Hgi').
    unfold but_last_col in Hgi'. rewrite list_lookup_fmap, Hgi in Hgi'.
    injection Hgi' as <-.
    rewrite (keypoint_loss_example k d); [reflexivity| |].
    + exact (proj1 (Forall_forall _ _) Hp pe (list_elem_of_lookup_2 _ _ _ Hpi)).
    + exact (proj1 (Forall_forall _ _) Hg ge (list_elem_of_lookup_2 _ _ _ Hgi)).
Qed.

Lemma weighted_sq_err_length (d : nat) (w : R) (p g : list R) :
  length p = d -> length g = S d -> length (weighted_sq_err w p g) = d.
Proof.
  intros Hp Hg. unfold weighted_sq_err.
  rewrite length_fmap, length_zip_with, removelast_firstn_len, length_take. lia.
Qed.

Lemma weighted_rows_shape (d : nat) (w : R) (ps gs : list (list R)) :
  length ps = length gs ->
  Forall (fun p => length p = d) ps -> Forall (fun g => length g = S d) gs ->
  has_shape2 (length ps) d (zip_with (weighted_sq_err w) ps gs).
Proof.
  intros Hlen Hps Hgs. split; [rewrite length_zip_with; lia|].
  apply (Forall_zip_with_snd _ (fun g => length g = S d)); [|exact Hgs].
  eapply Forall_impl; [exact Hps|]. intros p Hp g Hg.
  by apply weighted_sq_err_length.
Qed.

Lemma weighted_example_shape (k d : nat) (ow gw : R) (pe ge : list (list R)) :
  has_shape2 k d pe -> has_shape2 k (S d) ge ->
  has_shape2 k d (weighted_example ow gw pe ge).
Proof.
  intros [Hlp Hp] [Hlg Hg]. unfold weighted_example.
  destruct (weighted_rows_shape d ow (take 25 pe) (take 25 ge)) as [Hl1 Hr1];
    [rewrite !length_take; lia|by apply Forall_take|by apply Forall_take|].
  destruct (weighted_rows_shape d gw (drop 25 pe) (drop 25 ge)) as [Hl2 Hr2];
    [rewrite !length_drop; lia|by apply Forall_drop|by apply Forall_drop|].
  split; [|by apply Forall_app].
  rewrite length_app, Hl1, Hl2, length_take, length_drop. lia.
Qed.

Lemma weighted_batch_shape (b k d : nat) (ow gw : R) (pred gt : tensor3) :
  has_shape3 b k d pred -> has_shape3 b k (S d) gt ->
  has_shape3 b k d (zip_with (weighted_example ow gw) pred gt).
Proof.
  intros [Hlp Hp] [Hlg Hg]. split; [rewrite length_zip_with; lia|].
  apply (Forall_zip_with_snd _ (has_shape2 k (S d))); [|exact Hg].
  eapply Forall_impl; [exact Hp|]. intros pe Hpe ge Hge.
  by apply weighted_example_shape.
Qed.

(** X2: on predicted keypoints of shape (b, k, d) and annotated keypoints
    of shape (b, k, d + 1), [keypoint_loss] returns the sum, divided by
    b * k * d, of confidence * weight * (prediction - annotation)^2 over all
    entries, where the confidence is the last entry of the annotated
    keypoint and the weight is [openpose_weight] for the joints of index
    below 25 and [gt_weight] for the others. *)
Theorem keypoint_loss_closed_form (b k d : nat)
    (pred_keypoints_2d gt_keypoints_2d : tensor3)
    (openpose_weight gt_weight : R) :
  has_shape3 b k d pred_keypoints_2d -> has_shape3 b k (S d) gt_keypoints_2d ->
  keypoint_loss pred_keypoints_2d gt_keypoints_2d openpose_weight gt_weight
  = Some (Scalar (tsum (flat3 (zip_with (weighted_example openpose_weight gt_weight)
                                 pred_keypoints_2d gt_keypoints_2d))
                  / INR (b * k * d))).
Proof.
  intros Hp Hg. rewrite (keypoint_loss_closed b k d) by assumption.
  unfold tmean.
  by rewrite (length_flat3 b k d _ (weighted_batch_shape b k d _ _ _ _ Hp Hg)).
Qed.

Lemma weighted_sq_err_zero (p p' g : list R) :
  length p = length p' -> weighted_sq_err 0 p g = weighted_sq_err 0 p' g.
Proof.
  intros Hlen. unfold weighted_sq_err.
  rewrite (const_fmap _ (zip_with sq_err p _) 0) by (intros; lra).
  rewrite (const_fmap _ (zip_with sq_err p' _) 0) by (intros; lra).
  by rewrite !length_zip_with, Hlen.
Qed.

Lemma weighted_rows_zero (d : nat) (ps ps' gs : list (list R)) :
  length ps = length ps' ->
  Forall (fun p => length p = d) ps -> Forall (fun p => length p = d) ps' ->
  zip_with (weighted_sq_err 0) ps gs = zip_with (weighted_sq_err 0) ps' gs.
Proof.
  intros Hlen Hps. revert ps' gs Hlen.
  induction Hps as [|p ps Hp _ IH]; intros [|p' ps'] gs Hlen Hps';
    try discriminate Hlen; [reflexivity|].
  destruct gs as [|g gs]; [reflexivity|]. cbn [zip_with].
  apply Forall_cons in Hps' as [Hp' Hps'].
  rewrite (weighted_sq_err_zero p p' g) by congruence.
  f_equal. apply IH; [by injection Hlen|exact Hps'].
Qed.

Lemma weighted_example_agree (k d : nat) (ow gw : R) (pe pe' ge : list (list R)) :
  has_shape2 k d pe -> has_shape2 k d pe' ->
  ow = 0 \/ take 25 pe = take 25 pe' ->
  gw = 0 \/ drop 25 pe = drop 25 pe' ->
  weighted_example ow gw pe ge = weighted_example ow gw pe' ge.
Proof.
  intros [Hl Hp] [Hl' Hp'] Hto Hfrom. unfold weighted_example. f_equal.
  - destruct Hto as [->| ->]; [|reflexivity].
    apply (weighted_rows_zero d).
    + rewrite !length_take. lia.
    + apply Forall_take, Hp.
    + apply Forall_take, Hp'.
  - destruct Hfrom as [->| ->]; [|reflexivity].
    apply (weighted_rows_zero d).
    + rewrite !length_drop. lia.
    + apply Forall_drop, Hp.
    + apply Forall_drop, Hp'.
Qed.

Lemma weighted_batch_agree (k d : nat) (ow gw : R) (pred pred' gt : tensor3) :
  length pred = length pred' ->
  Forall (has_shape2 k d) pred -> Forall (has_shape2 k d) pred' ->
  ow = 0 \/ joints_to 25 pred = joints_to 25 pred' ->
  gw = 0 \/ joints_from 25 pred = joints_from 25 pred' ->
  zip_with (weighted_example ow gw) pred gt
  = zip_with (weighted_example ow gw) pred' gt.
Proof.
  intros Hlen Hp. revert pred' gt Hlen.
  induction Hp as [|pe pred Hpe _ IH]; intros [|pe' pred'] gt Hlen Hp' Hto Hfrom;
    try discriminate Hlen; [reflexivity|].
  destruct gt as [|ge gt]; [reflexivity|]. cbn [zip_with].
  apply Forall_cons in Hp' as [Hpe' Hp'].
  unfold joints_to, joints_from in Hto, Hfrom. cbn [fmap list_fmap] in Hto, Hfrom.
  f_equal.
  - apply (weighted_example_agree k d); [assumption|assumption| |].
    + destruct Hto as [->|Hto]; [by left|right; by injection Hto].
    + destruct Hfrom as [->|Hfrom]; [by left|right; by injection Hfrom].
  - apply IH; [by injection Hlen|exact Hp'| |].
    + destruct Hto as [->|Hto]; [by left|right; by injection Hto].
    + destruct Hfrom as [->|Hfrom]; [by left|right; by injection Hfrom].
Qed.

(** X3: a group of joints whose weight is zero does not influence
    [keypoint_loss]: with [openpose_weight = 0] the loss is the same for two
    predictions that agree on the joints from index 25 on, and with
    [gt_weight = 0] for two predictions that agree on the first 25 joints.
    The tensors have the shapes of X2; their entries and the two weights
    are at most [1e6] in absolute value.  Over the reals the bound plays no
    role; in float32 it keeps the squared errors finite, where the product
    of the weight 0 and an infinite squared error is nan. *)
Theorem keypoint_loss_ignores_unweighted_joints (b k d : nat)
    (pred_keypoints_2d pred_keypoints_2d' gt_keypoints_2d : tensor3)
    (openpose_weight gt_weight : R) :
  has_shape3 b k d pred_keypoints_2d -> has_shape3 b k d pred_keypoints_2d' ->
  has_shape3 b k (S d) gt_keypoints_2d ->
  bounded3 1e6 pred_keypoints_2d -> bounded3 1e6 pred_keypoints_2d' ->
  bounded3 1e6 gt_keypoints_2d ->
  Rabs openpose_weight <= 1e6 -> Rabs gt_weight <= 1e6 ->
  openpose_weight = 0 \/
    joints_to 25 pred_keypoints_2d = joints_to 25 pred_keypoints_2d' ->
  gt_weight = 0 \/
    joints_from 25 pred_keypoints_2d = joints_from 25 pred_keypoints_2d' ->
  keypoint_loss pred_keypoints_2d gt_keypoints_2d openpose_weight gt_weight
  = keypoint_loss pred_keypoints_2d' gt_keypoints_2d openpose_weight gt_weight.
Proof.
  intros Hp Hp' Hg _ _ _ _ _ Hto Hfrom.
  rewrite (keypoint_loss_closed b k d pred_keypoints_2d) by assumption.
  rewrite (keypoint_loss_closed b k d pred_keypoints_2d') by assumption.
  destruct Hp as [Hl Hp], Hp' as [Hl' Hp'].
  rewrite (weighted_batch_agree k d _ _ pred_keypoints_2d pred_keypoints_2d')
    by (assumption || lia).
  reflexivity.
Qed.


Lemma sample_shape_2d (row : list R) (n : nat) :
  has_shape3 1 n (length row) [replicate n row].
Proof.
  split; [reflexivity|]. constructor; [|constructor].
  split; [apply length_replicate|]. by apply Forall_replicate.
Qed.

Lemma keypoint_loss_closed_form_witness :
  keypoint_loss [[[1; 1]; [2; 2]]] [[[1; 0; 1]; [2; 1; 1]]] 0 1
  = Some (Scalar (tsum (flat3 (zip_with (weighted_example 0 1)
                                 [[[1; 1]; [2; 2]]] [[[1; 0; 1]; [2; 1; 1]]]))
                  / INR (1 * 2 * 2))).
Proof.
  apply (keypoint_loss_closed_form 1 2 2).
  - split; [reflexivity|]. repeat constructor.
  - split; [reflexivity|]. repeat constructor.
Defined.

Lemma keypoint_loss_ignores_unweighted_joints_witness :
  keypoint_loss [replicate 26 [3; 4]] [replicate 26 [0; 0; 1]] 0 1
  = keypoint_loss [replicate 25 [7; 7] ++ [[3; 4]]] [replicate 26 [0; 0; 1]] 0 1.
Proof.
  apply (keypoint_loss_ignores_unweighted_joints 1 26 2).
  - exact (sample_shape_2d [3; 4] 26).
  - split; [reflexivity|]. constructor; [|constructor].
    split; [reflexivity|]. cbn.
    repeat (apply Forall_cons_2 || apply Forall_nil_2); reflexivity.
  - exact (sample_shape_2d [0; 0; 1] 26).
  - apply bounded3_replicate. small_entries.
  - constructor; [|constructor]. apply Forall_app. split.
    + apply Forall_replicate. small_entries.
    + constructor; [|constructor]. small_entries.
  - apply bounded3_replicate. small_entries.
  - apply Rabs_le; lra.
  - apply Rabs_le; lra.
  - left. reflexivity.
  - right. reflexivity.
Defined.

(** ** The predicted camera translation *)

Lemma col_fmap (i : nat) (t : tensor2) (c : tensor1) :
  col i t = Some c -> c = (fun row : list R => default 0 (row !! i)) <$> t.
Proof.
  unfold col. intros Hc. apply mapM_Some_1 in Hc.
  induction Hc as [|row x t c Hx _ IH]; [reflexivity|].
  cbn [fmap list_fmap]. rewrite Hx. cbn [default]. by rewrite IH.
Qed.

Lemma stack3_fmap {A} (f g h : A -> R) (l : list A) :
  zip_with (fun (x : R) (yz : list R) => x :: yz) (f <$> l)
    (zip_with (fun y z : R => [y; z]) (g <$> l) (h <$> l))
  = (fun a => [f a; g a; h a]) <$> l.
Proof. induction l as [|a l IH]; [reflexivity|]. cbn. by rewrite IH. Qed.

Lemma project_cam_t `{Geometry} (opts : Options) (focal : R) (n : nat)
    (pred_joints : tensor3) (pred_camera : tensor2) (k2 : tensor3) (t : tracked) :
  project opts focal n pred_joints pred_camera = Some (k2, t) ->
  data t = (if use_wpp opts then replicate n [0; 0; 0]
            else cam_t_of focal (img_res opts) <$> pred_camera).
Proof.
  unfold project. intros Hp. destruct (use_wpp opts).
  - destruct (col 0 pred_camera) as [s|]; [|discriminate].
    cbn [mbind option_bind] in Hp.
    destruct (weakProjection_gpu _ _ _); [|discriminate].
    by injection Hp as _ <-.
  - destruct (col 1 pred_camera) as [tx|] eqn:Htx; [|discriminate].
    cbn [mbind option_bind] in Hp.
    destruct (col 2 pred_camera) as [ty|] eqn:Hty; [|discriminate].
    cbn [mbind option_bind] in Hp.
    destruct (col 0 pred_camera) as [s|] eqn:Hs; [|discriminate].
    cbn [mbind option_bind] in Hp.
    destruct (stack3 _ _ _) as [ct|] eqn:Hct; [|discriminate].
    injection Hp as _ <-. cbn [data].
    unfold stack3 in Hct. destruct (decide _) as [_|]; [|discriminate].
    injection Hct as <-.
    rewrite (col_fmap _ _ _ Htx), (col_fmap _ _ _ Hty), (col_fmap _ _ _ Hs).
    rewrite <- list_fmap_compose. apply stack3_fmap.
Qed.

(** X25: the predicted camera translation that [train_step] returns is
    detached; in weak-perspective mode ([use_wpp]) it is zero for every
    example, otherwise the camera [s, tx, ty] predicted for an example gives
    the translation [tx, ty, 2 * focal_length / (img_res * s + 1e-9)]. *)
Theorem train_step_pred_cam_t `{Geometry} `{Autograd} (self self' : Trainer)
    (input_batch : batch) (out : step_output) (l : step_losses) :
  train_step self input_batch = Some (self', out, l) ->
  let opts := options self in
  let pred_camera := (hmr true (model self) (img input_batch)).2 in
  pred_cam_t out
  = Tracked (if use_wpp opts then replicate (length (img input_batch)) [0; 0; 0]
             else cam_t_of (focal_length self) (img_res opts) <$> pred_camera)
      false.
Proof.
  intros Hstep opts pred_camera.
  destruct (train_step_inv _ _ _ _ _ Hstep) as (fw & Hfw & _ & -> & _).
  destruct (train_forward_inv _ _ _ _ Hfw)
    as (pr & pb & go & k2 & pen & Hhmr & _ & _ & Hproj & _).
  cbn [options set_training training focal_length] in *.
  cbn [pred_cam_t]. unfold detach. f_equal.
  rewrite (project_cam_t _ _ _ _ _ _ _ Hproj).
  subst pred_camera. by rewrite Hhmr.
Qed.

Lemma train_step_pred_cam_t_witness :
  exists (self' : Trainer) (out : step_output) (l : step_losses),
    @train_step sample_geometry sample_models sample_autograd sample_trainer
      (sample_batch sample_gt_keypoints_3d) = Some (self', out, l) /\
    pred_cam_t out
    = Tracked (cam_t_of 5000 224 <$> [[0; 0; 0]]) false.
Proof.
  destruct train_step_sample as [[[self' out] l] Hstep].
  exists self', out, l. split; [exact Hstep|].
  exact (@train_step_pred_cam_t sample_geometry sample_models sample_autograd
           sample_trainer self' (sample_batch sample_gt_keypoints_3d) out l Hstep).
Defined.
